(** * Enhanced delete subsystem of the construction estimate manager

    A shallow embedding of the delete helpers and performance utilities
    of [src/utils/deleteHelpers.js] and of the hook of
    [src/hooks/useEnhancedDelete.js].

    Conventions of the embedding.
    - JavaScript strings are [string]s holding the UTF-8 bytes of the
      text; every token the classifier looks for is ASCII, so a token
      occurs in the bytes exactly when it occurs in the text.
    - A [Map] or plain object used as a dictionary whose iteration
      order is not observed is a [gmap]; [MemoryLeakDetector.counters],
      which [checkForLeaks] iterates, is an insertion-ordered
      association list.
    - Counters are [Z] where the source guards them ([Math.max]) and
      [nat] where they only grow from zero.
    - [Date.now()] readings are explicit arguments.
    - A JavaScript number is a binary64 value, held as the rational it
      denotes.  Counters and [Date.now()] readings are integers below
      2^53, which binary64 holds exactly; a quotient, product or
      difference of doubles is the exact result rounded to the nearest
      double ([roundDouble]), in the normal range of the format.
    - Calls into caller-supplied functions, the console and timers are
      recorded in an event log, in program order; an awaited promise is
      the value (or thrown error) it settles to. *)

From Stdlib Require Import Ascii String QArith Qround Qabs Qpower Lqa.
From Stdlib Require Import Sorted.
From stdpp Require Import gmap strings list fin_maps pretty.
Close Scope Q_scope.
Open Scope string_scope.
Open Scope list_scope.

(* ===================================================================== *)
(** * Part I: definitions *)
(* ===================================================================== *)

(** ** JavaScript values that cross the interfaces *)

(** What a delete operation may resolve to. *)
Inductive JsValue :=
| VUndefined
| VNull
| VBool (b : bool)
| VNum (z : Z)
| VStr (s : string).

(** [Boolean(v)] / [if (v)]. *)
Definition truthy (v : JsValue) : bool :=
  match v with
  | VUndefined | VNull => false
  | VBool b => b
  | VNum z => negb (z =? 0)%Z
  | VStr s => negb (String.eqb s EmptyString)
  end.

(** What may be thrown or rejected: [null], [undefined], or an error
    object whose [message] is a string or is missing ([None]). *)
Inductive JsError :=
| ThrownNull
| ThrownUndefined
| ErrorObj (message : option string).

(** [new Error(msg)]. *)
Definition Error (msg : string) : JsError := ErrorObj (Some msg).

(** ** Strings *)

Definition lowerChar (c : ascii) : ascii :=
  let n := N_of_ascii c in
  if ((65 <=? n) && (n <=? 90))%N then ascii_of_N (n + 32) else c.

(** [String.prototype.toLowerCase], on the UTF-8 bytes of the string.
    The characters whose lower case contains an ASCII character are the
    letters [A]..[Z], U+212A (Kelvin sign, bytes 226 132 170), which
    becomes [k], and U+0130 (capital I with dot above, bytes 196 176),
    which becomes [i] followed by U+0307 (bytes 204 135).  The lower
    case of any other character is a non-ASCII character again; its
    bytes are left as they are, which no test against an ASCII string
    can tell apart. *)
Fixpoint toLowerCase (s : string) : string :=
  match s with
  | EmptyString => EmptyString
  | String c s' =>
      match c, s' with
      | "226"%char, String "132"%char (String "170"%char rest) =>
          String "k"%char (toLowerCase rest)
      | "196"%char, String "176"%char rest =>
          String "i"%char (String "204"%char (String "135"%char (toLowerCase rest)))
      | _, _ => String (lowerChar c) (toLowerCase s')
      end
  end.

(** [s.includes(t)]: [t] occurs in [s] at some position. *)
Fixpoint includes (s t : string) : bool :=
  String.prefix t s ||
  match s with
  | EmptyString => false
  | String _ s' => includes s' t
  end.

(** ** Numbers *)

(** The integer nearest to [x], the even one of the two on a tie. *)
Definition roundHalfEven (x : Q) : Z :=
  let f := Qfloor x in
  match (x - inject_Z f ?= 1 # 2)%Q with
  | Lt => f
  | Gt => (f + 1)%Z
  | Eq => if Z.even f then f else (f + 1)%Z
  end.

(** The exponent [e] of the binary64 grid around a positive [x]: the
    one with [2^52 <= x / 2^e < 2^53].  With [k] the difference of the
    bit lengths of numerator and denominator, [x] lies between
    [2^(k-1)] and [2^(k+1)]. *)
Definition exponentOf (x : Q) : Z :=
  let k := (Z.log2 (Qnum x) - Z.log2 (Zpos (Qden x)))%Z in
  if Qle_bool (2 ^ k)%Q x then (k - 52)%Z else (k - 53)%Z.

Definition roundPositive (x : Q) : Q :=
  let e := exponentOf x in
  (inject_Z (roundHalfEven (x / 2 ^ e)) * 2 ^ e)%Q.

(** The double nearest to [x]: round to nearest, ties to the even
    significand of 53 bits.  The fraction is kept in lowest terms. *)
Definition roundDouble (x : Q) : Q :=
  let x := Qred x in
  Qred match (x ?= 0)%Q with
       | Eq => 0%Q
       | Gt => roundPositive x
       | Lt => (- roundPositive (- x))%Q
       end.

(** [x / y], [x * y], [x + y] and [x - y] on doubles. *)
Definition double_div (x y : Q) : Q := roundDouble (x / y).
Definition double_mul (x y : Q) : Q := roundDouble (x * y).
Definition double_add (x y : Q) : Q := roundDouble (x + y).
Definition double_sub (x y : Q) : Q := roundDouble (x - y).

(** ** getErrorType *)

Inductive ErrorType :=
| network | permission | not_found | timeout | conflict | default_type.

(** The string the source returns for each category. *)
Definition typeName (t : ErrorType) : string :=
  match t with
  | network => "network"
  | permission => "permission"
  | not_found => "not_found"
  | timeout => "timeout"
  | conflict => "conflict"
  | default_type => "default"
  end.

(** [error?.message?.toLowerCase() || ''] *)
Definition loweredMessage (error : JsError) : string :=
  match error with
  | ErrorObj (Some m) => toLowerCase m
  | _ => EmptyString
  end.

Definition getErrorType (error : JsError) : ErrorType :=
  let message := loweredMessage error in
  if includes message "network" || includes message "fetch"
     || includes message "connection" then network
  else if includes message "permission" || includes message "unauthorized"
     || includes message "forbidden" then permission
  else if includes message "not found" || includes message "404" then not_found
  else if includes message "timeout" then timeout
  else if includes message "conflict" || includes message "409" then conflict
  else default_type.

(** The classification as the specification words it: a priority list
    of token groups, the first group with a token in the lowered
    message wins, [default] otherwise. *)
Definition classifierTable : list (list string * ErrorType) :=
  [ (["network"; "fetch"; "connection"], network);
    (["permission"; "unauthorized"; "forbidden"], permission);
    (["not found"; "404"], not_found);
    (["timeout"], timeout);
    (["conflict"; "409"], conflict) ].

Definition matchesGroup (message : string) (tokens : list string) : bool :=
  existsb (includes message) tokens.

Fixpoint firstMatch (message : string) (table : list (list string * ErrorType))
  : ErrorType :=
  match table with
  | [] => default_type
  | (tokens, t) :: rest =>
      if matchesGroup message tokens then t else firstMatch message rest
  end.

(** *** getErrorType on anything that can be thrown

    [getErrorType] above is the function on the values its
    [@param {Error}] admits.  JavaScript lets any value be thrown, and
    a promise be rejected with any value; [message] may then hold
    anything. *)

(** A thrown value, as far as [error?.message] reads it: [null],
    [undefined], or a value whose [message] property holds [message]
    ([VUndefined] when the property is missing). *)
Inductive JsThrown :=
| TNull
| TUndefined
| TObject (message : JsValue).

Inductive TypeError := NotAFunction (callee : string).

(** How an evaluation completes: with a value or by throwing. *)
Inductive Completion (A E : Type) :=
| Returns (a : A)
| Throws (e : E).
Arguments Returns {A E} a.
Arguments Throws {A E} e.



Module AnyThrown.

(** [error?.message?.toLowerCase() || '']: [?.] stops at [null] and
    [undefined] only.  A string has the method; a boolean or a number
    has no [toLowerCase] property, and calling [undefined] throws a
    TypeError. *)
Definition loweredMessage (error : JsThrown) : Completion string TypeError :=
  match error with
  | TNull | TUndefined => Returns EmptyString
  | TObject VUndefined | TObject VNull => Returns EmptyString
  | TObject (VStr m) => Returns (toLowerCase m)
  | TObject (VBool _) | TObject (VNum _) =>
      Throws (NotAFunction "error.message.toLowerCase")
  end.

Definition getErrorType (error : JsThrown) : Completion ErrorType TypeError :=
  match loweredMessage error with
  | Throws e => Throws e
  | Returns message =>
      Returns
        (if includes message "network" || includes message "fetch"
            || includes message "connection" then network
         else if includes message "permission" || includes message "unauthorized"
            || includes message "forbidden" then permission
         else if includes message "not found" || includes message "404" then not_found
         else if includes message "timeout" then timeout
         else if includes message "conflict" || includes message "409" then conflict
         else default_type)
  end.

End AnyThrown.

(** ** handleDeleteError *)

Inductive Action := retry | reauth | refresh | none.
Inductive Severity := info | warning | error.

Record ErrorInfo := {
  message : string;
  action : Action;
  severity : Severity;
  retryable : bool
}.

Definition errorMappings (projectTitle : string) (t : ErrorType) : ErrorInfo :=
  match t with
  | network =>
      {| message := "ネットワークエラーが発生しました。インターネット接続を確認して再度お試しください。";
         action := retry; severity := warning; retryable := true |}
  | permission =>
      {| message := "削除権限がありません。再ログインしてから再度お試しください。";
         action := reauth; severity := error; retryable := false |}
  | not_found =>
      {| message := "プロジェクトが見つかりません。ページを更新してください。";
         action := refresh; severity := info; retryable := false |}
  | timeout =>
      {| message := "タイムアウトが発生しました。しばらく待ってから再度お試しください。";
         action := retry; severity := warning; retryable := true |}
  | conflict =>
      {| message := "データが他のユーザーによって変更されています。ページを更新してください。";
         action := refresh; severity := warning; retryable := false |}
  | default_type =>
      {| message := "プロジェクト「" +:+ projectTitle +:+ "」の削除に失敗しました。";
         action := none; severity := error; retryable := true |}
  end.

Definition handleDeleteError (error : JsError) (projectTitle : string) : ErrorInfo :=
  errorMappings projectTitle (getErrorType error).

(** ** Projects and the transformations handed to the caller *)

(** An entity snapshot.  [obj_ref] is the identity of the JavaScript
    object; [created_at] is the time value of [new Date(p.created_at)],
    [None] when that is an Invalid Date (the field is missing or does
    not parse). *)
Record Project := {
  obj_ref : nat;
  project_id : string;
  project_title : string;
  created_at : option Z
}.

(** [new Date(b.created_at) - new Date(a.created_at)]; [None] is NaN. *)
Definition compareCreatedAt (a b : Project) : option Z :=
  match created_at b, created_at a with
  | Some tb, Some ta => Some (tb - ta)%Z
  | _, _ => None
  end.

(** [a] must move behind [b]: the comparator is positive (NaN counts as 0). *)
Definition sortsAfter (a b : Project) : bool :=
  match compareCreatedAt a b with
  | Some d => (0 <? d)%Z
  | None => false
  end.

Fixpoint insertSorted (x : Project) (l : list Project) : list Project :=
  match l with
  | [] => [x]
  | y :: l' => if sortsAfter x y then y :: insertSorted x l' else x :: l
  end.

(** [Array.prototype.sort] with the comparator above: a stable sort,
    newest first. *)
Definition sortByCreatedAt (l : list Project) : list Project :=
  foldr insertSorted [] l.

(** The two closures the manager passes to the caller's callback. *)
Inductive Updater :=
| RemoveProject (projectId : string)
| RestoreProject (projectId : string) (projectData : Project).

Definition hasId (projectId : string) (p : Project) : bool :=
  String.eqb (project_id p) projectId.

(** What the closure computes from [prevProjects]. *)
Definition applyUpdater (u : Updater) (prevProjects : list Project) : list Project :=
  match u with
  | RemoveProject projectId =>
      List.filter (fun project => negb (hasId projectId project)) prevProjects
  | RestoreProject projectId projectData =>
      let exists_ := existsb (hasId projectId) prevProjects in
      if negb exists_ then sortByCreatedAt (prevProjects ++ [projectData])
      else prevProjects
  end.

(** A caller-supplied state-update function, known by its identity. *)
Definition Callback := nat.

(** ** Observable events *)

Inductive Warning :=
| WarnRetry (attemptNo maxRetries : nat) (delay : Z) (e : JsError)
| WarnLeak (type : string) (count : Z).

Record EventTarget := { target_ref : nat; constructorName : string }.
Record Listener := { listener_ref : nat; listenerName : string }.
Definition ListenerOptions := list (string * JsValue).

(** [StateUpdate cb u]: the caller's callback [cb] is called with the
    closure [u]; [DeleteCall]: the delete operation is invoked;
    [Sleep]: the awaited back-off timer; [PerfStart]/[PerfEnd]:
    [performanceMonitor.startOperation]/[endOperation], whose
    bookkeeping does not feed back into the delete flow;
    [OnSuccess]/[OnError]: the hook's callbacks; [TargetAdd]/
    [TargetRemove]: the DOM calls of the listener registry. *)
Inductive Event :=
| StateUpdate (callback : Callback) (updater : Updater)
| DeleteCall (projectId : string)
| Sleep (ms : Z)
| ConsoleWarn (w : Warning)
| ConsoleError (e : JsError)
| PerfStart (operationName : string)
| PerfEnd (operationName : string)
| OnSuccess (projectId : string) (projectData : option Project)
| OnError (projectId : string) (e : JsError) (errorInfo : ErrorInfo)
| TargetAdd (target : EventTarget) (type : string) (listener : Listener)
    (options : ListenerOptions)
| TargetRemove (target : EventTarget) (type : string) (listener : Listener).

Definition isStateUpdate (e : Event) : bool :=
  match e with StateUpdate _ _ => true | _ => false end.

Definition isRemoval (e : Event) : bool :=
  match e with StateUpdate _ (RemoveProject _) => true | _ => false end.

Definition isRestore (e : Event) : bool :=
  match e with StateUpdate _ (RestoreProject _ _) => true | _ => false end.

Definition isDeleteCall (e : Event) : bool :=
  match e with DeleteCall _ => true | _ => false end.

Definition isOnSuccess (e : Event) : bool :=
  match e with OnSuccess _ _ => true | _ => false end.

Definition isLeakWarning (e : Event) : bool :=
  match e with ConsoleWarn (WarnLeak _ _) => true | _ => false end.

Definition count (p : Event -> bool) (log : list Event) : nat :=
  length (List.filter p log).

(** ** OptimisticDeleteManager *)

Record OptimisticDeleteManager := {
  deletedProjects : gmap string Project;
  rollbackCallbacks : gmap string Callback
}.

Definition newOptimisticDeleteManager : OptimisticDeleteManager :=
  {| deletedProjects := ∅; rollbackCallbacks := ∅ |}.

Definition optimisticDelete (projectId : string) (projectData : Project)
    (updateStateCallback : Callback) (this : OptimisticDeleteManager)
  : OptimisticDeleteManager * list Event :=
  ({| deletedProjects := <[projectId := projectData]> (deletedProjects this);
      rollbackCallbacks := <[projectId := updateStateCallback]> (rollbackCallbacks this) |},
   [StateUpdate updateStateCallback (RemoveProject projectId)]).

Definition confirmDelete (projectId : string) (this : OptimisticDeleteManager)
  : OptimisticDeleteManager :=
  {| deletedProjects := delete projectId (deletedProjects this);
     rollbackCallbacks := delete projectId (rollbackCallbacks this) |}.

Definition rollbackDelete (projectId : string) (this : OptimisticDeleteManager)
  : OptimisticDeleteManager * list Event :=
  match deletedProjects this !! projectId, rollbackCallbacks this !! projectId with
  | Some projectData, Some rollbackCallback =>
      ({| deletedProjects := delete projectId (deletedProjects this);
          rollbackCallbacks := delete projectId (rollbackCallbacks this) |},
       [StateUpdate rollbackCallback (RestoreProject projectId projectData)])
  | _, _ => (this, [])
  end.

Definition clearAll (this : OptimisticDeleteManager) : OptimisticDeleteManager :=
  {| deletedProjects := ∅; rollbackCallbacks := ∅ |}.

(** The operations of the manager, and the states they can produce
    from a fresh one. *)
Inductive ManagerOp :=
| OpOptimisticDelete (projectId : string) (projectData : Project) (cb : Callback)
| OpConfirmDelete (projectId : string)
| OpRollbackDelete (projectId : string)
| OpClearAll.

Definition runManagerOp (op : ManagerOp) (this : OptimisticDeleteManager)
  : OptimisticDeleteManager * list Event :=
  match op with
  | OpOptimisticDelete projectId projectData cb =>
      optimisticDelete projectId projectData cb this
  | OpConfirmDelete projectId => (confirmDelete projectId this, [])
  | OpRollbackDelete projectId => rollbackDelete projectId this
  | OpClearAll => (clearAll this, [])
  end.

Inductive reachable : OptimisticDeleteManager -> Prop :=
| reachable_new : reachable newOptimisticDeleteManager
| reachable_step op this :
    reachable this -> reachable (fst (runManagerOp op this)).

(** An id is pending when the manager holds a snapshot for it. *)
Definition pending (projectId : string) (this : OptimisticDeleteManager) : Prop :=
  is_Some (deletedProjects this !! projectId).

(** ** DeleteRetryManager *)

Inductive Settled :=
| Resolved (result : JsValue)
| Rejected (e : JsError).

(** The caller's asynchronous delete operation: it acts on a world [W]
    of its own (a backend, a mock's call counter) and settles. *)
Definition DeleteFunction (W : Type) := string -> W -> Settled * W.

Record DeleteRetryManager := {
  maxRetries : nat;
  baseDelay : Z
}.

(** [new DeleteRetryManager(maxRetries = 3, baseDelay = 1000)] *)
Definition newDeleteRetryManager (maxRetries : option nat) (baseDelay : option Z)
  : DeleteRetryManager :=
  {| maxRetries := default 3 maxRetries; baseDelay := default 1000%Z baseDelay |}.

(** One run of [retryDelete], with a bound on the depth of the
    recursion; [None] when the bound is hit. *)
Fixpoint retryDeleteWithin {W : Type} (depth : nat) (this : DeleteRetryManager)
    (deleteFunction : DeleteFunction W) (projectId : string) (attempt : nat) (w : W)
  : option (Settled * W * list Event) :=
  match depth with
  | O => None
  | S depth' =>
      match deleteFunction projectId w with
      | (Resolved result, w') => Some (Resolved result, w', [DeleteCall projectId])
      | (Rejected e, w') =>
          let errorInfo := handleDeleteError e EmptyString in
          if retryable errorInfo && (attempt <? maxRetries this)%nat then
            let delay := (baseDelay this * 2 ^ Z.of_nat attempt)%Z in
            match retryDeleteWithin depth' this deleteFunction projectId (attempt + 1) w' with
            | Some (r, w'', log) =>
                Some (r, w'',
                      DeleteCall projectId
                      :: ConsoleWarn (WarnRetry (attempt + 1) (maxRetries this) delay e)
                      :: Sleep delay :: log)
            | None => None
            end
          else Some (Rejected e, w', [DeleteCall projectId])
      end
  end.

(** The recursion is at most [maxRetries - attempt] deep below the
    first call, so this bound is never hit (see [retryDelete_total]). *)
Definition retryDelete {W : Type} (this : DeleteRetryManager)
    (deleteFunction : DeleteFunction W) (projectId : string) (attempt : nat) (w : W)
  : option (Settled * W * list Event) :=
  retryDeleteWithin (S (maxRetries this - attempt)) this deleteFunction projectId attempt w.

(** ** DeleteStatsManager *)

(** [Array.prototype.slice(start)] *)
Definition slice {A : Type} (start : Z) (l : list A) : list A :=
  let len := Z.of_nat (length l) in
  let k := if (start <? 0)%Z then Z.max (len + start) 0 else Z.min start len in
  drop (Z.to_nat k) l.

(** [times.reduce((sum, time) => sum + time, 0) / times.length], as an
    exact rational. *)
Definition averageOf (times : list Z) : Q :=
  (inject_Z (fold_left (fun sum time => sum + time)%Z times 0%Z)
   / inject_Z (Z.of_nat (length times)))%Q.

(** [x.toFixed(1)], which works on the exact value of the double [x]:
    the integer [n] nearest to [10 * x] (the larger one on a tie),
    printed with one decimal. *)
Definition toFixed1 (x : Q) : string :=
  let n := Qfloor (Qabs x * 10 + (1 # 2))%Q in
  (if (Qnum x <? 0)%Z then "-" else EmptyString)
  +:+ pretty (n / 10)%Z +:+ "." +:+ pretty (n mod 10)%Z.

Record Stats := {
  totalDeletes : nat;
  successfulDeletes : nat;
  failedDeletes : nat;
  errorTypes : gmap string nat;
  averageResponseTime : Q;
  responseTimes : list Z
}.

(** [new DeleteStatsManager()]; [resetStats] assigns the same literal. *)
Definition newStats : Stats :=
  {| totalDeletes := 0; successfulDeletes := 0; failedDeletes := 0;
     errorTypes := ∅; averageResponseTime := 0%Q; responseTimes := [] |}.

(** [startDelete()] returns the clock reading [now]. *)
Definition startDelete (now : Z) : Z := now.

Definition recordSuccess (now startTime : Z) (stats : Stats) : Stats :=
  let responseTime := (now - startTime)%Z in
  let responseTimes' := responseTimes stats ++ [responseTime] in
  let recentTimes := slice (-100) responseTimes' in
  {| totalDeletes := totalDeletes stats + 1;
     successfulDeletes := successfulDeletes stats + 1;
     failedDeletes := failedDeletes stats;
     errorTypes := errorTypes stats;
     averageResponseTime := averageOf recentTimes;
     responseTimes := responseTimes' |}.

Definition recordFailure (now startTime : Z) (e : JsError) (stats : Stats) : Stats :=
  let responseTime := (now - startTime)%Z in
  let errorType := typeName (getErrorType e) in
  let responseTimes' := responseTimes stats ++ [responseTime] in
  let recentTimes := slice (-100) responseTimes' in
  {| totalDeletes := totalDeletes stats + 1;
     successfulDeletes := successfulDeletes stats;
     failedDeletes := failedDeletes stats + 1;
     errorTypes :=
       <[errorType := default 0 (errorTypes stats !! errorType) + 1]> (errorTypes stats);
     averageResponseTime := averageOf recentTimes;
     responseTimes := responseTimes' |}.

(** [successRate] is a string or the number [0]. *)
Inductive SuccessRate :=
| RateString (s : string)
| RateNumber (z : Z).

(** [{ ...this.stats, successRate }] *)
Record StatsReport := {
  reported : Stats;
  successRate : SuccessRate
}.

Definition getStats (stats : Stats) : StatsReport :=
  {| reported := stats;
     successRate :=
       if (0 <? totalDeletes stats)%nat
       then RateString
              (toFixed1
                 (double_mul
                    (double_div (inject_Z (Z.of_nat (successfulDeletes stats)))
                                (inject_Z (Z.of_nat (totalDeletes stats))))
                    100))
       else RateNumber 0 |}.

Definition resetStats (stats : Stats) : Stats := newStats.

(** A recorded outcome, with the two clock readings it involves. *)
Inductive Sample :=
| Success (now startTime : Z)
| Failure (now startTime : Z) (e : JsError).

Definition record (s : Sample) (stats : Stats) : Stats :=
  match s with
  | Success now startTime => recordSuccess now startTime stats
  | Failure now startTime e => recordFailure now startTime e stats
  end.

(** The manager after a sequence of recordings, oldest first. *)
Definition recordAll (samples : list Sample) (stats : Stats) : Stats :=
  fold_left (fun st s => record s st) samples stats.

Definition latency (s : Sample) : Z :=
  match s with
  | Success now startTime | Failure now startTime _ => (now - startTime)%Z
  end.

Definition isSuccess (s : Sample) : bool :=
  match s with Success _ _ => true | Failure _ _ _ => false end.

Definition failuresOf (t : ErrorType) (samples : list Sample) : nat :=
  length (List.filter
            (fun s => match s with
                      | Failure _ _ e => String.eqb (typeName (getErrorType e)) (typeName t)
                      | Success _ _ => false
                      end) samples).

(** The specification's words: the arithmetic mean of the most recent
    at most [n] samples. *)
Definition mostRecent {A : Type} (n : nat) (l : list A) : list A :=
  drop (length l - n) l.

Definition arithmeticMean (samples : list Z) : Q :=
  (inject_Z (foldr Z.add 0%Z samples) / inject_Z (Z.of_nat (length samples)))%Q.

(** A decimal numeral with exactly one digit after the point. *)
Definition oneDecimal (s : string) : Prop :=
  exists (whole : Z) (digit : Z),
    (0 <= whole)%Z /\ (0 <= digit < 10)%Z /\
    s = pretty whole +:+ "." +:+ pretty digit.

(** [s] is the numeral with one decimal nearest to [x]: it denotes
    [n / 10] with [x] at most a twentieth away, the larger [n] when [x]
    is halfway between two. *)
Definition nearestTenth (s : string) (x : Q) : Prop :=
  exists n : Z,
    (0 <= n)%Z /\
    s = pretty (n / 10)%Z +:+ "." +:+ pretty (n mod 10)%Z /\
    (inject_Z n / 10 - (1 # 20) <= x)%Q /\ (x < inject_Z n / 10 + (1 # 20))%Q.

(** [s] is the numeral with two decimals nearest to a non-negative
    [x]: it denotes [n / 100] with [x] at most a two-hundredth away,
    the larger [n] when [x] is halfway between two. *)
Definition nearestHundredth (s : string) (x : Q) : Prop :=
  exists n : Z,
    (0 <= n)%Z /\
    s = pretty (n / 100)%Z +:+ "." +:+ pretty (n / 10 mod 10)%Z +:+ pretty (n mod 10)%Z /\
    (inject_Z n / 100 - (1 # 200) <= x)%Q /\ (x < inject_Z n / 100 + (1 # 200))%Q.

(** The success rate in exact arithmetic. *)
Definition exactPercentage (stats : Stats) : Q :=
  (inject_Z (Z.of_nat (successfulDeletes stats))
   / inject_Z (Z.of_nat (totalDeletes stats)) * 100)%Q.

(** ** MemoryLeakDetector *)

(** A [Map] whose iteration order matters: entries in insertion order;
    [set] on a present key keeps its position. *)
Fixpoint mapGet {V : Type} (k : string) (m : list (string * V)) : option V :=
  match m with
  | [] => None
  | (k', v) :: m' => if String.eqb k' k then Some v else mapGet k m'
  end.

Fixpoint mapSet {V : Type} (k : string) (v : V) (m : list (string * V))
  : list (string * V) :=
  match m with
  | [] => [(k, v)]
  | (k', v') :: m' =>
      if String.eqb k' k then (k, v) :: m' else (k', v') :: mapSet k v m'
  end.

Record TrackedReference := { ref_type : string; createdAt : Z }.

(** Handles returned by [setInterval]; they are positive, hence truthy. *)
Definition TimerHandle := positive.

Record MemoryLeakDetector := {
  references : gmap nat TrackedReference;
  counters : list (string * Z);
  checkInterval : option TimerHandle
}.

Definition newMemoryLeakDetector : MemoryLeakDetector :=
  {| references := ∅; counters := []; checkInterval := None |}.

(** [this.counters.get(type) || 0] *)
Definition counterOf (type : string) (this : MemoryLeakDetector) : Z :=
  default 0%Z (mapGet type (counters this)).

Definition trackObject (now : Z) (obj : nat) (type : string)
    (this : MemoryLeakDetector) : MemoryLeakDetector :=
  let currentCount := counterOf type this in
  {| references := <[obj := {| ref_type := type; createdAt := now |}]> (references this);
     counters := mapSet type (currentCount + 1)%Z (counters this);
     checkInterval := checkInterval this |}.

Definition untrackObject (obj : nat) (this : MemoryLeakDetector) : MemoryLeakDetector :=
  match references this !! obj with
  | Some ref =>
      let currentCount := counterOf (ref_type ref) this in
      {| references := delete obj (references this);
         counters := mapSet (ref_type ref) (Z.max 0 (currentCount - 1)) (counters this);
         checkInterval := checkInterval this |}
  | None => this
  end.

Definition checkForLeaks (this : MemoryLeakDetector) : list Event :=
  flat_map (fun '(type, count) =>
              if (100 <? count)%Z then [ConsoleWarn (WarnLeak type count)] else [])
           (counters this).

(** The timers of the host: the handle the next [setInterval] returns
    and the periodic timers that are running, with their intervals. *)
Record Timers := {
  nextHandle : TimerHandle;
  activeTimers : list (TimerHandle * Z)
}.

Definition noTimers : Timers := {| nextHandle := 1%positive; activeTimers := [] |}.

Definition setInterval (interval : Z) (env : Timers) : TimerHandle * Timers :=
  (nextHandle env,
   {| nextHandle := Pos.succ (nextHandle env);
      activeTimers := activeTimers env ++ [(nextHandle env, interval)] |}).

Definition clearInterval (h : TimerHandle) (env : Timers) : Timers :=
  {| nextHandle := nextHandle env;
     activeTimers := List.filter (fun t => negb (Pos.eqb (fst t) h)) (activeTimers env) |}.

(** [startLeakDetection(interval = 30000)] *)
Definition startLeakDetection (interval : option Z)
    (st : MemoryLeakDetector * Timers) : MemoryLeakDetector * Timers :=
  let '(this, env) := st in
  let '(h, env') := setInterval (default 30000%Z interval) env in
  ({| references := references this; counters := counters this;
      checkInterval := Some h |}, env').

Definition stopLeakDetection (st : MemoryLeakDetector * Timers)
  : MemoryLeakDetector * Timers :=
  let '(this, env) := st in
  match checkInterval this with
  | Some h =>
      ({| references := references this; counters := counters this;
          checkInterval := None |}, clearInterval h env)
  | None => st
  end.

(** The detector's counters never go negative. *)
Definition countersNonNegative (this : MemoryLeakDetector) : Prop :=
  Forall (fun kv => (0 <= snd kv)%Z) (counters this).

(** Tracking the objects of a list, in order, under one tag. *)
Definition trackAll (now : Z) (objs : list nat) (type : string)
    (this : MemoryLeakDetector) : MemoryLeakDetector :=
  fold_left (fun d obj => trackObject now obj type d) objs this.

(** ** EventListenerManager *)

Record ListenerInfo := {
  li_target : EventTarget;
  li_type : string;
  li_listener : Listener;
  li_options : ListenerOptions
}.

Record EventListenerManager := {
  listeners : gmap string ListenerInfo
}.

Definition newEventListenerManager : EventListenerManager := {| listeners := ∅ |}.

(** [listener.name || 'anonymous'] *)
Definition nameOrAnonymous (listener : Listener) : string :=
  if String.eqb (listenerName listener) EmptyString then "anonymous"
  else listenerName listener.

Definition getListenerKey (target : EventTarget) (type : string) (listener : Listener)
  : string :=
  constructorName target +:+ "-" +:+ type +:+ "-" +:+ nameOrAnonymous listener.

(** [addEventListener(target, type, listener, options = {})] *)
Definition addEventListener (target : EventTarget) (type : string)
    (listener : Listener) (options : ListenerOptions) (this : EventListenerManager)
  : EventListenerManager * list Event :=
  let key := getListenerKey target type listener in
  match listeners this !! key with
  | None =>
      ({| listeners :=
            <[key := {| li_target := target; li_type := type;
                        li_listener := listener; li_options := options |}]>
              (listeners this) |},
       [TargetAdd target type listener options])
  | Some _ => (this, [])
  end.

Definition removeEventListener (target : EventTarget) (type : string)
    (listener : Listener) (this : EventListenerManager)
  : EventListenerManager * list Event :=
  let key := getListenerKey target type listener in
  match listeners this !! key with
  | Some listenerInfo =>
      ({| listeners := delete key (listeners this) |},
       [TargetRemove target type listener])
  | None => (this, [])
  end.

Definition getListenerCount (this : EventListenerManager) : nat :=
  size (listeners this).

(** ** useEnhancedDelete *)

(** A state slot that may hold [null]. *)
Inductive Nullable (A : Type) :=
| Null
| NonNull (a : A).
Arguments Null {A}.
Arguments NonNull {A} a.

(** The options object of the hook.  The two callbacks are known by
    whether they were supplied; their calls are logged. *)
Record HookOptions (W : Type) := {
  deleteFunction : DeleteFunction W;
  onSuccess : bool;
  onError : bool;
  enableOptimisticUpdates : bool;
  enableRetry : bool;
  hookMaxRetries : option nat
}.
Arguments deleteFunction {W}.
Arguments onSuccess {W}.
Arguments onError {W}.
Arguments enableOptimisticUpdates {W}.
Arguments enableRetry {W}.
Arguments hookMaxRetries {W}.

(** The React state and refs of one hook instance, together with the
    module-level [memoryLeakDetector] it reports to. *)
Record HookState := {
  deletingStates : gmap string bool;
  deleteErrors : gmap string (Nullable ErrorInfo);
  optimisticManager : OptimisticDeleteManager;
  retryManager : DeleteRetryManager;
  statsManager : Stats;
  memoryLeakDetector : MemoryLeakDetector
}.

(** The first render: [useState({})], [useRef(new ...)]. *)
Definition useEnhancedDelete {W : Type} (options : HookOptions W)
    (leakDetector : MemoryLeakDetector) : HookState :=
  {| deletingStates := ∅;
     deleteErrors := ∅;
     optimisticManager := newOptimisticDeleteManager;
     retryManager := newDeleteRetryManager (hookMaxRetries options) None;
     statsManager := newStats;
     memoryLeakDetector := leakDetector |}.

(** The three [Date.now()] readings of one [executeDelete]. *)
Record Clock := {
  trackedAt : Z;
  startedAt : Z;
  finishedAt : Z
}.

(** [Boolean(deletingStates[projectId])] *)
Definition isDeleting (projectId : string) (h : HookState) : bool :=
  default false (deletingStates h !! projectId).

(** [deleteErrors[projectId]]; [None] is [undefined]. *)
Definition getDeleteError (projectId : string) (h : HookState)
  : option (Nullable ErrorInfo) :=
  deleteErrors h !! projectId.

Definition clearDeleteError (projectId : string) (h : HookState) : HookState :=
  {| deletingStates := deletingStates h;
     deleteErrors := <[projectId := Null]> (deleteErrors h);
     optimisticManager := optimisticManager h;
     retryManager := retryManager h;
     statsManager := statsManager h;
     memoryLeakDetector := memoryLeakDetector h |}.

Definition untrackSnapshot (projectData : option Project) (d : MemoryLeakDetector)
  : MemoryLeakDetector :=
  match projectData with
  | Some data => untrackObject (obj_ref data) d
  | None => d
  end.

(** [projectData?.title || ''] *)
Definition titleOf (projectData : option Project) : string :=
  match projectData with
  | Some data => project_title data
  | None => EmptyString
  end.

Definition executeDelete {W : Type} (options : HookOptions W)
    (projectId : string) (projectData : option Project)
    (updateStateCallback : option Callback) (clock : Clock)
    (h : HookState) (w : W)
  : option (bool * HookState * W * list Event) :=
  let operationId := "delete-project-" +:+ projectId in
  let log0 := [PerfStart operationId] in
  let detector1 :=
    match projectData with
    | Some data =>
        trackObject (trackedAt clock) (obj_ref data) "DeleteProjectData"
          (memoryLeakDetector h)
    | None => memoryLeakDetector h
    end in
  let deleting1 := <[projectId := true]> (deletingStates h) in
  let errors1 := <[projectId := Null]> (deleteErrors h) in
  let startTime := startDelete (startedAt clock) in
  let '(optimistic1, log1) :=
    match enableOptimisticUpdates options, projectData, updateStateCallback with
    | true, Some data, Some callback =>
        optimisticDelete projectId data callback (optimisticManager h)
    | _, _, _ => (optimisticManager h, [])
    end in
  let attempt :=
    if enableRetry options
    then retryDelete (retryManager h) (deleteFunction options) projectId 0 w
    else let '(r, w') := deleteFunction options projectId w in
         Some (r, w', [DeleteCall projectId]) in
  match attempt with
  | None => None
  | Some (settled, w', log2) =>
      (* the [catch] block; [finally] clears the deleting mark *)
      let failed (e : JsError) :=
        let '(optimistic2, log3) :=
          if enableOptimisticUpdates options
          then rollbackDelete projectId optimistic1
          else (optimistic1, []) in
        let errorInfo := handleDeleteError e (titleOf projectData) in
        Some (false,
              {| deletingStates := <[projectId := false]> deleting1;
                 deleteErrors := <[projectId := NonNull errorInfo]> errors1;
                 optimisticManager := optimistic2;
                 retryManager := retryManager h;
                 statsManager := recordFailure (finishedAt clock) startTime e (statsManager h);
                 memoryLeakDetector := untrackSnapshot projectData detector1 |},
              w',
              log0 ++ log1 ++ log2 ++ [ConsoleError e] ++ log3 ++ [PerfEnd operationId]
              ++ (if onError options then [OnError projectId e errorInfo] else [])) in
      match settled with
      | Resolved result =>
          if truthy result then
            Some (true,
                  {| deletingStates := <[projectId := false]> deleting1;
                     deleteErrors := errors1;
                     optimisticManager := confirmDelete projectId optimistic1;
                     retryManager := retryManager h;
                     statsManager := recordSuccess (finishedAt clock) startTime (statsManager h);
                     memoryLeakDetector := untrackSnapshot projectData detector1 |},
                  w',
                  log0 ++ log1 ++ log2 ++ [PerfEnd operationId]
                  ++ (if onSuccess options then [OnSuccess projectId projectData] else []))
          else failed (Error "削除処理が失敗しました")
      | Rejected e => failed e
      end
  end.

(** *** executeDelete when the caller's functions may throw

    [executeDelete] above is the run in which the state-update
    callback, [onSuccess] and [onError] return.  The removal and
    [onSuccess] are called inside the [try] block, so what they throw
    lands in the [catch] block; the reinsertion and [onError] are
    called inside the [catch] block, so what they throw leaves
    [executeDelete], after the [finally] block. *)

(** What the caller's functions do when called: [None] returns,
    [Some e] throws [e]. *)
Record CallbackBehaviour := {
  updateThrows : Callback -> Updater -> option JsError;
  onSuccessThrows : option JsError;
  onErrorThrows : option JsError
}.

Module AnyCallbacks.

(** [optimisticDelete]: both maps are set before the callback is
    called. *)
Definition optimisticDelete (behaviour : CallbackBehaviour) (projectId : string)
    (projectData : Project) (updateStateCallback : Callback)
    (this : OptimisticDeleteManager)
  : OptimisticDeleteManager * list Event * option JsError :=
  ({| deletedProjects := <[projectId := projectData]> (deletedProjects this);
      rollbackCallbacks := <[projectId := updateStateCallback]> (rollbackCallbacks this) |},
   [StateUpdate updateStateCallback (RemoveProject projectId)],
   updateThrows behaviour updateStateCallback (RemoveProject projectId)).

(** [rollbackDelete]: the clean-up follows the call of the callback,
    so it is skipped when the callback throws. *)
Definition rollbackDelete (behaviour : CallbackBehaviour) (projectId : string)
    (this : OptimisticDeleteManager)
  : OptimisticDeleteManager * list Event * option JsError :=
  match deletedProjects this !! projectId, rollbackCallbacks this !! projectId with
  | Some projectData, Some rollbackCallback =>
      let updater := RestoreProject projectId projectData in
      match updateThrows behaviour rollbackCallback updater with
      | Some e => (this, [StateUpdate rollbackCallback updater], Some e)
      | None =>
          ({| deletedProjects := delete projectId (deletedProjects this);
              rollbackCallbacks := delete projectId (rollbackCallbacks this) |},
           [StateUpdate rollbackCallback updater], None)
      end
  | _, _ => (this, [], None)
  end.

(** The [catch] block, entered with the error [e] when the hook is in
    state [h]; [now] is the [Date.now()] reading of [recordFailure].
    What the reinsertion throws leaves the block at once; what
    [onError] throws leaves it after everything else is done. *)
Definition catchBlock {W : Type} (behaviour : CallbackBehaviour)
    (options : HookOptions W) (projectId : string) (projectData : option Project)
    (startTime now : Z) (e : JsError) (h : HookState)
  : Completion bool JsError * HookState * list Event :=
  let '(optimistic2, log3, thrown) :=
    if enableOptimisticUpdates options
    then rollbackDelete behaviour projectId (optimisticManager h)
    else (optimisticManager h, [], None) in
  match thrown with
  | Some e' =>
      (Throws e',
       {| deletingStates := deletingStates h;
          deleteErrors := deleteErrors h;
          optimisticManager := optimistic2;
          retryManager := retryManager h;
          statsManager := statsManager h;
          memoryLeakDetector := memoryLeakDetector h |},
       [ConsoleError e] ++ log3)
  | None =>
      let errorInfo := handleDeleteError e (titleOf projectData) in
      let h' :=
        {| deletingStates := deletingStates h;
           deleteErrors := <[projectId := NonNull errorInfo]> (deleteErrors h);
           optimisticManager := optimistic2;
           retryManager := retryManager h;
           statsManager := recordFailure now startTime e (statsManager h);
           memoryLeakDetector := untrackSnapshot projectData (memoryLeakDetector h) |} in
      let log := [ConsoleError e] ++ log3 ++ [PerfEnd ("delete-project-" +:+ projectId)] in
      if onError options then
        (match onErrorThrows behaviour with
         | Some e' => Throws e'
         | None => Returns false
         end,
         h', log ++ [OnError projectId e errorInfo])
      else (Returns false, h', log)
  end.

(** The [finally] block. *)
Definition finallyBlock (projectId : string) (h : HookState) : HookState :=
  {| deletingStates := <[projectId := false]> (deletingStates h);
     deleteErrors := deleteErrors h;
     optimisticManager := optimisticManager h;
     retryManager := retryManager h;
     statsManager := statsManager h;
     memoryLeakDetector := memoryLeakDetector h |}.

(** [caughtAt] is the [Date.now()] reading of [recordFailure] in a run
    whose [recordSuccess] has already read [finishedAt]. *)
Definition executeDelete {W : Type} (behaviour : CallbackBehaviour)
    (options : HookOptions W) (projectId : string) (projectData : option Project)
    (updateStateCallback : option Callback) (clock : Clock) (caughtAt : Z)
    (h : HookState) (w : W)
  : option (Completion bool JsError * HookState * W * list Event) :=
  let operationId := "delete-project-" +:+ projectId in
  let detector1 :=
    match projectData with
    | Some data =>
        trackObject (trackedAt clock) (obj_ref data) "DeleteProjectData"
          (memoryLeakDetector h)
    | None => memoryLeakDetector h
    end in
  let startTime := startDelete (startedAt clock) in
  let '(optimistic1, log1, thrown1) :=
    match enableOptimisticUpdates options, projectData, updateStateCallback with
    | true, Some data, Some callback =>
        optimisticDelete behaviour projectId data callback (optimisticManager h)
    | _, _, _ => (optimisticManager h, [], None)
    end in
  (* the hook while the delete operation runs *)
  let h1 :=
    {| deletingStates := <[projectId := true]> (deletingStates h);
       deleteErrors := <[projectId := Null]> (deleteErrors h);
       optimisticManager := optimistic1;
       retryManager := retryManager h;
       statsManager := statsManager h;
       memoryLeakDetector := detector1 |} in
  let caught (e : JsError) (now : Z) (hThen : HookState) (w' : W) (log : list Event) :=
    let '(result, h', log') :=
      catchBlock behaviour options projectId projectData startTime now e hThen in
    Some (result, finallyBlock projectId h', w', log ++ log') in
  match thrown1 with
  | Some e => caught e (finishedAt clock) h1 w ([PerfStart operationId] ++ log1)
  | None =>
      let attempt :=
        if enableRetry options
        then retryDelete (retryManager h) (deleteFunction options) projectId 0 w
        else let '(r, w') := deleteFunction options projectId w in
             Some (r, w', [DeleteCall projectId]) in
      match attempt with
      | None => None
      | Some (settled, w', log2) =>
          let log := [PerfStart operationId] ++ log1 ++ log2 in
          match settled with
          | Resolved result =>
              if truthy result then
                let h2 :=
                  {| deletingStates := deletingStates h1;
                     deleteErrors := deleteErrors h1;
                     optimisticManager := confirmDelete projectId optimistic1;
                     retryManager := retryManager h;
                     statsManager :=
                       recordSuccess (finishedAt clock) startTime (statsManager h);
                     memoryLeakDetector := untrackSnapshot projectData detector1 |} in
                let log := log ++ [PerfEnd operationId] in
                if onSuccess options then
                  match onSuccessThrows behaviour with
                  | Some e =>
                      caught e caughtAt h2 w' (log ++ [OnSuccess projectId projectData])
                  | None =>
                      Some (Returns true, finallyBlock projectId h2, w',
                            log ++ [OnSuccess projectId projectData])
                  end
                else Some (Returns true, finallyBlock projectId h2, w', log)
              else caught (Error "削除処理が失敗しました") (finishedAt clock) h1 w' log
          | Rejected e => caught e (finishedAt clock) h1 w' log
          end
      end
  end.

End AnyCallbacks.

(** ** The scripted delete operations used in the scenarios *)

(** A mock that settles its [n]-th call with the [n]-th entry of a
    script and with [fallback] once the script is used up; its world
    is the number of calls made so far. *)
Definition scripted (script : list Settled) (fallback : Settled) : DeleteFunction nat :=
  fun _ calls => (nth calls script fallback, S calls).

(** Rejects with [Error("network timeout")] three times, then resolves
    [true]. *)
Definition flakyDelete : DeleteFunction nat :=
  scripted (replicate 3 (Rejected (Error "network timeout"))) (Resolved (VBool true)).

Definition roofRepair : Project :=
  {| obj_ref := 1; project_id := "p1"; project_title := "Roof Repair";
     created_at := None |}.

Definition updateFn : Callback := 7.

Definition scenarioOptions : HookOptions nat :=
  {| deleteFunction := flakyDelete; onSuccess := true; onError := true;
     enableOptimisticUpdates := true; enableRetry := true; hookMaxRetries := None |}.

Definition scenarioClock : Clock :=
  {| trackedAt := 0; startedAt := 0; finishedAt := 7000 |}.

Definition scenarioRun : option (bool * HookState * nat * list Event) :=
  executeDelete scenarioOptions "p1" (Some roofRepair) (Some updateFn) scenarioClock
    (useEnhancedDelete scenarioOptions newMemoryLeakDetector) 0.

(** ** Vocabulary of the properties *)

(** [t] is a substring of [s]. *)
Definition occursIn (t s : string) : Prop :=
  exists a b, s = a +:+ t +:+ b.


(** [x] is a double: it has a significand of at most 53 bits. *)
Definition isDouble (x : Q) : Prop :=
  exists m e : Z, (Z.abs m <= 2 ^ 53)%Z /\ (x == inject_Z m * 2 ^ e)%Q.








(** The operation ends the pending state of [projectId]: a confirm or
    rollback of that id, or the teardown. *)
Definition releases (projectId : string) (op : ManagerOp) : bool :=
  match op with
  | OpOptimisticDelete _ _ _ => false
  | OpConfirmDelete p | OpRollbackDelete p => String.eqb p projectId
  | OpClearAll => true
  end.

(** The two maps of the manager have the same keys. *)
Definition keysInSync (this : OptimisticDeleteManager) : Prop :=
  dom (deletedProjects this) =@{gset string} dom (rollbackCallbacks this).

(** A history of 101 recordings: one slow delete followed by a hundred
    instantaneous ones. *)
Definition longRun : list Sample :=
  Success 101 0 :: replicate 100 (Success 0 0).

(** The error policy's verdict on an error, as [retryDelete] asks for it. *)
Definition isRetryable (e : JsError) : bool :=
  retryable (handleDeleteError e EmptyString).

(** The number of times the delete operation was invoked. *)
Definition invocations (log : list Event) : nat := count isDeleteCall log.

(** Every call of the operation resolves to a truthy value. *)
Definition alwaysResolvesTruthy {W : Type} (f : DeleteFunction W) (projectId : string)
  : Prop :=
  forall w, exists v, fst (f projectId w) = Resolved v /\ truthy v = true.

(** Every call of the operation rejects with an error of category [t]. *)
Definition alwaysRejectsAs {W : Type} (t : ErrorType) (f : DeleteFunction W)
    (projectId : string) : Prop :=
  forall w, exists e, fst (f projectId w) = Rejected e /\ getErrorType e = t.

(** The world after [n] calls of the operation. *)
Definition afterCalls {W : Type} (f : DeleteFunction W) (projectId : string)
    (n : nat) (w : W) : W :=
  Nat.iter n (fun w => snd (f projectId w)) w.

(** What the end-to-end scenario promises about a finished run;
    [expectedError] is what [getDeleteError("p1")] then returns. *)
Definition scenarioOutcome (expectedError : option (Nullable ErrorInfo))
    (run : option (bool * HookState * nat * list Event)) : Prop :=
  exists h w log,
    run = Some (true, h, w, log) /\
    (* the optimistic removal fires once, before the first call *)
    count isRemoval log = 1 /\
    (exists before after,
        log = before ++ StateUpdate updateFn (RemoveProject "p1") :: after /\
        invocations before = 0) /\
    (* no rollback *)
    count isRestore log = 0 /\
    invocations log = 4 /\
    isDeleting "p1" h = false /\
    getDeleteError "p1" h = expectedError /\
    count isOnSuccess log = 1 /\
    In (OnSuccess "p1" (Some roofRepair)) log.

(** ** Vocabulary of the further properties *)

(** The back-off waits of a log, in order. *)
Definition sleeps (log : list Event) : list Z :=
  flat_map (fun e => match e with Sleep ms => [ms] | _ => [] end) log.

(** [baseDelay * 2^attempt], [baseDelay * 2^(attempt+1)], ...: [n] waits. *)
Definition backoffSchedule (baseDelay : Z) (attempt n : nat) : list Z :=
  map (fun j => (baseDelay * 2 ^ Z.of_nat (attempt + j))%Z) (seq 0 n).

(** Step 5 of [executeDelete]: the delete operation, through the retry
    manager when retries are enabled. *)
Definition deleteAttempt {W : Type} (options : HookOptions W) (h : HookState)
    (projectId : string) (w : W) : option (Settled * W * list Event) :=
  if enableRetry options
  then retryDelete (retryManager h) (deleteFunction options) projectId 0 w
  else let '(r, w') := deleteFunction options projectId w in
       Some (r, w', [DeleteCall projectId]).

(** The error the [catch] block of [executeDelete] receives, if any: a
    rejection, or the generic error raised for a falsy result. *)
Definition caughtError (settled : Settled) : option JsError :=
  match settled with
  | Resolved result =>
      if truthy result then None else Some (Error "削除処理が失敗しました")
  | Rejected e => Some e
  end.

(** Step 4 of [executeDelete]: the optimistic removal, when it applies. *)
Definition optimisticStart {W : Type} (options : HookOptions W) (projectId : string)
    (projectData : option Project) (updateStateCallback : option Callback)
    (this : OptimisticDeleteManager) : OptimisticDeleteManager * list Event :=
  match enableOptimisticUpdates options, projectData, updateStateCallback with
  | true, Some data, Some callback => optimisticDelete projectId data callback this
  | _, _, _ => (this, [])
  end.

(** The detector after step 1 of [executeDelete]. *)
Definition trackSnapshot (now : Z) (projectData : option Project)
    (d : MemoryLeakDetector) : MemoryLeakDetector :=
  match projectData with
  | Some data => trackObject now (obj_ref data) "DeleteProjectData" d
  | None => d
  end.

(** The caller's functions all return. *)
Definition returning : CallbackBehaviour :=
  {| updateThrows := fun _ _ => None; onSuccessThrows := None; onErrorThrows := None |}.

Definition neverThrows (behaviour : CallbackBehaviour) : Prop :=
  (forall callback updater, updateThrows behaviour callback updater = None) /\
  onSuccessThrows behaviour = None /\
  onErrorThrows behaviour = None.

(** What the removal of step 4 throws, if the step applies and the
    callback throws on it. *)
Definition removalThrows {W : Type} (behaviour : CallbackBehaviour)
    (options : HookOptions W) (projectId : string) (projectData : option Project)
    (updateStateCallback : option Callback) : option JsError :=
  match enableOptimisticUpdates options, projectData, updateStateCallback with
  | true, Some _, Some callback =>
      updateThrows behaviour callback (RemoveProject projectId)
  | _, _, _ => None
  end.

(** The result of a run that returned, as [executeDelete] reports it. *)
Definition returned {W : Type} (run : option (bool * HookState * W * list Event))
  : option (Completion bool JsError * HookState * W * list Event) :=
  match run with
  | Some (ok, h, w, log) => Some (Returns ok, h, w, log)
  | None => None
  end.


(** The calls of the caller's update callback in a log, in order. *)
Definition stateUpdates (log : list Event) : list Event := List.filter isStateUpdate log.


(** The events [retryDelete] produces. *)
Definition isRetryEvent (e : Event) : bool :=
  match e with
  | DeleteCall _ | Sleep _ | ConsoleWarn (WarnRetry _ _ _ _) => true
  | _ => false
  end.

(** The time value of a project's date, for projects that have one. *)
Definition timeOf (p : Project) : Z := default 0%Z (created_at p).

Definition hasDate (p : Project) : Prop := is_Some (created_at p).

(** Newest first: every project is at least as recent as all that follow. *)
Definition newestFirst (l : list Project) : Prop :=
  StronglySorted (fun a b => (timeOf b <= timeOf a)%Z) l.

(** The six categories of the classifier. *)
Definition categories : list ErrorType :=
  [network; permission; not_found; timeout; conflict; default_type].

(** [getTrackingStatus()]: [Object.fromEntries(this.counters.entries())],
    a later entry for a key replacing an earlier one. *)
Definition getTrackingStatus (this : MemoryLeakDetector) : gmap string Z :=
  fold_left (fun status '(type, count) => <[type := count]> status) (counters this) ∅.

(** The type tags of the counters are pairwise distinct. *)
Definition distinctTags (this : MemoryLeakDetector) : Prop :=
  NoDup (map fst (counters this)).

(** [removeAllListeners()]: one [removeEventListener] call on the
    target for every entry, then the registry is cleared.  The calls
    are listed in the order of [map_to_list], which need not be the
    order in which the source's [Map] iterates. *)
Definition removeAllListeners (this : EventListenerManager)
  : EventListenerManager * list Event :=
  ({| listeners := ∅ |},
   map (fun kv => TargetRemove (li_target (snd kv)) (li_type (snd kv)) (li_listener (snd kv)))
       (map_to_list (listeners this))).

(** ** useDeleteWithConfirmation *)

Record ConfirmationState := {
  isOpen : bool;
  confirmProjectId : option string;
  confirmProjectData : option Project
}.

(** What the confirming hook writes to the console and, through
    [executeDelete], everything the inner hook logs. *)
Inductive ConfirmEvent :=
| Inner (e : Event)
| ConsoleErrorText (text : string).

Module Confirmation.

(** [useState({ isOpen: false, projectId: null, projectData: null })];
    [closeDeleteConfirmation] sets the same value. *)
Definition closeDeleteConfirmation : ConfirmationState :=
  {| isOpen := false; confirmProjectId := None; confirmProjectData := None |}.

Definition openDeleteConfirmation (projectId : option string)
    (projectData : option Project) : ConfirmationState :=
  {| isOpen := true; confirmProjectId := projectId; confirmProjectData := projectData |}.

(** [confirmDelete(updateStateCallback)]; [!projectId] holds for
    [null] and for the empty string. *)
Definition confirmDelete {W : Type} (options : HookOptions W)
    (updateStateCallback : option Callback) (clock : Clock)
    (confirmationState : ConfirmationState) (h : HookState) (w : W)
  : option (bool * ConfirmationState * HookState * W * list ConfirmEvent) :=
  match confirmProjectId confirmationState, confirmProjectData confirmationState with
  | Some projectId, Some projectData =>
      if String.eqb projectId EmptyString
      then Some (false, confirmationState, h, w,
                 [ConsoleErrorText "削除対象のプロジェクト情報が不足しています"])
      else
        match executeDelete options projectId (Some projectData) updateStateCallback
                clock h w with
        | Some (result, h', w', log) =>
            Some (result,
                  (if result then closeDeleteConfirmation else confirmationState),
                  h', w', map Inner log)
        | None => None
        end
  | _, _ =>
      Some (false, confirmationState, h, w,
            [ConsoleErrorText "削除対象のプロジェクト情報が不足しています"])
  end.

End Confirmation.

(** ** debounce and throttle *)

(** One-shot timers share the host's handles with the periodic ones. *)
Definition setTimeout (ms : Z) (env : Timers) : TimerHandle * Timers :=
  (nextHandle env,
   {| nextHandle := Pos.succ (nextHandle env);
      activeTimers := activeTimers env ++ [(nextHandle env, ms)] |}).

(** [clearTimeout(h)]; nothing happens for [undefined] or [null]. *)
Definition clearTimeout (h : option TimerHandle) (env : Timers) : Timers :=
  match h with
  | Some h => clearInterval h env
  | None => env
  end.

Definition isActive (h : TimerHandle) (env : Timers) : bool :=
  existsb (fun t => Pos.eqb (fst t) h) (activeTimers env).

(** The closure state of one function returned by
    [debounce(func, wait, immediate)]: the variable [timeout] and, for
    each timer it has set, the arguments the timer's [later] closure
    captured (newest first). *)
Record Debounced (A : Type) := {
  db_wait : Z;
  db_immediate : bool;
  db_timeout : option TimerHandle;
  db_later : list (TimerHandle * A)
}.
Arguments db_wait {A}.
Arguments db_immediate {A}.
Arguments db_timeout {A}.
Arguments db_later {A}.

(** [debounce(func, wait, immediate = false)] *)
Definition debounce {A : Type} (wait : Z) (immediate : bool) : Debounced A :=
  {| db_wait := wait; db_immediate := immediate; db_timeout := None; db_later := [] |}.

Fixpoint laterOf {A : Type} (h : TimerHandle) (later : list (TimerHandle * A)) : option A :=
  match later with
  | [] => None
  | (h', args) :: rest => if Pos.eqb h' h then Some args else laterOf h rest
  end.

(** One call of the debounced function; the result lists the calls of
    [func] it makes. *)
Definition debouncedCall {A : Type} (args : A) (st : Debounced A * Timers)
  : Debounced A * Timers * list A :=
  let '(d, env) := st in
  let callNow := db_immediate d && negb (bool_decide (is_Some (db_timeout d))) in
  let env1 := clearTimeout (db_timeout d) env in
  let '(h, env2) := setTimeout (db_wait d) env1 in
  ({| db_wait := db_wait d; db_immediate := db_immediate d;
      db_timeout := Some h; db_later := (h, args) :: db_later d |},
   env2,
   if callNow then [args] else []).

(** The host runs the pending timer [h]: its [later] closure sets
    [timeout = null] and, unless [immediate], calls [func]. *)
Definition debouncedExpire {A : Type} (h : TimerHandle) (st : Debounced A * Timers)
  : Debounced A * Timers * list A :=
  let '(d, env) := st in
  if isActive h env then
    match laterOf h (db_later d) with
    | Some args =>
        ({| db_wait := db_wait d; db_immediate := db_immediate d;
            db_timeout := None; db_later := db_later d |},
         clearInterval h env,
         if db_immediate d then [] else [args])
    | None => (d, clearInterval h env, [])
    end
  else (d, env, []).

(** A burst of calls with no timer expiring in between. *)
Fixpoint debouncedBurst {A : Type} (calls : list A) (st : Debounced A * Timers)
  : Debounced A * Timers * list A :=
  match calls with
  | [] => (fst st, snd st, [])
  | args :: rest =>
      let '(d1, env1, made1) := debouncedCall args st in
      let '(d2, env2, made2) := debouncedBurst rest (d1, env1) in
      (d2, env2, made1 ++ made2)
  end.

(** The debounced function owns the host's timers: none while
    [timeout] is unset, and otherwise exactly the one it holds, whose
    closure is the newest. *)
Definition debouncedOwnsTimers {A : Type} (st : Debounced A * Timers) : Prop :=
  match db_timeout (fst st) with
  | None => activeTimers (snd st) = []
  | Some h =>
      activeTimers (snd st) = [(h, db_wait (fst st))] /\
      exists args rest, db_later (fst st) = (h, args) :: rest
  end.

(** The closure state of one function returned by [throttle(func, limit)]. *)
Record Throttled := {
  th_limit : Z;
  th_inThrottle : bool
}.

Definition throttle (limit : Z) : Throttled :=
  {| th_limit := limit; th_inThrottle := false |}.

Definition throttledCall {A : Type} (args : A) (st : Throttled * Timers)
  : Throttled * Timers * list A :=
  let '(t, env) := st in
  if negb (th_inThrottle t) then
    let '(_, env') := setTimeout (th_limit t) env in
    ({| th_limit := th_limit t; th_inThrottle := true |}, env', [args])
  else (t, env, []).

(** The host runs the pending timer [h]: [inThrottle = false]. *)
Definition throttledExpire (h : TimerHandle) (st : Throttled * Timers)
  : Throttled * Timers :=
  let '(t, env) := st in
  if isActive h env
  then ({| th_limit := th_limit t; th_inThrottle := false |}, clearInterval h env)
  else (t, env).

Fixpoint throttledBurst {A : Type} (calls : list A) (st : Throttled * Timers)
  : Throttled * Timers * list A :=
  match calls with
  | [] => (fst st, snd st, [])
  | args :: rest =>
      let '(t1, env1, made1) := throttledCall args st in
      let '(t2, env2, made2) := throttledBurst rest (t1, env1) in
      (t2, env2, made1 ++ made2)
  end.

(** The throttled function is in throttle exactly while its one timer
    is pending. *)
Definition throttledOwnsTimers (st : Throttled * Timers) : Prop :=
  if th_inThrottle (fst st)
  then exists h, activeTimers (snd st) = [(h, th_limit (fst st))]
  else activeTimers (snd st) = [].

(** ** processBatch *)

(** [items.slice(start, end)] *)
Definition slice2 {A : Type} (start finish : Z) (l : list A) : list A :=
  let len := Z.of_nat (length l) in
  let k := if (start <? 0)%Z then Z.max (len + start) 0 else Z.min start len in
  let final := if (finish <? 0)%Z then Z.max (len + finish) 0 else Z.min finish len in
  take (Z.to_nat (final - k)) (drop (Z.to_nat k) l).

(** What [processBatch] does, in order: the calls of the processor
    ([Array.prototype.map] passes the item and its index in the batch),
    and the pauses between batches. *)
Inductive BatchEvent (A : Type) :=
| ProcessorCall (item : A) (index : nat)
| BatchDelay (ms : Z).
Arguments ProcessorCall {A} item index.
Arguments BatchDelay {A} ms.

Inductive BatchResult (B : Type) :=
| BatchResolved (results : list B)
| BatchRejected.
Arguments BatchResolved {B} results.
Arguments BatchRejected {B}.

(** [Promise.all]: all the results, in order, when every promise
    resolves; [None] when one rejects. *)
Fixpoint promiseAll {B : Type} (outcomes : list (option B)) : option (list B) :=
  match outcomes with
  | [] => Some []
  | Some b :: rest =>
      match promiseAll rest with
      | Some bs => Some (b :: bs)
      | None => None
      end
  | None :: _ => None
  end.

(** The loop of [processBatch] from index [i], at most [fuel] batches;
    [processor item index batch] is [None] when the promise the
    processor returns rejects. *)
Fixpoint processBatchFrom {A B : Type} (fuel : nat) (items : list A)
    (processor : A -> nat -> list A -> option B) (batchSize delayMs : Z)
    (i : Z) (results : list B) : option (BatchResult B * list (BatchEvent A)) :=
  match fuel with
  | O => None
  | S fuel' =>
      if (i <? Z.of_nat (length items))%Z then
        let batch := slice2 i (i + batchSize) items in
        let calls := imap (fun index item => ProcessorCall item index) batch in
        match promiseAll (imap (fun index item => processor item index batch) batch) with
        | Some batchResults =>
            let pause :=
              if (0 <? delayMs)%Z && (i + batchSize <? Z.of_nat (length items))%Z
              then [BatchDelay delayMs] else [] in
            match processBatchFrom fuel' items processor batchSize delayMs
                    (i + batchSize) (results ++ batchResults) with
            | Some (r, log) => Some (r, calls ++ pause ++ log)
            | None => None
            end
        | None => Some (BatchRejected, calls)
        end
      else Some (BatchResolved results, [])
  end.

(** [processBatch(items, processor, batchSize = 10, delayMs = 0)] *)
Definition processBatch {A B : Type} (fuel : nat) (items : list A)
    (processor : A -> nat -> list A -> option B)
    (batchSize delayMs : option Z) : option (BatchResult B * list (BatchEvent A)) :=
  processBatchFrom fuel items processor (default 10%Z batchSize) (default 0%Z delayMs) 0 [].

(** The items handed to the processor, in order. *)
Definition processedItems {A : Type} (log : list (BatchEvent A)) : list A :=
  flat_map (fun e => match e with ProcessorCall item _ => [item] | BatchDelay _ => [] end) log.

(** The number of pauses. *)
Definition pauses {A : Type} (log : list (BatchEvent A)) : nat :=
  length (List.filter (fun e => match e with BatchDelay _ => true | _ => false end) log).

(** ** PerformanceMonitor *)

(** [x.toFixed(2)], on the exact value of the double [x]. *)
Definition toFixed2 (x : Q) : string :=
  let n := Qfloor (Qabs x * 100 + (1 # 2))%Q in
  (if (Qnum x <? 0)%Z then "-" else EmptyString)
  +:+ pretty (n / 100)%Z +:+ "." +:+ pretty (n / 10 mod 10)%Z +:+ pretty (n mod 10)%Z.

(** [performance.memory], when the platform has it. *)
Record MemoryUsage := {
  mem_used : Z;
  mem_total : Z;
  mem_limit : Z
}.

(** One entry of [metrics]; [None] is [null].  Times are the readings
    of [performance.now()], which are doubles. *)
Record Metric := {
  metric_name : string;
  metric_startTime : Q;
  metric_endTime : option Q;
  metric_duration : option Q;
  metric_memoryBefore : option MemoryUsage;
  metric_memoryAfter : option MemoryUsage
}.

(** [metrics] is a [Map] from operation id to metric, in insertion
    order (the [observers] map of the source is never used). *)
Record PerformanceMonitor := {
  metrics : list (string * Metric)
}.

Definition newPerformanceMonitor : PerformanceMonitor := {| metrics := [] |}.

Inductive PerfWarning :=
| SlowOperation (name : string) (duration : Q)
| MemoryGrowth (name : string) (increase : Z).

(** [startOperation(operationName)]; [dateNow] is [Date.now()],
    [random] the text of [Math.random()], [perfNow] is
    [performance.now()] and [memory] what [getMemoryUsage()] returns. *)
Definition startOperation (operationName : string) (dateNow : Z) (random : string)
    (perfNow : Q) (memory : option MemoryUsage) (this : PerformanceMonitor)
  : string * PerformanceMonitor :=
  let operationId := operationName +:+ "-" +:+ pretty dateNow +:+ "-" +:+ random in
  (operationId,
   {| metrics :=
        mapSet operationId
          {| metric_name := operationName; metric_startTime := perfNow;
             metric_endTime := None; metric_duration := None;
             metric_memoryBefore := memory; metric_memoryAfter := None |}
          (metrics this) |}).

Definition checkPerformanceWarnings (metric : Metric) : list PerfWarning :=
  (match metric_duration metric with
   | Some duration =>
       if includes (metric_name metric) "delete" && negb (Qle_bool duration 1000)
       then [SlowOperation (metric_name metric) duration] else []
   | None => []
   end)
  ++
  (match metric_memoryBefore metric, metric_memoryAfter metric with
   | Some before, Some after =>
       let memoryIncrease := (mem_used after - mem_used before)%Z in
       if (1024 * 1024 <? memoryIncrease)%Z
       then [MemoryGrowth (metric_name metric) memoryIncrease] else []
   | _, _ => []
   end).

Definition endOperation (operationId : string) (perfNow : Q)
    (memory : option MemoryUsage) (this : PerformanceMonitor)
  : PerformanceMonitor * list PerfWarning :=
  match mapGet operationId (metrics this) with
  | Some metric =>
      let metric' :=
        {| metric_name := metric_name metric;
           metric_startTime := metric_startTime metric;
           metric_endTime := Some perfNow;
           metric_duration := Some (double_sub perfNow (metric_startTime metric));
           metric_memoryBefore := metric_memoryBefore metric;
           metric_memoryAfter := memory |} in
      ({| metrics := mapSet operationId metric' (metrics this) |},
       checkPerformanceWarnings metric')
  | None => (this, [])
  end.

(** The completed operations of a name: the [operations] array of
    [getOperationStats]. *)
Definition completedOperations (operationName : string) (this : PerformanceMonitor)
  : list Metric :=
  List.filter
    (fun metric => String.eqb (metric_name metric) operationName
                   && bool_decide (is_Some (metric_duration metric)))
    (map snd (metrics this)).

Definition Qsmaller (a b : Q) : Q := if Qle_bool a b then a else b.
Definition Qlarger (a b : Q) : Q := if Qle_bool a b then b else a.

(** [Math.min(...durations)] and [Math.max(...durations)] of a
    non-empty array. *)
Definition minOf (durations : list Q) : Q :=
  match durations with
  | [] => 0%Q
  | d :: rest => fold_left Qsmaller rest d
  end.

Definition maxOf (durations : list Q) : Q :=
  match durations with
  | [] => 0%Q
  | d :: rest => fold_left Qlarger rest d
  end.

Record OperationStats := {
  stats_operationName : string;
  stats_count : nat;
  avgDuration : string;
  minDuration : string;
  maxDuration : string
}.

(** [getOperationStats(operationName)]; [None] is [null]. *)
Definition getOperationStats (operationName : string) (this : PerformanceMonitor)
  : option OperationStats :=
  let operations := completedOperations operationName this in
  if (length operations =? 0)%nat then None
  else
    let durations := map (fun op => default 0%Q (metric_duration op)) operations in
    let avgDuration :=
      double_div (fold_left double_add durations 0%Q)
                 (inject_Z (Z.of_nat (length durations))) in
    Some {| stats_operationName := operationName;
            stats_count := length operations;
            avgDuration := toFixed2 avgDuration;
            minDuration := toFixed2 (minOf durations);
            maxDuration := toFixed2 (maxOf durations) |}.

Definition clearMetrics (this : PerformanceMonitor) : PerformanceMonitor :=
  {| metrics := [] |}.

(** The number of completed operations [getOperationStats] reports. *)
Definition completedCount (operationName : string) (this : PerformanceMonitor) : nat :=
  match getOperationStats operationName this with
  | Some stats => stats_count stats
  | None => 0
  end.

(* ===================================================================== *)
(** * Part II: properties *)
(* ===================================================================== *)

(** ** Numbers *)

Section Numbers.
Local Open Scope Q_scope.

Lemma pow2_pos (e : Z) : 0 < 2 ^ e.
Proof. apply Qpower_0_lt. reflexivity. Qed.

Lemma pow2_plus (a b : Z) : 2 ^ (a + b) == 2 ^ a * 2 ^ b.
Proof. apply Qpower_plus. discriminate. Qed.

Lemma pow2_Z (k : Z) : (0 <= k)%Z -> inject_Z (2 ^ k) == 2 ^ k.
Proof. intros Hk. rewrite Zpower_Qpower by exact Hk. reflexivity. Qed.

Lemma pow2_le (a b : Z) : (a <= b)%Z -> 2 ^ a <= 2 ^ b.
Proof. intros H. apply Qpower_le_compat_l; [exact H | discriminate]. Qed.

Lemma pow2_lt (a b : Z) : (a < b)%Z -> 2 ^ a < 2 ^ b.
Proof. intros H. apply Qpower_lt_compat_l; [exact H | reflexivity]. Qed.

Lemma roundHalfEven_comp (x y : Q) : x == y -> roundHalfEven x = roundHalfEven y.
Proof.
  intros Hxy. unfold roundHalfEven.
  rewrite (Qfloor_comp x y Hxy).
  assert (H : (x - inject_Z (Qfloor y) ?= 1 # 2) = (y - inject_Z (Qfloor y) ?= 1 # 2)).
  { apply Qcompare_comp; [rewrite Hxy|]; reflexivity. }
  rewrite H. reflexivity.
Qed.

Lemma roundHalfEven_Z (z : Z) : roundHalfEven (inject_Z z) = z.
Proof.
  unfold roundHalfEven. rewrite Qfloor_Z.
  assert (H : (inject_Z z - inject_Z z ?= 1 # 2) = Lt).
  { apply Qlt_alt. setoid_replace (inject_Z z - inject_Z z) with 0 using relation Qeq by ring. reflexivity. }
  rewrite H. reflexivity.
Qed.


Lemma roundHalfEven_error (x : Q) :
  Qabs (inject_Z (roundHalfEven x) - x) <= 1 # 2.
Proof.
  pose proof (Qfloor_le x) as Hlo. pose proof (Qlt_floor x) as Hhi.
  rewrite inject_Z_plus in Hhi. change (inject_Z 1) with 1 in Hhi.
  unfold roundHalfEven.
  apply Qabs_Qle_condition.
  destruct (x - inject_Z (Qfloor x) ?= 1 # 2) eqn:Hc.
  - apply Qeq_alt in Hc.
    destruct (Z.even (Qfloor x)); [|rewrite inject_Z_plus; change (inject_Z 1) with 1]; lra.
  - apply Qlt_alt in Hc. lra.
  - apply Qgt_alt in Hc. rewrite inject_Z_plus. change (inject_Z 1) with 1. lra.
Qed.

Lemma log2_bounds (n : Z) :
  (0 < n)%Z -> 2 ^ Z.log2 n <= inject_Z n /\ inject_Z n < 2 ^ (Z.log2 n + 1).
Proof.
  intros Hn. destruct (Z.log2_spec n Hn) as [Hlo Hhi].
  pose proof (Z.log2_nonneg n) as Hnn.
  rewrite <- !pow2_Z by lia. rewrite <- Zle_Qle, <- Zlt_Qlt.
  replace (Z.log2 n + 1)%Z with (Z.succ (Z.log2 n)) by lia. auto.
Qed.

Lemma Q_as_quotient (x : Q) : x == inject_Z (Qnum x) / inject_Z (Zpos (Qden x)).
Proof. destruct x as [n d]. simpl. rewrite Qmake_Qdiv. reflexivity. Qed.

Lemma exponentOf_spec (x : Q) :
  0 < x -> 2 ^ (exponentOf x + 52) <= x /\ x < 2 ^ (exponentOf x + 53).
Proof.
  intros Hx. unfold exponentOf.
  set (a := Z.log2 (Qnum x)). set (b := Z.log2 (Zpos (Qden x))).
  assert (Hn : (0 < Qnum x)%Z).
  { unfold Qlt in Hx. simpl in Hx. lia. }
  destruct (log2_bounds (Qnum x) Hn) as [Hnlo Hnhi]. fold a in Hnlo, Hnhi.
  destruct (log2_bounds (Zpos (Qden x)) eq_refl) as [Hdlo Hdhi]. fold b in Hdlo, Hdhi.
  pose proof (Q_as_quotient x) as Hq.
  set (n := inject_Z (Qnum x)) in *. set (d := inject_Z (Zpos (Qden x))) in *.
  assert (Hd : 0 < d) by reflexivity.
  assert (Hxd : x * d == n).
  { rewrite Hq. field. intros H. rewrite H in Hd. discriminate. }
  destruct (Qle_bool (2 ^ (a - b)) x) eqn:Hle.
  - apply Qle_bool_iff in Hle.
    replace (a - b - 52 + 52)%Z with (a - b)%Z by lia.
    split; [exact Hle|].
    replace (a - b - 52 + 53)%Z with ((a + 1) + (- b))%Z by lia.
    rewrite pow2_plus, Qpower_opp.
    pose proof (pow2_pos b) as Hb. pose proof (pow2_pos (a + 1)) as Ha.
    apply Qlt_shift_div_l; [exact Hb|].
    apply Qle_lt_trans with (x * d); [|rewrite Hxd; exact Hnhi].
    apply Qmult_le_l; [exact Hx | exact Hdlo].
  - assert (Hlt : x < 2 ^ (a - b)).
    { apply Qnot_le_lt. intros H. apply Qle_bool_iff in H. congruence. }
    replace (a - b - 53 + 53)%Z with (a - b)%Z by lia.
    split; [|exact Hlt].
    replace (a - b - 53 + 52)%Z with (a + (- (b + 1)))%Z by lia.
    rewrite pow2_plus, Qpower_opp.
    pose proof (pow2_pos (b + 1)) as Hb. pose proof (pow2_pos a) as Ha.
    apply Qle_shift_div_r; [exact Hb|].
    apply Qle_trans with n; [exact Hnlo|]. rewrite <- Hxd.
    apply Qmult_le_l; [exact Hx|]. apply Qlt_le_weak. exact Hdhi.
Qed.

Lemma exponentOf_unique (x : Q) (e : Z) :
  2 ^ (e + 52) <= x -> x < 2 ^ (e + 53) -> exponentOf x = e.
Proof.
  intros Hlo Hhi.
  assert (Hx : 0 < x).
  { apply Qlt_le_trans with (2 ^ (e + 52)); [apply pow2_pos | exact Hlo]. }
  destruct (exponentOf_spec x Hx) as [Hlo' Hhi'].
  set (e' := exponentOf x) in *.
  assert (H1 : (e + 52 < e' + 53)%Z).
  { apply (Qpower_lt_compat_l_inv 2); [|reflexivity].
    apply Qle_lt_trans with x; assumption. }
  assert (H2 : (e' + 52 < e + 53)%Z).
  { apply (Qpower_lt_compat_l_inv 2); [|reflexivity].
    apply Qle_lt_trans with x; assumption. }
  lia.
Qed.

Lemma scaled_bounds (x : Q) :
  0 < x ->
  2 ^ 52 <= x / 2 ^ exponentOf x /\ x / 2 ^ exponentOf x < 2 ^ 53.
Proof.
  intros Hx. destruct (exponentOf_spec x Hx) as [Hlo Hhi].
  set (e := exponentOf x) in *. pose proof (pow2_pos e) as He.
  rewrite pow2_plus in Hlo, Hhi. rewrite Qmult_comm in Hlo, Hhi.
  split.
  - apply Qle_shift_div_l; [exact He|]. exact Hlo.
  - apply Qlt_shift_div_r; [exact He|]. exact Hhi.
Qed.

Lemma roundHalfEven_floor (x : Q) :
  (Qfloor x <= roundHalfEven x <= Qfloor x + 1)%Z.
Proof.
  unfold roundHalfEven.
  destruct (x - inject_Z (Qfloor x) ?= 1 # 2); [destruct (Z.even (Qfloor x))| |]; lia.
Qed.

Lemma roundHalfEven_mantissa (s : Q) :
  2 ^ 52 <= s -> s < 2 ^ 53 ->
  (2 ^ 52 <= roundHalfEven s <= 2 ^ 53)%Z.
Proof.
  intros Hlo Hhi. pose proof (roundHalfEven_floor s) as Hf.
  assert (H1 : (2 ^ 52 <= Qfloor s)%Z).
  { rewrite <- (Qfloor_Z (2 ^ 52)). apply Qfloor_resp_le.
    rewrite pow2_Z by lia. exact Hlo. }
  assert (H2 : (Qfloor s < 2 ^ 53)%Z).
  { rewrite Zlt_Qlt. apply Qle_lt_trans with s; [apply Qfloor_le|].
    rewrite pow2_Z by lia. exact Hhi. }
  lia.
Qed.

Lemma roundPositive_pos (x : Q) : 0 < x -> 0 < roundPositive x.
Proof.
  intros Hx. unfold roundPositive.
  destruct (scaled_bounds x Hx) as [Hlo Hhi].
  pose proof (roundHalfEven_mantissa _ Hlo Hhi) as [Hm _].
  apply Qmult_lt_0_compat; [|apply pow2_pos].
  change 0 with (inject_Z 0). rewrite <- Zlt_Qlt. lia.
Qed.

Lemma roundPositive_error (x : Q) :
  0 < x -> Qabs (roundPositive x - x) <= x * (1 # 9007199254740992).
Proof.
  intros Hx. unfold roundPositive.
  destruct (exponentOf_spec x Hx) as [Hlo _].
  set (e := exponentOf x) in *. pose proof (pow2_pos e) as He.
  pose proof (roundHalfEven_error (x / 2 ^ e)) as Herr.
  set (m := inject_Z (roundHalfEven (x / 2 ^ e))) in *.
  assert (Heq : m * 2 ^ e - x == (m - x / 2 ^ e) * 2 ^ e).
  { field. intros H. rewrite H in He. discriminate. }
  rewrite Heq, Qabs_Qmult, (Qabs_pos (2 ^ e)) by (apply Qlt_le_weak; exact He).
  apply Qle_trans with ((1 # 2) * 2 ^ e).
  - apply Qmult_le_compat_r; [exact Herr | apply Qlt_le_weak; exact He].
  - rewrite pow2_plus in Hlo.
    assert (H52 : 2 ^ 52 == 4503599627370496) by reflexivity.
    rewrite H52 in Hlo. lra.
Qed.

(** A number with a significand of at most 53 bits is a double. *)
Lemma roundPositive_exact (x : Q) (m e : Z) :
  (0 < m <= 2 ^ 53)%Z -> x == inject_Z m * 2 ^ e -> roundPositive x == x.
Proof.
  intros Hm Hx.
  assert (Hpos : 0 < x).
  { rewrite Hx. apply Qmult_lt_0_compat; [|apply pow2_pos].
    change 0 with (inject_Z 0). rewrite <- Zlt_Qlt. lia. }
  destruct (exponentOf_spec x Hpos) as [Hlo Hhi].
  unfold roundPositive. set (e' := exponentOf x) in *.
  pose proof (pow2_pos e') as He'. pose proof (pow2_pos e) as He.
  assert (Hscaled : exists k : Z, x / 2 ^ e' == inject_Z k).
  { destruct (Z.eq_dec m (2 ^ 53)%Z) as [->|Hne].
    - exists (2 ^ 52)%Z.
      assert (He1 : e' = (e + 1)%Z).
      { apply exponentOf_unique; rewrite Hx, pow2_Z by lia.
        - replace (e + 1 + 52)%Z with (53 + e)%Z by lia. rewrite pow2_plus. apply Qle_refl.
        - replace (e + 1 + 53)%Z with (54 + e)%Z by lia. rewrite pow2_plus.
          apply Qmult_lt_r; [exact He | reflexivity]. }
      rewrite Hx, He1, pow2_plus, !pow2_Z by lia. field.
      intros H. rewrite H in He. discriminate.
    - assert (Hle : (e' <= e)%Z).
      { assert (H : (e' + 52 < e + 53)%Z); [|lia].
        apply (Qpower_lt_compat_l_inv 2); [|reflexivity].
        apply Qle_lt_trans with x; [exact Hlo|].
        rewrite Hx, pow2_plus, (Qmult_comm (2 ^ e)).
        apply Qmult_lt_r; [exact He|].
        rewrite <- pow2_Z by lia. rewrite <- Zlt_Qlt. lia. }
      exists (m * 2 ^ (e - e'))%Z.
      rewrite inject_Z_mult, pow2_Z by lia.
      rewrite Hx. replace e with ((e - e') + e')%Z at 1 by lia.
      rewrite pow2_plus. field. intros H. rewrite H in He'. discriminate. }
  destruct Hscaled as [k Hk].
  rewrite (roundHalfEven_comp _ _ Hk), roundHalfEven_Z, <- Hk.
  field. intros H. rewrite H in He'. discriminate.
Qed.

Lemma roundPositive_representable (x : Q) :
  0 < x ->
  exists m e, (0 < m <= 2 ^ 53)%Z /\ roundPositive x == inject_Z m * 2 ^ e.
Proof.
  intros Hx. destruct (scaled_bounds x Hx) as [Hlo Hhi].
  pose proof (roundHalfEven_mantissa _ Hlo Hhi) as [Hm1 Hm2].
  exists (roundHalfEven (x / 2 ^ exponentOf x)), (exponentOf x).
  split; [lia | reflexivity].
Qed.

Lemma roundDouble_comp (x y : Q) : x == y -> roundDouble x = roundDouble y.
Proof. intros H. unfold roundDouble. rewrite (Qred_complete x y H). reflexivity. Qed.

Lemma roundDouble_cases (x : Q) :
  (x == 0 /\ roundDouble x == 0) \/
  (0 < x /\ roundDouble x == roundPositive (Qred x)) \/
  (x < 0 /\ roundDouble x == - roundPositive (- Qred x)).
Proof.
  unfold roundDouble. pose proof (Qred_correct x) as Hr.
  destruct (Qred x ?= 0) eqn:Hc; rewrite Qred_correct.
  - left. apply Qeq_alt in Hc. split; [rewrite <- Hr; exact Hc | reflexivity].
  - right. right. apply Qlt_alt in Hc. split; [rewrite <- Hr; exact Hc | reflexivity].
  - right. left. apply Qgt_alt in Hc. split; [rewrite <- Hr; exact Hc | reflexivity].
Qed.

Lemma roundDouble_error (x : Q) :
  Qabs (roundDouble x - x) <= Qabs x * (1 # 9007199254740992).
Proof.
  pose proof (Qred_correct x) as Hr.
  destruct (roundDouble_cases x) as [[Hx Hd]|[[Hx Hd]|[Hx Hd]]]; rewrite Hd.
  - rewrite Hx. discriminate.
  - rewrite (Qabs_pos x) by lra. rewrite <- Hr at 2 3.
    apply roundPositive_error. rewrite Hr. exact Hx.
  - rewrite (Qabs_neg x) by lra.
    assert (Hneg : 0 < - Qred x) by (rewrite Hr; lra).
    pose proof (roundPositive_error _ Hneg) as Herr.
    rewrite <- Hr at 2 3.
    setoid_replace (- roundPositive (- Qred x) - Qred x)
      with (- (roundPositive (- Qred x) - - Qred x)) using relation Qeq by ring.
    rewrite Qabs_opp. exact Herr.
Qed.

Lemma roundDouble_nonneg (x : Q) : 0 <= x -> 0 <= roundDouble x.
Proof.
  intros Hx. destruct (roundDouble_cases x) as [[_ Hd]|[[Hpos Hd]|[Hneg _]]].
  - rewrite Hd. discriminate.
  - rewrite Hd. apply Qlt_le_weak, roundPositive_pos. rewrite Qred_correct. exact Hpos.
  - lra.
Qed.

Lemma roundDouble_exact (x : Q) : isDouble x -> roundDouble x == x.
Proof.
  intros (m & e & Hm & Hx). pose proof (Qred_correct x) as Hr.
  pose proof (pow2_pos e) as He.
  destruct (roundDouble_cases x) as [[H0 Hd]|[[Hpos Hd]|[Hneg Hd]]]; rewrite Hd.
  - rewrite H0. reflexivity.
  - rewrite <- Hr at 2. apply (roundPositive_exact _ m e); [|rewrite Hr; exact Hx].
    assert (0 < m)%Z; [|lia].
    destruct (Z_lt_le_dec 0 m) as [|Hle]; [assumption|exfalso].
    assert (inject_Z m <= 0) by (change 0 with (inject_Z 0); rewrite <- Zle_Qle; lia).
    assert (inject_Z m * 2 ^ e <= 0 * 2 ^ e)
      by (apply Qmult_le_compat_r; [assumption | lra]).
    lra.
  - assert (Hx' : - Qred x == inject_Z (- m) * 2 ^ e).
    { rewrite Hr, Hx, inject_Z_opp. ring. }
    rewrite (roundPositive_exact _ (- m) e); [rewrite Hr; ring | | exact Hx'].
    assert (m < 0)%Z; [|lia].
    destruct (Z_lt_le_dec m 0) as [|Hle]; [assumption|exfalso].
    assert (0 <= inject_Z m) by (change 0 with (inject_Z 0); rewrite <- Zle_Qle; lia).
    assert (0 * 2 ^ e <= inject_Z m * 2 ^ e)
      by (apply Qmult_le_compat_r; [assumption | lra]).
    lra.
Qed.

Lemma roundDouble_isDouble (x : Q) : isDouble (roundDouble x).
Proof.
  destruct (roundDouble_cases x) as [[_ Hd]|[[Hpos Hd]|[Hneg Hd]]].
  - exists 0%Z, 0%Z. split; [lia | rewrite Hd; reflexivity].
  - destruct (roundPositive_representable (Qred x)) as (m & e & Hm & H).
    { rewrite Qred_correct. exact Hpos. }
    exists m, e. split; [lia | rewrite Hd; exact H].
  - destruct (roundPositive_representable (- Qred x)) as (m & e & Hm & H).
    { rewrite Qred_correct. lra. }
    exists (- m)%Z, e. split; [lia|]. rewrite Hd, H, inject_Z_opp. ring.
Qed.

Lemma roundDouble_idempotent (x : Q) : roundDouble (roundDouble x) == roundDouble x.
Proof. apply roundDouble_exact, roundDouble_isDouble. Qed.

Lemma isDouble_Z (z : Z) : (Z.abs z <= 2 ^ 53)%Z -> isDouble (inject_Z z).
Proof. intros Hz. exists z, 0%Z. split; [exact Hz|]. rewrite Qpower_0_r. ring. Qed.

End Numbers.

(** ** Strings *)

Lemma append_String (c : ascii) (a b : string) :
  String c a +:+ b = String c (a +:+ b).
Proof. reflexivity. Qed.

Lemma append_EmptyString (b : string) : EmptyString +:+ b = b.
Proof. reflexivity. Qed.

Lemma prefix_append (t s : string) :
  String.prefix t s = true <-> exists b, s = t +:+ b.
Proof.
  revert s. induction t as [|c t IH]; intros s; simpl.
  - split; [intros _; exists s; reflexivity | intros _; destruct s; reflexivity].
  - destruct s as [|d s]; simpl.
    + split; [discriminate | intros [b Hb]; discriminate].
    + setoid_rewrite append_String.
      destruct (Ascii.ascii_dec c d) as [->|Hne].
      * rewrite IH. split; intros [b Hb]; exists b; congruence.
      * split; [discriminate | intros [b Hb]; congruence].
Qed.

Lemma includes_EmptyString (t : string) :
  includes EmptyString t = String.prefix t EmptyString.
Proof. unfold includes. apply orb_false_r. Qed.

Lemma includes_String (c : ascii) (s t : string) :
  includes (String c s) t = String.prefix t (String c s) || includes s t.
Proof. reflexivity. Qed.

Lemma includes_occursIn (s t : string) :
  includes s t = true <-> occursIn t s.
Proof.
  unfold occursIn. induction s as [|c s IH].
  - rewrite includes_EmptyString, prefix_append. split.
    + intros [b Hb]. exists EmptyString, b. exact Hb.
    + intros ([|a0 a] & b & Hb).
      * exists b. exact Hb.
      * rewrite append_String in Hb. discriminate.
  - rewrite includes_String, orb_true_iff, prefix_append, IH. split.
    + intros [[b Hb] | (a & b & Hb)].
      * exists EmptyString, b. exact Hb.
      * exists (String c a), b. rewrite append_String. congruence.
    + intros ([|a0 a] & b & Hb).
      * left. exists b. exact Hb.
      * right. exists a, b. rewrite append_String in Hb. congruence.
Qed.



(** ** ErrorClassifier *)

Lemma getErrorType_firstMatch (e : JsError) :
  getErrorType e = firstMatch (loweredMessage e) classifierTable.
Proof.
  unfold getErrorType, classifierTable, firstMatch, matchesGroup, existsb.
  repeat rewrite orb_false_r. repeat rewrite orb_assoc. reflexivity.
Qed.









(** C3, as stated, fails: an error object whose message is the number
    404 makes [getErrorType] throw. *)
Lemma getErrorType_throws_on_numeric_message :
  ~ (forall thrown : JsThrown, exists t, AnyThrown.getErrorType thrown = Returns t).
Proof.
  intros Hall. destruct (Hall (TObject (VNum 404))) as [t Ht]. discriminate Ht.
Qed.

(** ** RetryPolicy *)

Section Retry.
Context {W : Type}.
Variable this : DeleteRetryManager.
Variable f : DeleteFunction W.
Variable projectId : string.

Lemma retryDeleteWithin_resolved depth attempt w v w' :
  f projectId w = (Resolved v, w') ->
  retryDeleteWithin (S depth) this f projectId attempt w
  = Some (Resolved v, w', [DeleteCall projectId]).
Proof. intros Hf. simpl. rewrite Hf. reflexivity. Qed.

Lemma retryDeleteWithin_stop depth attempt w e w' :
  f projectId w = (Rejected e, w') ->
  isRetryable e && (attempt <? maxRetries this)%nat = false ->
  retryDeleteWithin (S depth) this f projectId attempt w
  = Some (Rejected e, w', [DeleteCall projectId]).
Proof.
  intros Hf Hstop. simpl. rewrite Hf. unfold isRetryable in Hstop.
  rewrite Hstop. reflexivity.
Qed.

Lemma retryDeleteWithin_retry depth attempt w e w' :
  f projectId w = (Rejected e, w') ->
  isRetryable e = true -> attempt < maxRetries this ->
  retryDeleteWithin (S depth) this f projectId attempt w
  = match retryDeleteWithin depth this f projectId (attempt + 1) w' with
    | Some (r, w'', log) =>
        Some (r, w'',
              DeleteCall projectId
              :: ConsoleWarn (WarnRetry (attempt + 1) (maxRetries this)
                                (baseDelay this * 2 ^ Z.of_nat attempt) e)
              :: Sleep (baseDelay this * 2 ^ Z.of_nat attempt) :: log)
    | None => None
    end.
Proof.
  intros Hf Hre Hlt. simpl. rewrite Hf. unfold isRetryable in Hre. rewrite Hre.
  apply Nat.ltb_lt in Hlt. rewrite Hlt. reflexivity.
Qed.

(** The depth bound of [retryDelete] is never hit: the call always
    settles. *)
Lemma retryDeleteWithin_total depth attempt w :
  maxRetries this - attempt < depth ->
  exists r w' log,
    retryDeleteWithin depth this f projectId attempt w = Some (r, w', log).
Proof.
  revert attempt w. induction depth as [|depth IH]; intros attempt w Hd; [lia|].
  destruct (f projectId w) as [[v|e] w'] eqn:Hf.
  - eexists _, _, _. apply retryDeleteWithin_resolved. exact Hf.
  - destruct (isRetryable e && (attempt <? maxRetries this)%nat) eqn:Hgo.
    + apply andb_true_iff in Hgo as [Hre Hlt]. apply Nat.ltb_lt in Hlt.
      rewrite (retryDeleteWithin_retry _ _ _ _ _ Hf Hre Hlt).
      destruct (IH (attempt + 1) w') as (r & w'' & log & Hrec); [lia|].
      rewrite Hrec. eexists _, _, _. reflexivity.
    + eexists _, _, _. apply retryDeleteWithin_stop; eassumption.
Qed.

Lemma retryDelete_total attempt w :
  exists r w' log, retryDelete this f projectId attempt w = Some (r, w', log).
Proof. apply retryDeleteWithin_total. lia. Qed.

Lemma retryDelete_resolved attempt w v w' :
  f projectId w = (Resolved v, w') ->
  retryDelete this f projectId attempt w = Some (Resolved v, w', [DeleteCall projectId]).
Proof. apply retryDeleteWithin_resolved. Qed.

Lemma retryDelete_stop attempt w e w' :
  f projectId w = (Rejected e, w') ->
  isRetryable e && (attempt <? maxRetries this)%nat = false ->
  retryDelete this f projectId attempt w = Some (Rejected e, w', [DeleteCall projectId]).
Proof. apply retryDeleteWithin_stop. Qed.

Lemma retryDelete_retry attempt w e w' :
  f projectId w = (Rejected e, w') ->
  isRetryable e = true -> attempt < maxRetries this ->
  retryDelete this f projectId attempt w
  = match retryDelete this f projectId (attempt + 1) w' with
    | Some (r, w'', log) =>
        Some (r, w'',
              DeleteCall projectId
              :: ConsoleWarn (WarnRetry (attempt + 1) (maxRetries this)
                                (baseDelay this * 2 ^ Z.of_nat attempt) e)
              :: Sleep (baseDelay this * 2 ^ Z.of_nat attempt) :: log)
    | None => None
    end.
Proof.
  intros Hf Hre Hlt. unfold retryDelete.
  replace (maxRetries this - attempt) with (S (maxRetries this - (attempt + 1))) by lia.
  apply retryDeleteWithin_retry; assumption.
Qed.

Lemma invocations_retry (attemptNo : nat) (delay : Z) (e : JsError) (log : list Event) :
  invocations (DeleteCall projectId
               :: ConsoleWarn (WarnRetry attemptNo (maxRetries this) delay e)
               :: Sleep delay :: log)
  = S (invocations log).
Proof. reflexivity. Qed.

(** An operation whose every call is rejected with a retryable error
    is called once for each remaining attempt, and the rejection of
    the last call is the result. *)
Lemma retryDelete_exhausts n :
  forall attempt w,
    (forall w0, exists e, fst (f projectId w0) = Rejected e /\ isRetryable e = true) ->
    maxRetries this - attempt = n -> attempt <= maxRetries this ->
    exists e log,
      let last := afterCalls f projectId n w in
      f projectId last = (Rejected e, snd (f projectId last)) /\
      retryDelete this f projectId attempt w
      = Some (Rejected e, snd (f projectId last), log) /\
      invocations log = 1 + n.
Proof.
  induction n as [|n IH]; intros attempt w Hall Hn Hle.
  - destruct (Hall w) as (e & He & Hre). exists e, [DeleteCall projectId].
    simpl. destruct (f projectId w) as [r w'] eqn:Hf. simpl in He. subst r.
    split; [reflexivity|]. split; [|reflexivity].
    apply retryDelete_stop with (e := e); [exact Hf|].
    apply andb_false_iff. right. apply Nat.ltb_ge. lia.
  - destruct (Hall w) as (e & He & Hre).
    destruct (f projectId w) as [r w'] eqn:Hf. simpl in He. subst r.
    destruct (IH (attempt + 1) w' Hall) as (e' & log & Hlast & Hrun & Hcount); [lia..|].
    exists e'. eexists. unfold afterCalls in *. rewrite Nat.iter_succ_r, Hf. simpl.
    split; [exact Hlast|].
    rewrite (retryDelete_retry _ _ _ _ Hf Hre) by lia.
    simpl in Hrun. rewrite Hrun. split; [reflexivity|].
    rewrite invocations_retry, Hcount. reflexivity.
Qed.
End Retry.

Lemma network_isRetryable (e : JsError) :
  getErrorType e = network -> isRetryable e = true.
Proof. intros He. unfold isRetryable, handleDeleteError. rewrite He. reflexivity. Qed.

Lemma permission_not_retryable (e : JsError) :
  getErrorType e = permission -> isRetryable e = false.
Proof. intros He. unfold isRetryable, handleDeleteError. rewrite He. reflexivity. Qed.

Lemma settles_as {W : Type} (f : DeleteFunction W) (projectId : string) (w : W) (r : Settled) :
  fst (f projectId w) = r -> f projectId w = (r, snd (f projectId w)).
Proof. destruct (f projectId w). simpl. congruence. Qed.

(** C2. The retry policy, for a manager [this] wrapping an operation
    [f] started in world [w]:
    (a) if every call resolves truthy, [f] is called once, whatever the
        configuration, and its value is returned;
    (b) if every call rejects with a network error, [f] is called
        [1 + maxRetries] times and the rejection of the last call is
        the result, unchanged;
    (c) a rejection classified as permission ends the run after one call;
    (d) two retryable rejections followed by a success give the
        success value after three calls (the configuration allowing
        two retries);
    (e) a retryable rejection followed, on the retry, by one that is
        not retryable ends the run there, after two calls, with the
        second error. *)
Theorem retryDelete_policy {W : Type} (this : DeleteRetryManager)
    (f : DeleteFunction W) (projectId : string) (w : W) :
  let w1 := afterCalls f projectId 1 w in
  let w2 := afterCalls f projectId 2 w in
  (alwaysResolvesTruthy f projectId ->
   exists v,
     fst (f projectId w) = Resolved v /\ truthy v = true /\
     retryDelete this f projectId 0 w
     = Some (Resolved v, snd (f projectId w), [DeleteCall projectId]) /\
     invocations [DeleteCall projectId] = 1) /\
  (alwaysRejectsAs network f projectId ->
   exists e log,
     let last := afterCalls f projectId (maxRetries this) w in
     fst (f projectId last) = Rejected e /\
     retryDelete this f projectId 0 w = Some (Rejected e, snd (f projectId last), log) /\
     invocations log = 1 + maxRetries this) /\
  (forall e,
     fst (f projectId w) = Rejected e -> getErrorType e = permission ->
     retryDelete this f projectId 0 w
     = Some (Rejected e, snd (f projectId w), [DeleteCall projectId]) /\
     invocations [DeleteCall projectId] = 1) /\
  (forall e1 e2 v,
     2 <= maxRetries this ->
     fst (f projectId w) = Rejected e1 -> isRetryable e1 = true ->
     fst (f projectId w1) = Rejected e2 -> isRetryable e2 = true ->
     fst (f projectId w2) = Resolved v ->
     exists log,
       retryDelete this f projectId 0 w = Some (Resolved v, snd (f projectId w2), log) /\
       invocations log = 3) /\
  (forall e1 e2,
     1 <= maxRetries this ->
     fst (f projectId w) = Rejected e1 -> isRetryable e1 = true ->
     fst (f projectId w1) = Rejected e2 -> isRetryable e2 = false ->
     exists log,
       retryDelete this f projectId 0 w = Some (Rejected e2, snd (f projectId w1), log) /\
       invocations log = 2).
Proof.
  intros w1 w2. split; [|split; [|split; [|split]]].
  - intros Hall. destruct (Hall w) as (v & Hv & Ht). exists v.
    repeat split; auto. apply retryDelete_resolved. apply settles_as. exact Hv.
  - intros Hall.
    destruct (retryDelete_exhausts this f projectId (maxRetries this) 0 w)
      as (e & log & Hlast & Hrun & Hcount); [|lia|lia|].
    + intros w0. destruct (Hall w0) as (e & He & Hnet). exists e. split; [exact He|].
      apply network_isRetryable. exact Hnet.
    + exists e, log. simpl in *. rewrite Hlast. auto.
  - intros e He Hperm. split; [|reflexivity].
    apply retryDelete_stop; [apply settles_as; assumption|].
    rewrite permission_not_retryable by assumption. reflexivity.
  - intros e1 e2 v Hmax H0 Hr1 H1 Hr2 H2.
    apply settles_as in H0, H1, H2. eexists.
    rewrite (retryDelete_retry _ _ _ _ _ _ _ H0 Hr1) by lia.
    change (snd (f projectId w)) with w1.
    rewrite (retryDelete_retry _ _ _ _ _ _ _ H1 Hr2) by (simpl; lia).
    change (snd (f projectId w1)) with w2.
    rewrite (retryDelete_resolved _ _ _ _ _ _ _ H2). split; reflexivity.
  - intros e1 e2 Hmax H0 Hr1 H1 Hr2.
    apply settles_as in H0, H1. eexists.
    rewrite (retryDelete_retry _ _ _ _ _ _ _ H0 Hr1) by lia.
    change (snd (f projectId w)) with w1.
    rewrite (retryDelete_stop _ _ _ _ _ _ _ H1) by (rewrite Hr2; reflexivity).
    split; reflexivity.
Qed.

Lemma retryDelete_policy_witness :
  let mgr := newDeleteRetryManager (Some 3) (Some 100%Z) in
  let net := Error "network error" in
  let perm := Error "permission denied" in
  retryDelete mgr (scripted [] (Resolved (VBool true))) "test-1" 0 0
  = Some (Resolved (VBool true), 1, [DeleteCall "test-1"]) /\
  (exists log,
      retryDelete mgr (scripted [] (Rejected net)) "test-1" 0 0
      = Some (Rejected net, 4, log) /\ invocations log = 4) /\
  retryDelete mgr (scripted [] (Rejected perm)) "test-1" 0 0
  = Some (Rejected perm, 1, [DeleteCall "test-1"]) /\
  (exists log,
      retryDelete mgr (scripted [Rejected net; Rejected net] (Resolved (VBool true)))
        "test-1" 0 0
      = Some (Resolved (VBool true), 3, log) /\ invocations log = 3) /\
  (exists log,
      retryDelete mgr (scripted [Rejected net] (Rejected perm)) "test-1" 0 0
      = Some (Rejected perm, 2, log) /\ invocations log = 2).
Proof.
  intros mgr net perm.
  split; [|split; [|split; [|split]]].
  - destruct (retryDelete_policy mgr (scripted [] (Resolved (VBool true))) "test-1" 0)
      as (Ha & _).
    destruct Ha as (v & Hv & _ & Hrun & _).
    + intros n. exists (VBool true). destruct n; split; reflexivity.
    + simpl in Hv. injection Hv as <-. exact Hrun.
  - destruct (retryDelete_policy mgr (scripted [] (Rejected net)) "test-1" 0)
      as (_ & Hb & _).
    destruct Hb as (e & log & He & Hrun & Hcount).
    + intros n. exists net. destruct n; split; reflexivity.
    + simpl in He. injection He as <-. exists log. split; [exact Hrun | exact Hcount].
  - destruct (retryDelete_policy mgr (scripted [] (Rejected perm)) "test-1" 0)
      as (_ & _ & Hc & _).
    destruct (Hc perm) as (Hrun & _); [reflexivity | reflexivity | exact Hrun].
  - destruct (retryDelete_policy mgr
                (scripted [Rejected net; Rejected net] (Resolved (VBool true))) "test-1" 0)
      as (_ & _ & _ & Hd & _).
    destruct (Hd net net (VBool true)) as (log & Hrun & Hcount);
      [simpl; lia | reflexivity..|].
    exists log. split; [exact Hrun | exact Hcount].
  - destruct (retryDelete_policy mgr (scripted [Rejected net] (Rejected perm)) "test-1" 0)
      as (_ & _ & _ & _ & He).
    destruct (He net perm) as (log & Hrun & Hcount); [simpl; lia | reflexivity..|].
    exists log. split; [exact Hrun | exact Hcount].
Defined.

(** ** OptimisticStateManager *)

Lemma insertSorted_Permutation (x : Project) (l : list Project) :
  insertSorted x l ≡ₚ x :: l.
Proof.
  induction l as [|y l IH]; simpl; [reflexivity|].
  destruct (sortsAfter x y); [|reflexivity].
  rewrite IH. apply perm_swap.
Qed.

Lemma sortByCreatedAt_Permutation (l : list Project) : sortByCreatedAt l ≡ₚ l.
Proof.
  induction l as [|x l IH]; simpl; [reflexivity|].
  rewrite insertSorted_Permutation, IH. reflexivity.
Qed.

Lemma removal_removes (projectId : string) (prev : list Project) :
  existsb (hasId projectId) (applyUpdater (RemoveProject projectId) prev) = false.
Proof.
  induction prev as [|p prev IH]; simpl; [reflexivity|].
  destruct (hasId projectId p) eqn:Hp; simpl; [exact IH|].
  rewrite Hp. exact IH.
Qed.

Lemma restore_guarded (projectId : string) (data : Project) (prev : list Project) :
  existsb (hasId projectId) prev = true ->
  applyUpdater (RestoreProject projectId data) prev = prev.
Proof. intros H. simpl. rewrite H. reflexivity. Qed.

Lemma restore_inserts (projectId : string) (data : Project) (prev : list Project) :
  existsb (hasId projectId) prev = false ->
  applyUpdater (RestoreProject projectId data) prev ≡ₚ prev ++ [data].
Proof. intros H. simpl. rewrite H. apply sortByCreatedAt_Permutation. Qed.

Lemma rollbackDelete_not_pending (projectId : string) (this : OptimisticDeleteManager) :
  ~ pending projectId this -> rollbackDelete projectId this = (this, []).
Proof.
  unfold pending, rollbackDelete. intros Hn.
  destruct (deletedProjects this !! projectId) eqn:Hd; [|reflexivity].
  exfalso. apply Hn. eauto.
Qed.

Lemma rollbackDelete_releases (projectId : string) (this : OptimisticDeleteManager) :
  pending projectId this -> is_Some (rollbackCallbacks this !! projectId) ->
  ~ pending projectId (fst (rollbackDelete projectId this)) /\
  rollbackCallbacks (fst (rollbackDelete projectId this)) !! projectId = None.
Proof.
  unfold pending, rollbackDelete. intros [d Hd] [c Hc]. rewrite Hd, Hc. simpl.
  rewrite !lookup_delete_eq. split; [intros [? ?]; discriminate | reflexivity].
Qed.

(** C4. [optimisticDelete] makes the id pending and calls the update
    callback with the removal; a following [rollbackDelete] calls the
    same callback once more, with the reinsertion, so the callback has
    been called exactly twice, and no pending record is left.  The
    reinsertion returns the collection as it is when an element with
    that id is present, and adds the snapshot otherwise.  On an id
    that is not pending [rollbackDelete] calls nothing and changes
    nothing. *)
Theorem optimistic_then_rollback (this : OptimisticDeleteManager)
    (projectId : string) (projectData : Project) (cb : Callback) :
  let step1 := optimisticDelete projectId projectData cb this in
  let step2 := rollbackDelete projectId (fst step1) in
  pending projectId (fst step1) /\
  snd step1 ++ snd step2
  = [StateUpdate cb (RemoveProject projectId);
     StateUpdate cb (RestoreProject projectId projectData)] /\
  count isStateUpdate (snd step1 ++ snd step2) = 2 /\
  (forall prev,
      existsb (hasId projectId) (applyUpdater (RemoveProject projectId) prev) = false) /\
  (forall prev,
      existsb (hasId projectId) prev = true ->
      applyUpdater (RestoreProject projectId projectData) prev = prev) /\
  (forall prev,
      existsb (hasId projectId) prev = false ->
      applyUpdater (RestoreProject projectId projectData) prev ≡ₚ prev ++ [projectData]) /\
  ~ pending projectId (fst step2) /\
  rollbackCallbacks (fst step2) !! projectId = None /\
  (forall other : OptimisticDeleteManager,
      ~ pending projectId other ->
      rollbackDelete projectId other = (other, []) /\
      count isStateUpdate (snd (rollbackDelete projectId other)) = 0).
Proof.
  intros step1 step2.
  assert (Hp : pending projectId (fst step1)).
  { unfold pending, step1. simpl. rewrite lookup_insert_eq. eauto. }
  assert (Hc : is_Some (rollbackCallbacks (fst step1) !! projectId)).
  { unfold step1. simpl. rewrite lookup_insert_eq. eauto. }
  assert (Hlog : snd step2 = [StateUpdate cb (RestoreProject projectId projectData)]).
  { unfold step2, step1, rollbackDelete. simpl. rewrite !lookup_insert_eq. reflexivity. }
  split; [exact Hp|].
  split; [rewrite Hlog; reflexivity|].
  split; [rewrite Hlog; reflexivity|].
  split; [apply removal_removes|].
  split; [apply restore_guarded|].
  split; [apply restore_inserts|].
  split; [apply rollbackDelete_releases; assumption|].
  split; [apply rollbackDelete_releases; assumption|].
  intros other Hn. rewrite (rollbackDelete_not_pending _ _ Hn). split; reflexivity.
Qed.

Lemma optimistic_then_rollback_witness :
  let copy := {| obj_ref := 2; project_id := "p1"; project_title := "Roof Repair (reloaded)";
                 created_at := Some 5%Z |} in
  applyUpdater (RestoreProject "p1" roofRepair) [copy] = [copy] /\
  applyUpdater (RestoreProject "p1" roofRepair) [] ≡ₚ [roofRepair] /\
  rollbackDelete "p1" newOptimisticDeleteManager = (newOptimisticDeleteManager, []).
Proof.
  intros copy.
  destruct (optimistic_then_rollback newOptimisticDeleteManager "p1" roofRepair updateFn)
    as (_ & _ & _ & _ & Hguard & Hins & _ & _ & Hnone).
  split; [apply Hguard; reflexivity|].
  split; [apply (Hins []); reflexivity|].
  apply Hnone. unfold pending. simpl. rewrite lookup_empty. intros [? ?]. discriminate.
Defined.

Lemma keysInSync_lookup (this : OptimisticDeleteManager) (projectId : string) :
  keysInSync this ->
  (is_Some (deletedProjects this !! projectId)
   <-> is_Some (rollbackCallbacks this !! projectId)).
Proof. unfold keysInSync. intros H. rewrite <- !elem_of_dom, H. reflexivity. Qed.

Lemma keysInSync_step (op : ManagerOp) (this : OptimisticDeleteManager) :
  keysInSync this -> keysInSync (fst (runManagerOp op this)).
Proof.
  unfold keysInSync. intros H.
  destruct op as [projectId data cb|projectId|projectId|]; simpl.
  - rewrite !dom_insert_L, H. reflexivity.
  - rewrite !dom_delete_L, H. reflexivity.
  - unfold rollbackDelete.
    destruct (deletedProjects this !! projectId), (rollbackCallbacks this !! projectId);
      simpl; try exact H.
    rewrite !dom_delete_L, H. reflexivity.
  - rewrite !dom_empty_L. reflexivity.
Qed.

Lemma reachable_keysInSync (this : OptimisticDeleteManager) :
  reachable this -> keysInSync this.
Proof.
  induction 1 as [|op this _ IH].
  - unfold keysInSync. simpl. rewrite !dom_empty_L. reflexivity.
  - apply keysInSync_step. exact IH.
Qed.

Lemma confirmDelete_not_pending (projectId : string) (this : OptimisticDeleteManager) :
  keysInSync this -> ~ pending projectId this -> confirmDelete projectId this = this.
Proof.
  intros Hsync Hn. unfold pending in Hn.
  assert (Hd : deletedProjects this !! projectId = None).
  { destruct (deletedProjects this !! projectId) eqn:E; [exfalso; eauto | reflexivity]. }
  assert (Hc : rollbackCallbacks this !! projectId = None).
  { destruct (rollbackCallbacks this !! projectId) eqn:E; [|reflexivity].
    exfalso. apply Hn. apply (keysInSync_lookup _ _ Hsync). rewrite E. eauto. }
  destruct this as [ds cs]. unfold confirmDelete. simpl in *.
  rewrite (delete_id ds), (delete_id cs) by assumption. reflexivity.
Qed.

Lemma confirmDelete_idempotent (projectId : string) (this : OptimisticDeleteManager) :
  confirmDelete projectId (confirmDelete projectId this) = confirmDelete projectId this.
Proof.
  unfold confirmDelete. simpl. f_equal; apply delete_id, lookup_delete_eq.
Qed.

Lemma rollbackDelete_idempotent (projectId : string) (this : OptimisticDeleteManager) :
  rollbackDelete projectId (fst (rollbackDelete projectId this))
  = (fst (rollbackDelete projectId this), []).
Proof.
  unfold rollbackDelete at 2 3.
  destruct (deletedProjects this !! projectId) eqn:Hd;
    [destruct (rollbackCallbacks this !! projectId) eqn:Hc|]; simpl.
  - unfold rollbackDelete. simpl. rewrite lookup_delete_eq. reflexivity.
  - unfold rollbackDelete. rewrite Hd, Hc. reflexivity.
  - unfold rollbackDelete. rewrite Hd. reflexivity.
Qed.

Lemma pending_preserved (projectId : string) (op : ManagerOp)
    (this : OptimisticDeleteManager) :
  pending projectId this -> releases projectId op = false ->
  pending projectId (fst (runManagerOp op this)).
Proof.
  unfold pending. intros Hp Hop.
  destruct op as [p data cb|p|p|]; simpl in *; try discriminate.
  - destruct (decide (p = projectId)) as [->|Hne].
    + rewrite lookup_insert_eq. eauto.
    + rewrite lookup_insert_ne by exact Hne. exact Hp.
  - apply String.eqb_neq in Hop. rewrite lookup_delete_ne by exact Hop. exact Hp.
  - apply String.eqb_neq in Hop. unfold rollbackDelete.
    destruct (deletedProjects this !! p), (rollbackCallbacks this !! p); simpl;
      try exact Hp.
    rewrite lookup_delete_ne by exact Hop. exact Hp.
Qed.

(** C5. In every state the manager can reach, the snapshot map and the
    callback map have the same keys, and every operation keeps it so.
    After [optimisticDelete] the id is pending, with its snapshot and
    callback recorded, and it stays pending until an operation
    releases it.  On an id that is not pending, [confirmDelete] and
    [rollbackDelete] leave the state as it is and call nothing; doing
    either twice is the same as doing it once. *)
Theorem manager_keys_in_sync (this : OptimisticDeleteManager) :
  reachable this ->
  keysInSync this /\
  (forall op, keysInSync (fst (runManagerOp op this))) /\
  (forall projectId data cb,
      let next := fst (optimisticDelete projectId data cb this) in
      pending projectId next /\
      deletedProjects next !! projectId = Some data /\
      rollbackCallbacks next !! projectId = Some cb) /\
  (forall projectId op,
      pending projectId this -> releases projectId op = false ->
      pending projectId (fst (runManagerOp op this))) /\
  (forall projectId,
      ~ pending projectId this ->
      confirmDelete projectId this = this /\
      rollbackDelete projectId this = (this, [])) /\
  (forall projectId,
      confirmDelete projectId (confirmDelete projectId this)
      = confirmDelete projectId this /\
      rollbackDelete projectId (fst (rollbackDelete projectId this))
      = (fst (rollbackDelete projectId this), [])).
Proof.
  intros Hreach. pose proof (reachable_keysInSync _ Hreach) as Hsync.
  split; [exact Hsync|].
  split; [intros op; apply keysInSync_step; exact Hsync|].
  split.
  { intros projectId data cb next. unfold next, pending. simpl.
    rewrite !lookup_insert_eq. eauto. }
  split; [intros projectId op; apply pending_preserved|].
  split.
  { intros projectId Hn. split.
    - apply confirmDelete_not_pending; assumption.
    - apply rollbackDelete_not_pending; assumption. }
  intros projectId. split.
  - apply confirmDelete_idempotent.
  - apply rollbackDelete_idempotent.
Qed.

Lemma manager_keys_in_sync_witness :
  let this := fst (optimisticDelete "p1" roofRepair updateFn newOptimisticDeleteManager) in
  keysInSync this /\
  pending "p1" (fst (runManagerOp (OpConfirmDelete "p2") this)) /\
  confirmDelete "p2" this = this /\
  rollbackDelete "p2" this = (this, []).
Proof.
  intros this.
  destruct (manager_keys_in_sync this) as (Hsync & _ & _ & Hstay & Hnot & _).
  { apply (reachable_step (OpOptimisticDelete "p1" roofRepair updateFn)).
    apply reachable_new. }
  split; [exact Hsync|].
  split.
  { apply Hstay; [|reflexivity].
    unfold pending, this. simpl. rewrite lookup_insert_eq. eauto. }
  apply Hnot. unfold pending, this. simpl.
  rewrite lookup_insert_ne by discriminate. rewrite lookup_empty.
  intros [? ?]. discriminate.
Defined.

(** ** DeleteStatisticsCollector *)

Lemma recordAll_snoc (samples : list Sample) (s : Sample) (st : Stats) :
  recordAll (samples ++ [s]) st = record s (recordAll samples st).
Proof. unfold recordAll. rewrite fold_left_app. reflexivity. Qed.

Lemma recordAll_cons (samples : list Sample) (s : Sample) (st : Stats) :
  recordAll (s :: samples) st = recordAll samples (record s st).
Proof. reflexivity. Qed.

Lemma responseTimes_record (s : Sample) (st : Stats) :
  responseTimes (record s st) = responseTimes st ++ [latency s].
Proof. destruct s; reflexivity. Qed.

Lemma averageResponseTime_record (s : Sample) (st : Stats) :
  averageResponseTime (record s st)
  = averageOf (slice (-100) (responseTimes st ++ [latency s])).
Proof. destruct s; reflexivity. Qed.

Lemma responseTimes_recordAll (samples : list Sample) (st : Stats) :
  responseTimes (recordAll samples st) = responseTimes st ++ map latency samples.
Proof.
  revert st. induction samples as [|s samples IH]; intros st.
  - simpl. rewrite app_nil_r. reflexivity.
  - rewrite recordAll_cons, IH, responseTimes_record, <- app_assoc. reflexivity.
Qed.

Lemma totals_recordAll (samples : list Sample) (st : Stats) :
  let st' := recordAll samples st in
  totalDeletes st' = totalDeletes st + length samples /\
  successfulDeletes st' = successfulDeletes st + length (List.filter isSuccess samples) /\
  failedDeletes st'
  = failedDeletes st + length (List.filter (fun s => negb (isSuccess s)) samples).
Proof.
  revert st. induction samples as [|s samples IH]; intros st; simpl.
  - repeat split; lia.
  - destruct (IH (record s st)) as (Ht & Hs & Hf).
    change (fold_left (fun st0 s0 => record s0 st0) samples (record s st))
      with (recordAll samples (record s st)).
    rewrite Ht, Hs, Hf. destruct s; simpl; repeat split; lia.
Qed.

Lemma errorTypes_recordAll (t : ErrorType) (samples : list Sample) (st : Stats) :
  default 0 (errorTypes (recordAll samples st) !! typeName t)
  = default 0 (errorTypes st !! typeName t) + failuresOf t samples.
Proof.
  revert st. induction samples as [|s samples IH]; intros st.
  - unfold failuresOf. simpl. lia.
  - rewrite recordAll_cons, IH. unfold failuresOf. destruct s as [now start|now start e]; simpl.
    + reflexivity.
    + destruct (String.eqb_spec (typeName (getErrorType e)) (typeName t)) as [Heq|Hne]; simpl.
      * rewrite Heq, lookup_insert_eq. simpl. lia.
      * rewrite lookup_insert_ne by exact Hne. lia.
Qed.

Lemma sum_fold_left (times : list Z) (acc : Z) :
  fold_left (fun sum time => sum + time)%Z times acc = (acc + foldr Z.add 0 times)%Z.
Proof.
  revert acc. induction times as [|t times IH]; intros acc; simpl; [lia|].
  rewrite IH. lia.
Qed.

Lemma averageOf_arithmeticMean (times : list Z) : averageOf times = arithmeticMean times.
Proof. unfold averageOf, arithmeticMean. rewrite sum_fold_left. reflexivity. Qed.

Lemma slice_mostRecent {A : Type} (n : nat) (l : list A) :
  slice (- Z.of_nat (S n)) l = mostRecent (S n) l.
Proof.
  unfold slice, mostRecent.
  replace (- Z.of_nat (S n) <? 0)%Z with true by (symmetry; apply Z.ltb_lt; lia).
  f_equal. lia.
Qed.

Lemma toFixed1_oneDecimal (x : Q) : (0 <= x)%Q -> oneDecimal (toFixed1 x).
Proof.
  intros Hx. unfold toFixed1, oneDecimal.
  assert (Hnum : (Qnum x <? 0)%Z = false).
  { apply Z.ltb_ge. unfold Qle in Hx. simpl in Hx. lia. }
  rewrite Hnum.
  set (n := Qfloor (Qabs x * 10 + (1 # 2))).
  assert (Hn : (0 <= n)%Z).
  { change 0%Z with (Qfloor 0). apply Qfloor_resp_le.
    apply Qle_trans with (Qabs x * 10 + 0)%Q.
    - rewrite Qplus_0_r. apply Qmult_le_0_compat; [apply Qabs_nonneg | discriminate].
    - apply Qplus_le_r. discriminate. }
  exists (n / 10)%Z, (n mod 10)%Z.
  split; [apply Z.div_pos; lia|]. split; [apply Z.mod_pos_bound; lia|]. reflexivity.
Qed.

Lemma successRate_nonneg (a b : nat) :
  (0 <= inject_Z (Z.of_nat a) / inject_Z (Z.of_nat b) * 100)%Q.
Proof.
  apply Qmult_le_0_compat; [|discriminate].
  apply Qmult_le_0_compat.
  - change 0%Q with (inject_Z 0). rewrite <- Zle_Qle. lia.
  - apply Qinv_le_0_compat. change 0%Q with (inject_Z 0). rewrite <- Zle_Qle. lia.
Qed.

Lemma ratio_nonneg (a b : nat) :
  (0 <= inject_Z (Z.of_nat a) / inject_Z (Z.of_nat b))%Q.
Proof.
  apply Qmult_le_0_compat.
  - change 0%Q with (inject_Z 0). rewrite <- Zle_Qle. lia.
  - apply Qinv_le_0_compat. change 0%Q with (inject_Z 0). rewrite <- Zle_Qle. lia.
Qed.

Lemma doubleRate_nonneg (a b : nat) :
  (0 <= double_mul (double_div (inject_Z (Z.of_nat a)) (inject_Z (Z.of_nat b))) 100)%Q.
Proof.
  unfold double_mul, double_div. apply roundDouble_nonneg.
  apply Qmult_le_0_compat; [|discriminate].
  apply roundDouble_nonneg, ratio_nonneg.
Qed.

(** Two roundings, each off by at most one part in 2^53. *)
Lemma doubleRate_error (a b : nat) :
  let exact := (inject_Z (Z.of_nat a) / inject_Z (Z.of_nat b) * 100)%Q in
  (Qabs (double_mul (double_div (inject_Z (Z.of_nat a)) (inject_Z (Z.of_nat b))) 100 - exact)
   <= exact * (1 # 2251799813685248))%Q.
Proof.
  intros exact. unfold double_mul, double_div, exact.
  set (p := (inject_Z (Z.of_nat a) / inject_Z (Z.of_nat b))%Q).
  pose proof (ratio_nonneg a b) as Hp. fold p in Hp.
  pose proof (roundDouble_error p) as H1.
  pose proof (roundDouble_nonneg p Hp) as Hr1.
  set (r1 := roundDouble p) in *.
  pose proof (roundDouble_error (r1 * 100)) as H2.
  set (r2 := roundDouble (r1 * 100)) in *.
  rewrite (Qabs_pos p) in H1 by exact Hp.
  rewrite (Qabs_pos (r1 * 100)%Q) in H2 by lra.
  apply Qabs_Qle_condition in H1. apply Qabs_Qle_condition in H2.
  apply Qabs_Qle_condition. lra.
Qed.

Lemma toFixed1_nearestTenth (x : Q) : (0 <= x)%Q -> nearestTenth (toFixed1 x) x.
Proof.
  intros Hx. unfold toFixed1, nearestTenth.
  assert (Hnum : (Qnum x <? 0)%Z = false).
  { apply Z.ltb_ge. unfold Qle in Hx. simpl in Hx. lia. }
  rewrite Hnum.
  assert (Hfloor : Qfloor (Qabs x * 10 + (1 # 2)) = Qfloor (x * 10 + (1 # 2))).
  { apply Qfloor_comp. rewrite (Qabs_pos x) by exact Hx. reflexivity. }
  rewrite Hfloor.
  pose proof (Qfloor_le (x * 10 + (1 # 2))) as Hlo.
  pose proof (Qlt_floor (x * 10 + (1 # 2))) as Hhi.
  rewrite inject_Z_plus in Hhi. change (inject_Z 1) with 1%Q in Hhi.
  set (n := Qfloor (x * 10 + (1 # 2))) in *.
  exists n. split.
  - change 0%Z with (Qfloor 0). apply Qfloor_resp_le. lra.
  - split; [reflexivity|]. unfold Qdiv. change (/ 10)%Q with (1 # 10)%Q. split; lra.
Qed.

Lemma filter_refines {A : Type} (p q : A -> bool) (l : list A) :
  (forall x, p x = true -> q x = true) ->
  List.filter p l = List.filter p (List.filter q l).
Proof.
  intros Hpq. induction l as [|x l IH]; simpl; [reflexivity|].
  destruct (p x) eqn:Hp.
  - rewrite (Hpq x Hp). simpl. rewrite Hp, <- IH. reflexivity.
  - destruct (q x); simpl; [rewrite Hp|]; exact IH.
Qed.

Lemma filter_split_length {A : Type} (p : A -> bool) (l : list A) :
  length l = length (List.filter p l) + length (List.filter (fun x => negb (p x)) l).
Proof.
  induction l as [|x l IH]; simpl; [reflexivity|].
  destruct (p x); simpl; lia.
Qed.

(** C6. After two recorded successes and one recorded failure (in any
    order, on a fresh manager) [getStats] reports 3 deletes, 2
    successful, 1 failed, the success rate ["66.7"], and one failure
    under the category of the failure's error.  Whenever
    [totalDeletes] is positive the success rate is a string with one
    decimal: the numeral nearest to the rate the doubles give, which is
    within one part in 2^51 of the exact percentage (so 23 successes of
    80 print as ["28.7"], the double being just below 28.75); it is the
    number 0 when [totalDeletes] is 0.  [resetStats] zeroes the counters
    and empties the category map and the sample history. *)
Theorem getStats_report (st : Stats) (samples : list Sample)
    (now start : Z) (e : JsError) :
  (length (List.filter isSuccess samples) = 2 ->
   List.filter (fun s => negb (isSuccess s)) samples = [Failure now start e] ->
   let r := getStats (recordAll samples newStats) in
   totalDeletes (reported r) = 3 /\
   successfulDeletes (reported r) = 2 /\
   failedDeletes (reported r) = 1 /\
   successRate r = RateString "66.7" /\
   errorTypes (reported r) !! typeName (getErrorType e) = Some 1) /\
  (0 < totalDeletes st ->
   exists (s : string) (rate : Q),
     successRate (getStats st) = RateString s /\
     oneDecimal s /\
     nearestTenth s rate /\
     (Qabs (rate - exactPercentage st) <= exactPercentage st * (1 # 2251799813685248))%Q) /\
  (successfulDeletes st = 23 -> totalDeletes st = 80 ->
   successRate (getStats st) = RateString "28.7") /\
  (totalDeletes st = 0 -> successRate (getStats st) = RateNumber 0) /\
  (let z := resetStats st in
   totalDeletes z = 0 /\ successfulDeletes z = 0 /\ failedDeletes z = 0 /\
   errorTypes z = ∅ /\ responseTimes z = [] /\ averageResponseTime z = 0%Q /\
   successRate (getStats z) = RateNumber 0).
Proof.
  split; [|split; [|split; [|split]]].
  - intros Hsucc Hfail r.
    destruct (totals_recordAll samples newStats) as (Ht & Hs & Hf).
    rewrite (filter_split_length isSuccess samples), Hsucc, Hfail in Ht.
    rewrite Hsucc in Hs. rewrite Hfail in Hf. simpl in Ht, Hs, Hf.
    split; [exact Ht|]. split; [exact Hs|]. split; [exact Hf|].
    split.
    + unfold r, getStats. simpl. rewrite Ht, Hs. vm_compute. reflexivity.
    + pose proof (errorTypes_recordAll (getErrorType e) samples newStats) as Hcount.
      unfold failuresOf in Hcount.
      rewrite (filter_refines _ (fun s => negb (isSuccess s))) in Hcount.
      * rewrite Hfail in Hcount. simpl in Hcount. rewrite String.eqb_refl in Hcount.
        rewrite lookup_empty in Hcount. simpl in Hcount. unfold r. simpl.
        destruct (errorTypes (recordAll samples newStats) !! typeName (getErrorType e));
          simpl in Hcount; [congruence | discriminate].
      * intros [? ?|? ? ?]; [discriminate | reflexivity].
  - intros Hpos. eexists. eexists. unfold getStats. simpl.
    apply Nat.ltb_lt in Hpos. rewrite Hpos.
    split; [reflexivity|].
    split; [apply toFixed1_oneDecimal, doubleRate_nonneg|].
    split; [apply toFixed1_nearestTenth, doubleRate_nonneg|].
    apply doubleRate_error.
  - intros Hs Ht. unfold getStats. simpl. rewrite Hs, Ht. vm_compute. reflexivity.
  - intros Hzero. unfold getStats. simpl. rewrite Hzero. reflexivity.
  - repeat split.
Qed.

Lemma getStats_report_witness :
  let samples := [Success 120 100; Success 260 200; Failure 330 300 (Error "permission denied")] in
  let st := recordAll samples newStats in
  successRate (getStats st) = RateString "66.7" /\
  errorTypes st !! "permission" = Some 1 /\
  (exists rate : Q,
     nearestTenth "66.7" rate /\
     (Qabs (rate - exactPercentage st) <= exactPercentage st * (1 # 2251799813685248))%Q) /\
  successRate (getStats newStats) = RateNumber 0.
Proof.
  intros samples st.
  destruct (getStats_report st samples 330 300 (Error "permission denied"))
    as (Hreport & Hstring & _ & _ & _).
  destruct (getStats_report newStats [] 0 0 ThrownNull) as (_ & _ & _ & Hzero & _).
  destruct Hreport as (_ & _ & _ & Hrate & Hcat); [reflexivity | reflexivity |].
  destruct Hstring as (s & rate & Hs & _ & Hnear & Hbound); [unfold st; simpl; lia|].
  split; [exact Hrate|]. split; [exact Hcat|].
  split; [|apply Hzero; reflexivity].
  unfold st in Hs. rewrite Hrate in Hs. injection Hs as <-.
  exists rate. split; [exact Hnear | exact Hbound].
Defined.

(** C7. After any non-empty sequence of recordings, successes and
    failures alike, the sample history is the old history followed by
    the new latencies, and the reported average is the arithmetic mean
    of its most recent 100 entries (of all of them while there are
    fewer).  The run [longRun] shows that this is not the mean of the
    whole history. *)
Theorem averageResponseTime_recent (st : Stats) (samples : list Sample) :
  samples <> [] ->
  let history := responseTimes st ++ map latency samples in
  responseTimes (recordAll samples st) = history /\
  averageResponseTime (recordAll samples st) = arithmeticMean (mostRecent 100 history) /\
  length (mostRecent 100 history) = Nat.min 100 (length history) /\
  ~ (averageResponseTime (recordAll longRun newStats)
     == arithmeticMean (map latency longRun))%Q.
Proof.
  intros Hne history.
  split; [apply responseTimes_recordAll|].
  split; [|split].
  - destruct samples as [|s0 samples] using rev_ind; [congruence|].
    rewrite recordAll_snoc, averageResponseTime_record, responseTimes_recordAll.
    unfold history. rewrite map_app, app_assoc. simpl.
    rewrite <- averageOf_arithmeticMean. f_equal.
    apply (slice_mostRecent 99).
  - unfold mostRecent. rewrite length_drop. lia.
  - vm_compute. discriminate.
Qed.

Lemma averageResponseTime_recent_witness :
  averageResponseTime
    (recordAll [Success 100 0; Failure 200 0 (Error "timeout"); Success 300 0] newStats)
  = arithmeticMean [100; 200; 300]%Z.
Proof.
  destruct (averageResponseTime_recent newStats
              [Success 100 0; Failure 200 0 (Error "timeout"); Success 300 0])
    as (_ & Havg & _); [discriminate|].
  exact Havg.
Defined.

(** ** LeakDetector *)

Lemma mapGet_mapSet_eq {V : Type} (k : string) (v : V) (m : list (string * V)) :
  mapGet k (mapSet k v m) = Some v.
Proof.
  induction m as [|[k' v'] m IH]; simpl.
  - rewrite String.eqb_refl. reflexivity.
  - destruct (String.eqb k' k) eqn:Hk; simpl.
    + rewrite String.eqb_refl. reflexivity.
    + rewrite Hk. exact IH.
Qed.

Lemma mapGet_mapSet_ne {V : Type} (k k0 : string) (v : V) (m : list (string * V)) :
  k <> k0 -> mapGet k0 (mapSet k v m) = mapGet k0 m.
Proof.
  intros Hne. induction m as [|[k' v'] m IH]; simpl.
  - apply String.eqb_neq in Hne. rewrite Hne. reflexivity.
  - destruct (String.eqb k' k) eqn:Hk; simpl.
    + apply String.eqb_eq in Hk. subst k'. apply String.eqb_neq in Hne.
      rewrite Hne. reflexivity.
    + destruct (String.eqb k' k0); [reflexivity | exact IH].
Qed.

Lemma mapSet_Forall {V : Type} (P : string * V -> Prop) (k : string) (v : V)
    (m : list (string * V)) :
  P (k, v) -> Forall P m -> Forall P (mapSet k v m).
Proof.
  intros Hv Hm. induction Hm as [|[k' v'] m Hx Hm IH]; simpl.
  - constructor; [exact Hv | constructor].
  - destruct (String.eqb k' k); constructor; assumption.
Qed.

Lemma counterOf_nonneg (type : string) (this : MemoryLeakDetector) :
  countersNonNegative this -> (0 <= counterOf type this)%Z.
Proof.
  unfold countersNonNegative, counterOf. intros H.
  induction H as [|[k v] m Hx Hm IH]; simpl; [lia|].
  destruct (String.eqb k type); [exact Hx | exact IH].
Qed.

Lemma counterOf_trackObject (now : Z) (obj : nat) (type : string)
    (this : MemoryLeakDetector) :
  counterOf type (trackObject now obj type this) = (counterOf type this + 1)%Z.
Proof. unfold counterOf at 1. simpl. rewrite mapGet_mapSet_eq. reflexivity. Qed.

(** The decrement of [untrackObject] is floored at zero. *)
Lemma counterOf_untrackObject (obj : nat) (this : MemoryLeakDetector)
    (ref : TrackedReference) :
  references this !! obj = Some ref ->
  counterOf (ref_type ref) (untrackObject obj this)
  = Z.max 0 (counterOf (ref_type ref) this - 1).
Proof.
  intros Href. unfold untrackObject. rewrite Href.
  unfold counterOf at 1. simpl. rewrite mapGet_mapSet_eq. reflexivity.
Qed.

Lemma trackObject_nonneg (now : Z) (obj : nat) (type : string)
    (this : MemoryLeakDetector) :
  countersNonNegative this -> countersNonNegative (trackObject now obj type this).
Proof.
  intros H. unfold countersNonNegative. simpl.
  apply mapSet_Forall; [|exact H]. simpl.
  pose proof (counterOf_nonneg type this H). lia.
Qed.

Lemma untrackObject_nonneg (obj : nat) (this : MemoryLeakDetector) :
  countersNonNegative this -> countersNonNegative (untrackObject obj this).
Proof.
  intros H. unfold untrackObject.
  destruct (references this !! obj) as [ref|]; [|exact H].
  unfold countersNonNegative. simpl. apply mapSet_Forall; [|exact H]. simpl. lia.
Qed.

Lemma trackAll_counters (now : Z) (objs : list nat) (type : string) :
  forall (this : MemoryLeakDetector) (c : Z),
    counters this = [(type, c)] ->
    counters (trackAll now objs type this) = [(type, (c + Z.of_nat (length objs))%Z)].
Proof.
  induction objs as [|obj objs IH]; intros this c Hc; simpl.
  - rewrite Hc. f_equal. f_equal. lia.
  - change (fold_left (fun d o => trackObject now o type d) objs
              (trackObject now obj type this))
      with (trackAll now objs type (trackObject now obj type this)).
    rewrite (IH _ (c + 1)%Z).
    + f_equal. f_equal. lia.
    + simpl. unfold counterOf. rewrite Hc. simpl. rewrite String.eqb_refl. reflexivity.
Qed.

(** C9. On a fresh detector, tracking 101 objects under one tag and
    then calling [checkForLeaks] emits one warning, for that tag and
    the count 101.  Tracking an object and untracking it again leaves
    the tag's counter where it was; the decrement of [untrackObject]
    is [max 0 (count - 1)], so no counter ever goes below zero. *)
Theorem leak_counters (this : MemoryLeakDetector) (now : Z) (obj : nat)
    (type : string) (objs : list nat) :
  (length objs = 101 ->
   checkForLeaks (trackAll now objs type newMemoryLeakDetector)
   = [ConsoleWarn (WarnLeak type 101)] /\
   count isLeakWarning (checkForLeaks (trackAll now objs type newMemoryLeakDetector)) = 1) /\
  countersNonNegative newMemoryLeakDetector /\
  (countersNonNegative this ->
   countersNonNegative (trackObject now obj type this) /\
   countersNonNegative (untrackObject obj this) /\
   counterOf type (untrackObject obj (trackObject now obj type this))
   = counterOf type this /\
   forall tag, (0 <= counterOf tag (untrackObject obj this))%Z) /\
  (forall ref,
      references this !! obj = Some ref ->
      counterOf (ref_type ref) (untrackObject obj this)
      = Z.max 0 (counterOf (ref_type ref) this - 1)).
Proof.
  split; [|split; [|split]].
  - intros Hlen.
    assert (Hc : counters (trackAll now objs type newMemoryLeakDetector) = [(type, 101%Z)]).
    { destruct objs as [|o objs]; [discriminate|]. simpl in Hlen.
      change (trackAll now (o :: objs) type newMemoryLeakDetector)
        with (trackAll now objs type (trackObject now o type newMemoryLeakDetector)).
      rewrite (trackAll_counters now objs type _ 1%Z) by reflexivity.
      f_equal. f_equal. lia. }
    unfold checkForLeaks. rewrite Hc. split; reflexivity.
  - constructor.
  - intros Hinv.
    split; [apply trackObject_nonneg; exact Hinv|].
    split; [apply untrackObject_nonneg; exact Hinv|].
    split.
    + assert (Href : references (trackObject now obj type this) !! obj
                     = Some {| ref_type := type; createdAt := now |})
        by (simpl; apply lookup_insert_eq).
      pose proof (counterOf_untrackObject _ _ _ Href) as Hu.
      change (ref_type {| ref_type := type; createdAt := now |}) with type in Hu.
      rewrite Hu, counterOf_trackObject.
      pose proof (counterOf_nonneg type this Hinv). lia.
    + intros tag. apply counterOf_nonneg, untrackObject_nonneg, Hinv.
  - apply counterOf_untrackObject.
Qed.

Lemma leak_counters_witness :
  let used := trackObject 0 1 "TestObject" newMemoryLeakDetector in
  checkForLeaks (trackAll 5 (seq 0 101) "TestObject" newMemoryLeakDetector)
  = [ConsoleWarn (WarnLeak "TestObject" 101)] /\
  counterOf "TestObject" (untrackObject 2 (trackObject 5 2 "TestObject" used))
  = counterOf "TestObject" used /\
  counterOf "TestObject" (untrackObject 1 used) = Z.max 0 (counterOf "TestObject" used - 1).
Proof.
  intros used.
  destruct (leak_counters used 5 2 "TestObject" (seq 0 101)) as (Hwarn & _ & Hpair & _).
  destruct (leak_counters used 5 1 "TestObject" []) as (_ & _ & _ & Hfloor).
  assert (Hused : countersNonNegative used).
  { unfold countersNonNegative, used. simpl.
    constructor; [vm_compute; intros Hgt; discriminate Hgt | constructor]. }
  split; [apply Hwarn; reflexivity|].
  split.
  - apply (Hpair Hused).
  - apply (Hfloor {| ref_type := "TestObject"; createdAt := 0 |}). reflexivity.
Defined.

(** C8. What the detector does when [startLeakDetection] is called
    while detection is running: the second call installs a second
    periodic timer and overwrites the only handle, so two timers are
    active; [stopLeakDetection] then cancels the second timer and
    clears the handle, and the first timer keeps running with no
    handle left to cancel it. *)
Theorem startLeakDetection_twice :
  let st1 := startLeakDetection (Some 1000%Z) (newMemoryLeakDetector, noTimers) in
  let st2 := startLeakDetection (Some 1000%Z) st1 in
  let st3 := stopLeakDetection st2 in
  activeTimers (snd st1) = [(1%positive, 1000%Z)] /\
  checkInterval (fst st1) = Some 1%positive /\
  activeTimers (snd st2) = [(1%positive, 1000%Z); (2%positive, 1000%Z)] /\
  checkInterval (fst st2) = Some 2%positive /\
  checkInterval (fst st3) = None /\
  activeTimers (snd st3) = [(1%positive, 1000%Z)] /\
  stopLeakDetection st3 = st3.
Proof. repeat split. Qed.

(** In general: a start while a timer is running adds a timer, keeps
    the running one, and forgets its handle. *)
Lemma startLeakDetection_keeps_running_timer (this : MemoryLeakDetector) (env : Timers)
    (h : TimerHandle) (running : Z) (interval : option Z) :
  checkInterval this = Some h ->
  In (h, running) (activeTimers env) ->
  (h < nextHandle env)%positive ->
  let st := startLeakDetection interval (this, env) in
  In (h, running) (activeTimers (snd st)) /\
  length (activeTimers (snd st)) = S (length (activeTimers env)) /\
  checkInterval (fst st) = Some (nextHandle env) /\
  checkInterval (fst st) <> Some h.
Proof.
  intros _ Hin Hlt st. unfold st. simpl.
  split; [apply in_or_app; left; exact Hin|].
  split; [rewrite length_app; simpl; lia|].
  split; [reflexivity|].
  intros Heq. injection Heq as Heq. lia.
Qed.

(** [stopLeakDetection] cancels the timer whose handle the detector
    holds and clears the handle. *)
Lemma stopLeakDetection_cancels (this : MemoryLeakDetector) (env : Timers)
    (h : TimerHandle) :
  checkInterval this = Some h ->
  let st := stopLeakDetection (this, env) in
  checkInterval (fst st) = None /\
  ~ In h (map fst (activeTimers (snd st))).
Proof.
  intros Hh st. unfold st, stopLeakDetection. rewrite Hh. simpl. split; [reflexivity|].
  rewrite in_map_iff. intros ([h' i] & Heq & Hin). simpl in Heq. subst h'.
  apply filter_In in Hin as [_ Hneq]. simpl in Hneq.
  rewrite Pos.eqb_refl in Hneq. discriminate.
Qed.

(** ** ListenerRegistry *)

(** C10. The registry key is the target's constructor name, the event
    type and the listener's name (["anonymous"] when it has none),
    joined by dashes.  Hence for two listeners with the same name, or
    both without one, on targets of the same constructor and for the
    same event type, the second [addEventListener] registers nothing:
    no call reaches the target, the registry is unchanged and the
    listener count stays the same. *)
Theorem addEventListener_dedup_by_name (this : EventListenerManager)
    (t1 t2 : EventTarget) (type : string) (l1 l2 : Listener)
    (o1 o2 : ListenerOptions) :
  getListenerKey t1 type l1
  = constructorName t1 +:+ "-" +:+ type +:+ "-"
    +:+ (if String.eqb (listenerName l1) EmptyString then "anonymous"
         else listenerName l1) /\
  (constructorName t1 = constructorName t2 ->
   listenerName l1 = listenerName l2 ->
   let registered := fst (addEventListener t1 type l1 o1 this) in
   addEventListener t2 type l2 o2 registered = (registered, []) /\
   getListenerCount (fst (addEventListener t2 type l2 o2 registered))
   = getListenerCount registered).
Proof.
  split; [reflexivity|].
  intros Hctor Hname registered.
  assert (Hkey : getListenerKey t2 type l2 = getListenerKey t1 type l1).
  { unfold getListenerKey, nameOrAnonymous. rewrite Hctor, Hname. reflexivity. }
  assert (Hreg : is_Some (listeners registered !! getListenerKey t1 type l1)).
  { unfold registered, addEventListener.
    destruct (listeners this !! getListenerKey t1 type l1) eqn:Hl; simpl.
    - rewrite Hl. eauto.
    - rewrite lookup_insert_eq. eauto. }
  assert (Hadd : addEventListener t2 type l2 o2 registered = (registered, [])).
  { unfold addEventListener. rewrite Hkey. destruct Hreg as [i Hi]. rewrite Hi.
    reflexivity. }
  rewrite Hadd. split; reflexivity.
Qed.

Lemma addEventListener_dedup_by_name_witness :
  let button1 := {| target_ref := 1; constructorName := "HTMLButtonElement" |} in
  let button2 := {| target_ref := 2; constructorName := "HTMLButtonElement" |} in
  let arrow1 := {| listener_ref := 10; listenerName := EmptyString |} in
  let arrow2 := {| listener_ref := 11; listenerName := EmptyString |} in
  let registered := fst (addEventListener button1 "click" arrow1 [] newEventListenerManager) in
  getListenerKey button1 "click" arrow1 = "HTMLButtonElement-click-anonymous" /\
  addEventListener button2 "click" arrow2 [] registered = (registered, []) /\
  getListenerCount registered = 1.
Proof.
  intros button1 button2 arrow1 arrow2 registered.
  destruct (addEventListener_dedup_by_name newEventListenerManager
              button1 button2 "click" arrow1 arrow2 [] [])
    as (Hkey & Hdedup).
  split; [exact Hkey|].
  destruct Hdedup as (Hadd & _); [reflexivity | reflexivity |].
  split; [exact Hadd | reflexivity].
Defined.

(** ** DeleteOrchestrator *)

(** [executeDelete] always completes: the retry recursion is bounded. *)
Lemma executeDelete_total {W : Type} (options : HookOptions W) (projectId : string)
    (projectData : option Project) (updateStateCallback : option Callback)
    (clock : Clock) (h : HookState) (w : W) :
  exists ok h' w' log,
    executeDelete options projectId projectData updateStateCallback clock h w
    = Some (ok, h', w', log).
Proof.
  unfold executeDelete.
  destruct (match enableOptimisticUpdates options, projectData, updateStateCallback with
            | true, Some data, Some callback =>
                optimisticDelete projectId data callback (optimisticManager h)
            | _, _, _ => (optimisticManager h, [])
            end) as [optimistic1 log1].
  destruct (enableRetry options).
  - destruct (retryDelete_total (retryManager h) (deleteFunction options) projectId 0 w)
      as (r & w' & log & Hrun).
    rewrite Hrun.
    destruct r as [v|e]; [destruct (truthy v)|];
      try destruct (if enableOptimisticUpdates options
                    then rollbackDelete projectId optimistic1
                    else (optimistic1, [])); eauto.
  - destruct (deleteFunction options projectId w) as [r w'].
    destruct r as [v|e]; [destruct (truthy v)|];
      try destruct (if enableOptimisticUpdates options
                    then rollbackDelete projectId optimistic1
                    else (optimistic1, [])); eauto.
Qed.

(** C1, as the code has it. In the end-to-end scenario (default
    options, id ["p1"], the Roof Repair snapshot, an operation that
    rejects three times with [Error("network timeout")] and then
    resolves [true]), for any clock readings and any state of the
    shared leak detector: the run returns [true]; the optimistic
    removal is the only removal and happens before the first call of
    the operation; there is no reinsertion; the operation is called 4
    times; afterwards [isDeleting("p1")] is [false], the success
    callback has fired once with the id and the snapshot, and
    [getDeleteError("p1")] is [null], the value [executeDelete] stores
    when it starts. *)
Theorem executeDelete_scenario (clock : Clock) (detector : MemoryLeakDetector) :
  scenarioOutcome (Some Null)
    (executeDelete scenarioOptions "p1" (Some roofRepair) (Some updateFn) clock
       (useEnhancedDelete scenarioOptions detector) 0).
Proof.
  unfold scenarioOutcome. eexists _, _, _.
  split; [reflexivity|].
  split; [reflexivity|].
  split.
  { exists [PerfStart "delete-project-p1"]. eexists. split; reflexivity. }
  split; [reflexivity|]. split; [reflexivity|]. split; [reflexivity|].
  split; [reflexivity|]. split; [reflexivity|].
  simpl. tauto.
Qed.

(** C1, as stated, fails on the code: after the scenario
    [getDeleteError("p1")] is [null], not [undefined]. *)
Lemma executeDelete_scenario_not_undefined : ~ scenarioOutcome None scenarioRun.
Proof.
  intros (h & w & log & Hrun & _ & _ & _ & _ & _ & Herr & _).
  vm_compute in Hrun. injection Hrun as <- _ _.
  vm_compute in Herr. discriminate Herr.
Qed.

(* ===================================================================== *)
(** * Part III: further properties of the code *)
(* ===================================================================== *)

(** ** RetryPolicy: the shape of every run *)

Lemma afterCalls_S {W : Type} (f : DeleteFunction W) (projectId : string) (n : nat) (w : W) :
  afterCalls f projectId (S n) w = afterCalls f projectId n (snd (f projectId w)).
Proof. unfold afterCalls. rewrite Nat.iter_succ_r. reflexivity. Qed.

Lemma backoffSchedule_S (baseDelay : Z) (attempt n : nat) :
  backoffSchedule baseDelay attempt (S n)
  = (baseDelay * 2 ^ Z.of_nat attempt)%Z :: backoffSchedule baseDelay (attempt + 1) n.
Proof.
  unfold backoffSchedule. simpl. rewrite Nat.add_0_r. f_equal.
  rewrite <- seq_shift, map_map. apply map_ext. intros j. do 3 f_equal. lia.
Qed.

Lemma retryDelete_run {W : Type} (this : DeleteRetryManager) (f : DeleteFunction W)
    (projectId : string) (k : nat) :
  forall attempt w,
    maxRetries this - attempt = k ->
    exists r w' log n,
      retryDelete this f projectId attempt w = Some (r, w', log) /\
      invocations log = S n /\ n <= k /\
      f projectId (afterCalls f projectId n w) = (r, w') /\
      sleeps log = backoffSchedule (baseDelay this) attempt n /\
      (forall j, j < n ->
         exists e, fst (f projectId (afterCalls f projectId j w)) = Rejected e /\
                   isRetryable e = true).
Proof.
  induction k as [|k IH]; intros attempt w Hk.
  - destruct (f projectId w) as [[v|e] w'] eqn:Hf.
    + exists (Resolved v), w', [DeleteCall projectId], 0.
      rewrite (retryDelete_resolved _ _ _ _ _ _ _ Hf).
      repeat split; auto. intros j Hj. lia.
    + exists (Rejected e), w', [DeleteCall projectId], 0.
      rewrite (retryDelete_stop _ _ _ _ _ _ _ Hf).
      * repeat split; auto. intros j Hj. lia.
      * apply andb_false_iff. right. apply Nat.ltb_ge. lia.
  - destruct (f projectId w) as [[v|e] w'] eqn:Hf.
    + exists (Resolved v), w', [DeleteCall projectId], 0.
      rewrite (retryDelete_resolved _ _ _ _ _ _ _ Hf).
      repeat split; auto; [lia|]. intros j Hj. lia.
    + destruct (isRetryable e) eqn:Hre.
      * destruct (IH (attempt + 1) w') as (r & w'' & log & n & Hrun & Hn & Hle & Hlast & Hsl & Hearlier);
          [lia|].
        exists r, w''. eexists. exists (S n).
        rewrite (retryDelete_retry _ _ _ _ _ _ _ Hf Hre) by lia. rewrite Hrun.
        split; [reflexivity|].
        split; [rewrite invocations_retry, Hn; reflexivity|].
        split; [lia|].
        split; [rewrite afterCalls_S, Hf; exact Hlast|].
        split.
        { rewrite backoffSchedule_S. simpl. f_equal. exact Hsl. }
        intros [|j] Hj.
        { exists e. simpl. rewrite Hf. auto. }
        rewrite afterCalls_S, Hf. apply Hearlier. lia.
      * exists (Rejected e), w', [DeleteCall projectId], 0.
        rewrite (retryDelete_stop _ _ _ _ _ _ _ Hf) by (rewrite Hre; reflexivity).
        repeat split; auto; [lia|]. intros j Hj. lia.
Qed.

(** X1. Every run of [retryDelete] settles, after at least one and at
    most [1 + (maxRetries - attempt)] calls of the operation; what it
    returns, value or error, is what the last call settled to, and
    every earlier call was rejected with an error the policy calls
    retryable. *)
Theorem retryDelete_bounded {W : Type} (this : DeleteRetryManager)
    (f : DeleteFunction W) (projectId : string) (attempt : nat) (w : W) :
  exists r w' log n,
    retryDelete this f projectId attempt w = Some (r, w', log) /\
    invocations log = S n /\
    n <= maxRetries this - attempt /\
    f projectId (afterCalls f projectId n w) = (r, w') /\
    (forall j, j < n ->
       exists e, fst (f projectId (afterCalls f projectId j w)) = Rejected e /\
                 isRetryable e = true).
Proof.
  destruct (retryDelete_run this f projectId _ attempt w eq_refl)
    as (r & w' & log & n & Hrun & Hn & Hle & Hlast & _ & Hearlier).
  exists r, w', log, n. auto.
Qed.

(** X2. Exponential back-off: between consecutive calls [retryDelete]
    waits [baseDelay * 2^attempt], then [baseDelay * 2^(attempt+1)],
    and so on, one wait less than there are calls. *)
Theorem retryDelete_backoff {W : Type} (this : DeleteRetryManager)
    (f : DeleteFunction W) (projectId : string) (attempt : nat) (w : W) :
  exists r w' log,
    retryDelete this f projectId attempt w = Some (r, w', log) /\
    sleeps log = backoffSchedule (baseDelay this) attempt (invocations log - 1) /\
    length (sleeps log) = invocations log - 1.
Proof.
  destruct (retryDelete_run this f projectId _ attempt w eq_refl)
    as (r & w' & log & n & Hrun & Hn & _ & _ & Hsl & _).
  exists r, w', log. rewrite Hn, Hsl. simpl. rewrite Nat.sub_0_r.
  repeat split; auto. unfold backoffSchedule. rewrite length_map, length_seq. reflexivity.
Qed.

Lemma default_isRetryable (e : JsError) :
  getErrorType e = default_type -> isRetryable e = true.
Proof. intros He. unfold isRetryable, handleDeleteError. rewrite He. reflexivity. Qed.

Lemma timeout_isRetryable (e : JsError) :
  getErrorType e = timeout -> isRetryable e = true.
Proof. intros He. unfold isRetryable, handleDeleteError. rewrite He. reflexivity. Qed.

(** X3. The policy retries exactly the categories network, timeout and
    default, whatever the title; so an operation that keeps failing
    with an error the classifier does not recognise is called
    [1 + maxRetries] times, like one that keeps failing with a network
    error. *)
Theorem unclassified_errors_are_retried {W : Type} (this : DeleteRetryManager)
    (f : DeleteFunction W) (projectId : string) (w : W) :
  (forall e title,
      retryable (handleDeleteError e title)
      = match getErrorType e with
        | network | timeout | default_type => true
        | permission | not_found | conflict => false
        end) /\
  (alwaysRejectsAs default_type f projectId ->
   exists e w' log,
     retryDelete this f projectId 0 w = Some (Rejected e, w', log) /\
     invocations log = 1 + maxRetries this).
Proof.
  split.
  - intros e title. unfold handleDeleteError. destruct (getErrorType e); reflexivity.
  - intros Hall.
    destruct (retryDelete_exhausts this f projectId (maxRetries this) 0 w)
      as (e & log & _ & Hrun & Hcount); [|lia|lia|].
    + intros w0. destruct (Hall w0) as (e & He & Hdef). exists e. split; [exact He|].
      apply default_isRetryable. exact Hdef.
    + eexists _, _, _. split; [exact Hrun | exact Hcount].
Qed.

Lemma unclassified_errors_are_retried_witness :
  exists e w' log,
    retryDelete (newDeleteRetryManager None None)
      (scripted [] (Rejected (Error "boom"))) "p1" 0 0
    = Some (Rejected e, w', log) /\
    invocations log = 4.
Proof.
  destruct (unclassified_errors_are_retried (newDeleteRetryManager None None)
              (scripted [] (Rejected (Error "boom"))) "p1" 0) as (_ & Hrun).
  apply Hrun. intros n. exists (Error "boom"). destruct n; split; reflexivity.
Defined.

(** ** DeleteOrchestrator: every run *)

Lemma deleteAttempt_total {W : Type} (options : HookOptions W) (h : HookState)
    (projectId : string) (w : W) :
  exists settled w' log, deleteAttempt options h projectId w = Some (settled, w', log).
Proof.
  unfold deleteAttempt. destruct (enableRetry options).
  - apply retryDelete_total.
  - destruct (deleteFunction options projectId w) as [r w']. eauto.
Qed.

(** [executeDelete], field by field. *)
Lemma executeDelete_fields {W : Type} (options : HookOptions W) (projectId : string)
    (projectData : option Project) (updateStateCallback : option Callback)
    (clock : Clock) (h : HookState) (w : W) :
  exists settled w' log2 h' log,
    deleteAttempt options h projectId w = Some (settled, w', log2) /\
    executeDelete options projectId projectData updateStateCallback clock h w
    = Some (bool_decide (caughtError settled = None), h', w', log) /\
    let start := optimisticStart options projectId projectData updateStateCallback
                   (optimisticManager h) in
    let rolled := if enableOptimisticUpdates options
                  then rollbackDelete projectId (fst start) else (fst start, []) in
    deletingStates h' = <[projectId := false]> (<[projectId := true]> (deletingStates h)) /\
    deleteErrors h'
    = match caughtError settled with
      | None => <[projectId := Null]> (deleteErrors h)
      | Some e => <[projectId := NonNull (handleDeleteError e (titleOf projectData))]>
                    (<[projectId := Null]> (deleteErrors h))
      end /\
    optimisticManager h'
    = match caughtError settled with
      | None => confirmDelete projectId (fst start)
      | Some _ => fst rolled
      end /\
    retryManager h' = retryManager h /\
    statsManager h'
    = match caughtError settled with
      | None => recordSuccess (finishedAt clock) (startedAt clock) (statsManager h)
      | Some e => recordFailure (finishedAt clock) (startedAt clock) e (statsManager h)
      end /\
    memoryLeakDetector h'
    = untrackSnapshot projectData
        (trackSnapshot (trackedAt clock) projectData (memoryLeakDetector h)) /\
    log
    = [PerfStart ("delete-project-" +:+ projectId)] ++ snd start ++ log2
      ++ match caughtError settled with
         | None =>
             [PerfEnd ("delete-project-" +:+ projectId)]
             ++ (if onSuccess options then [OnSuccess projectId projectData] else [])
         | Some e =>
             [ConsoleError e] ++ snd rolled
             ++ [PerfEnd ("delete-project-" +:+ projectId)]
             ++ (if onError options
                 then [OnError projectId e (handleDeleteError e (titleOf projectData))]
                 else [])
         end.
Proof.
  destruct (deleteAttempt_total options h projectId w) as (settled & w' & log2 & Hattempt).
  exists settled, w', log2.
  unfold executeDelete.
  change (if enableRetry options
          then retryDelete (retryManager h) (deleteFunction options) projectId 0 w
          else let '(r, w'0) := deleteFunction options projectId w in
               Some (r, w'0, [DeleteCall projectId]))
    with (deleteAttempt options h projectId w).
  change (match enableOptimisticUpdates options with
          | true =>
              match projectData with
              | Some data =>
                  match updateStateCallback with
                  | Some callback =>
                      optimisticDelete projectId data callback (optimisticManager h)
                  | None => (optimisticManager h, [])
                  end
              | None => (optimisticManager h, [])
              end
          | false => (optimisticManager h, [])
          end)
    with (optimisticStart options projectId projectData updateStateCallback
            (optimisticManager h)).
  destruct (optimisticStart options projectId projectData updateStateCallback
              (optimisticManager h)) as [optimistic1 log1].
  rewrite Hattempt. simpl.
  destruct settled as [v|e]; simpl; [destruct (truthy v); simpl|];
    try (destruct (if enableOptimisticUpdates options
                   then rollbackDelete projectId optimistic1 else (optimistic1, []))
           as [optimistic2 log3]);
    (eexists _, _; split; [reflexivity|]; simpl; repeat split;
     try (destruct projectData; reflexivity);
     try (rewrite <- !app_assoc; reflexivity)).
Qed.




Lemma retryDeleteWithin_events {W : Type} (this : DeleteRetryManager)
    (f : DeleteFunction W) (projectId : string) (depth : nat) :
  forall attempt w r w' log,
    retryDeleteWithin depth this f projectId attempt w = Some (r, w', log) ->
    Forall (fun e => isRetryEvent e = true) log.
Proof.
  induction depth as [|depth IH]; intros attempt w r w' log Hrun; [discriminate|].
  simpl in Hrun. destruct (f projectId w) as [[v|e] w0].
  - injection Hrun as _ _ <-. repeat constructor.
  - destruct (retryable (handleDeleteError e EmptyString) && (attempt <? maxRetries this)%nat).
    + destruct (retryDeleteWithin depth this f projectId (attempt + 1) w0)
        as [[[r0 w1] log0]|] eqn:Hrec; [|discriminate].
      injection Hrun as _ _ <-. repeat constructor. eapply IH. exact Hrec.
    + injection Hrun as _ _ <-. repeat constructor.
Qed.

Lemma deleteAttempt_events {W : Type} (options : HookOptions W) (h : HookState)
    (projectId : string) (w : W) (settled : Settled) (w' : W) (log : list Event) :
  deleteAttempt options h projectId w = Some (settled, w', log) ->
  Forall (fun e => isRetryEvent e = true) log.
Proof.
  unfold deleteAttempt. destruct (enableRetry options).
  - apply retryDeleteWithin_events.
  - destruct (deleteFunction options projectId w). intros H. injection H as _ _ <-.
    repeat constructor.
Qed.



(** X4. Whatever the options, the arguments, the prior state and the
    outcome, [executeDelete] completes and leaves the deleting mark of
    its id cleared; the marks of all other ids and the retry
    configuration are as before. *)
Theorem executeDelete_clears_deleting {W : Type} (options : HookOptions W)
    (projectId : string) (projectData : option Project)
    (updateStateCallback : option Callback) (clock : Clock) (h : HookState) (w : W) :
  exists ok h' w' log,
    executeDelete options projectId projectData updateStateCallback clock h w
    = Some (ok, h', w', log) /\
    isDeleting projectId h' = false /\
    (forall other, other <> projectId -> isDeleting other h' = isDeleting other h) /\
    retryManager h' = retryManager h.
Proof.
  destruct (executeDelete_fields options projectId projectData updateStateCallback clock h w)
    as (settled & w' & log2 & h' & log & _ & Hrun & Hdel & _ & _ & Hretry & _).
  eexists _, h', w', log. split; [exact Hrun|].
  unfold isDeleting. rewrite Hdel. split; [rewrite lookup_insert_eq; reflexivity|].
  split; [|exact Hretry].
  intros other Hne. rewrite !lookup_insert_ne by congruence. reflexivity.
Qed.




Lemma stateUpdates_app (a b : list Event) :
  stateUpdates (a ++ b) = stateUpdates a ++ stateUpdates b.
Proof. apply List.filter_app. Qed.

Lemma stateUpdates_retry_events (log : list Event) :
  Forall (fun e => isRetryEvent e = true) log -> stateUpdates log = [].
Proof.
  unfold stateUpdates. induction 1 as [|e log He _ IH]; simpl; [reflexivity|].
  destruct e; try discriminate; exact IH.
Qed.

Lemma b2n_count (b : bool) (e : Event) (p : Event -> bool) :
  p e = true -> count p (if b then [e] else []) = if b then 1 else 0.
Proof. intros Hp. destruct b; unfold count; simpl; [rewrite Hp|]; reflexivity. Qed.




(** X8. Called without an update callback, as [EnhancedProjectTable]
    calls it, [executeDelete] never touches the caller's collection,
    whatever the outcome, provided no record for the id was pending. *)
Theorem executeDelete_without_callback {W : Type} (options : HookOptions W)
    (projectId : string) (projectData : option Project)
    (clock : Clock) (h : HookState) (w : W) :
  ~ pending projectId (optimisticManager h) ->
  exists ok h' w' log,
    executeDelete options projectId projectData None clock h w = Some (ok, h', w', log) /\
    stateUpdates log = [] /\
    ~ pending projectId (optimisticManager h').
Proof.
  intros Hnp.
  destruct (executeDelete_fields options projectId projectData None clock h w)
    as (settled & w' & log2 & h' & log & Hattempt & Hrun & _ & _ & Hmgr & _ & _ & _ & Hlog).
  pose proof (deleteAttempt_events _ _ _ _ _ _ _ Hattempt) as Hev.
  eexists _, h', w', log. split; [exact Hrun|].
  assert (Hstart : optimisticStart options projectId projectData None (optimisticManager h)
                   = (optimisticManager h, [])).
  { unfold optimisticStart. destruct (enableOptimisticUpdates options), projectData; reflexivity. }
  rewrite Hstart in Hmgr, Hlog. simpl in Hmgr, Hlog.
  assert (Hroll : (if enableOptimisticUpdates options
                   then rollbackDelete projectId (optimisticManager h)
                   else (optimisticManager h, []))
                  = (optimisticManager h, [])).
  { destruct (enableOptimisticUpdates options); [|reflexivity].
    apply rollbackDelete_not_pending. exact Hnp. }
  rewrite Hroll in Hmgr, Hlog. simpl in Hmgr, Hlog.
  split.
  - rewrite Hlog. change (PerfStart ("delete-project-" +:+ projectId) :: log2 ++ ?x)
      with ([PerfStart ("delete-project-" +:+ projectId)] ++ log2 ++ x).
    rewrite (stateUpdates_app [_]), stateUpdates_app, (stateUpdates_retry_events log2 Hev).
    destruct (caughtError settled).
    + destruct (onError options); reflexivity.
    + destruct (onSuccess options); reflexivity.
  - rewrite Hmgr. destruct (caughtError settled); [exact Hnp|].
    unfold pending in *. simpl. intros [d Hd].
    apply Hnp. exists d. destruct (decide (projectId = projectId)) as [_|Hne]; [|congruence].
    rewrite lookup_delete_eq in Hd. discriminate.
Qed.

Lemma executeDelete_without_callback_witness :
  exists ok h' w' log,
    executeDelete scenarioOptions "p1" (Some roofRepair) None scenarioClock
      (useEnhancedDelete scenarioOptions newMemoryLeakDetector) 0
    = Some (ok, h', w', log) /\
    stateUpdates log = [].
Proof.
  destruct (executeDelete_without_callback scenarioOptions "p1" (Some roofRepair) scenarioClock
              (useEnhancedDelete scenarioOptions newMemoryLeakDetector) 0)
    as (ok & h' & w' & log & Hrun & Hupd & _).
  - unfold pending. simpl. rewrite lookup_empty. intros [? ?]. discriminate.
  - exists ok, h', w', log. auto.
Defined.


Lemma counterOf_mapSet_ne (k tag : string) (v : Z) (this : MemoryLeakDetector) :
  k <> tag ->
  default 0%Z (mapGet tag (mapSet k v (counters this))) = counterOf tag this.
Proof. intros Hne. unfold counterOf. rewrite mapGet_mapSet_ne by exact Hne. reflexivity. Qed.

Lemma track_untrack_counters (now : Z) (obj : nat) (type tag : string)
    (this : MemoryLeakDetector) :
  countersNonNegative this ->
  counterOf tag (untrackObject obj (trackObject now obj type this)) = counterOf tag this.
Proof.
  intros Hinv.
  assert (Href : references (trackObject now obj type this) !! obj
                 = Some {| ref_type := type; createdAt := now |})
    by (simpl; apply lookup_insert_eq).
  destruct (String.eqb_spec type tag) as [<-|Hne].
  - pose proof (counterOf_untrackObject _ _ _ Href) as Hu.
    change (ref_type {| ref_type := type; createdAt := now |}) with type in Hu.
    rewrite Hu, counterOf_trackObject.
    pose proof (counterOf_nonneg type this Hinv). lia.
  - unfold untrackObject. rewrite Href.
    unfold counterOf at 1. cbn [counters ref_type trackObject].
    rewrite !mapGet_mapSet_ne by exact Hne. reflexivity.
Qed.






(** ** The transformations on the caller's collection *)

Lemma filter_complement_Permutation {A : Type} (p : A -> bool) (l : list A) :
  List.filter (fun x => negb (p x)) l ++ List.filter p l ≡ₚ l.
Proof.
  induction l as [|x l IH]; simpl; [reflexivity|].
  destruct (p x); simpl.
  - rewrite <- Permutation_middle. constructor. exact IH.
  - constructor. exact IH.
Qed.

(** X12. Rollback undoes the optimistic removal: if the collection
    held the snapshot as its only element with that id, removing the
    id and then reinserting the snapshot gives back the same projects
    (possibly in another order). *)
Theorem remove_then_restore (projectId : string) (data : Project) (prev : list Project) :
  List.filter (hasId projectId) prev = [data] ->
  applyUpdater (RestoreProject projectId data) (applyUpdater (RemoveProject projectId) prev)
  ≡ₚ prev.
Proof.
  intros Honly.
  rewrite restore_inserts by apply removal_removes.
  simpl. rewrite <- Honly. apply filter_complement_Permutation.
Qed.

Lemma remove_then_restore_witness :
  let other := {| obj_ref := 3; project_id := "p2"; project_title := "Fence";
                  created_at := None |} in
  applyUpdater (RestoreProject "p1" roofRepair)
    (applyUpdater (RemoveProject "p1") [roofRepair; other])
  ≡ₚ [roofRepair; other].
Proof.
  intros other. apply (remove_then_restore "p1" roofRepair [roofRepair; other]).
  reflexivity.
Defined.

Lemma sortsAfter_dated (x y : Project) :
  hasDate x -> hasDate y -> sortsAfter x y = (timeOf x <? timeOf y)%Z.
Proof.
  unfold hasDate, sortsAfter, compareCreatedAt, timeOf.
  intros [tx Hx] [ty Hy]. rewrite Hx, Hy. simpl.
  destruct (Z.ltb_spec 0 (ty - tx)), (Z.ltb_spec tx ty); auto; lia.
Qed.

Lemma insertSorted_newestFirst (x : Project) (l : list Project) :
  hasDate x -> Forall hasDate l -> newestFirst l -> newestFirst (insertSorted x l).
Proof.
  unfold newestFirst. intros Hx Hl Hs. induction Hs as [|y l Hs IH Hy]; simpl.
  - repeat constructor.
  - apply Forall_cons in Hl as [Hdy Hl].
    rewrite sortsAfter_dated by assumption.
    destruct (Z.ltb_spec (timeOf x) (timeOf y)) as [Hlt|Hge].
    + constructor; [apply IH; exact Hl|].
      rewrite (insertSorted_Permutation x l). constructor; [lia | exact Hy].
    + constructor; [constructor; assumption|].
      constructor; [exact Hge|].
      eapply Forall_impl; [exact Hy|]. intros z Hz. simpl in Hz. lia.
Qed.

Lemma insertSorted_hasDate (x : Project) (l : list Project) :
  hasDate x -> Forall hasDate l -> Forall hasDate (insertSorted x l).
Proof.
  intros Hx Hl. rewrite (insertSorted_Permutation x l). constructor; assumption.
Qed.

Lemma sortByCreatedAt_dated (l : list Project) :
  Forall hasDate l -> newestFirst (sortByCreatedAt l) /\ Forall hasDate (sortByCreatedAt l).
Proof.
  induction 1 as [|x l Hx Hl [IHs IHd]]; simpl.
  - split; constructor.
  - split; [apply insertSorted_newestFirst | apply insertSorted_hasDate]; assumption.
Qed.

Lemma insertSorted_head (x : Project) (l : list Project) :
  Forall (fun y => sortsAfter x y = false) l -> insertSorted x l = x :: l.
Proof. intros H. destruct H as [|y l Hy _]; simpl; [reflexivity|]. rewrite Hy. reflexivity. Qed.

(** X13. The reinsertion sorts by date, newest first: when every
    project of the collection and the snapshot have a valid date, the
    collection after a reinsertion is ordered newest first, and a
    collection that already was is not reordered by the sort. *)
Theorem restore_sorts_newest_first (projectId : string) (data : Project)
    (prev : list Project) :
  Forall hasDate prev -> hasDate data ->
  existsb (hasId projectId) prev = false ->
  newestFirst (applyUpdater (RestoreProject projectId data) prev) /\
  (newestFirst prev -> sortByCreatedAt prev = prev).
Proof.
  intros Hprev Hdata Habsent. split.
  - simpl. rewrite Habsent. simpl. apply sortByCreatedAt_dated.
    apply Forall_app. split; [exact Hprev | repeat constructor; exact Hdata].
  - intros Hsorted. unfold newestFirst in Hsorted.
    induction Hsorted as [|x l Hs IH Hx]; simpl; [reflexivity|].
    apply Forall_cons in Hprev as [Hdx Hl].
    rewrite IH by (try exact Hl; destruct (existsb (hasId projectId) l) eqn:E; auto;
                   simpl in Habsent; rewrite E, orb_true_r in Habsent; discriminate).
    apply insertSorted_head.
    rewrite Forall_forall in Hx, Hl. apply Forall_forall. intros y Hy.
    rewrite sortsAfter_dated by auto. apply Z.ltb_ge. apply Hx. exact Hy.
Qed.

Lemma restore_sorts_newest_first_witness :
  let older := {| obj_ref := 3; project_id := "p2"; project_title := "Fence";
                  created_at := Some 10%Z |} in
  let newer := {| obj_ref := 4; project_id := "p3"; project_title := "Porch";
                  created_at := Some 30%Z |} in
  let middle := {| obj_ref := 5; project_id := "p1"; project_title := "Roof Repair";
                   created_at := Some 20%Z |} in
  newestFirst (applyUpdater (RestoreProject "p1" middle) [newer; older]) /\
  applyUpdater (RestoreProject "p1" middle) [newer; older] = [newer; middle; older].
Proof.
  intros older newer middle.
  destruct (restore_sorts_newest_first "p1" middle [newer; older]) as (Hsorted & _).
  - repeat constructor; eexists; reflexivity.
  - eexists; reflexivity.
  - reflexivity.
  - split; [exact Hsorted | reflexivity].
Defined.

Lemma insertSorted_undated (x : Project) (l : list Project) :
  Forall (fun p => created_at p = None) l -> insertSorted x l = x :: l.
Proof.
  intros H. apply insertSorted_head. eapply Forall_impl; [exact H|].
  intros y Hy. unfold sortsAfter, compareCreatedAt. simpl in Hy. rewrite Hy. reflexivity.
Qed.

(** X14. Without dates there is no original position to return to:
    when no project in the collection carries a valid date, the
    reinsertion appends the snapshot at the end and keeps the order of
    the others, whatever the snapshot's own date. *)
Theorem restore_appends_without_dates (projectId : string) (data : Project)
    (prev : list Project) :
  Forall (fun p => created_at p = None) prev ->
  existsb (hasId projectId) prev = false ->
  applyUpdater (RestoreProject projectId data) prev = prev ++ [data].
Proof.
  intros Hnone Habsent. simpl. rewrite Habsent. simpl. clear Habsent.
  induction Hnone as [|x l Hx Hl IH]; simpl; [reflexivity|].
  rewrite IH. destruct l as [|y l']; simpl.
  - unfold sortsAfter, compareCreatedAt. rewrite Hx.
    destruct (created_at data); reflexivity.
  - unfold sortsAfter, compareCreatedAt. rewrite Hx.
    destruct (created_at y); reflexivity.
Qed.

Lemma restore_appends_without_dates_witness :
  let other := {| obj_ref := 3; project_id := "p2"; project_title := "Fence";
                  created_at := None |} in
  applyUpdater (RestoreProject "p1" roofRepair) [other] = [other; roofRepair].
Proof.
  intros other. apply (restore_appends_without_dates "p1" roofRepair [other]).
  - repeat constructor.
  - reflexivity.
Defined.

(** ** DeleteStatisticsCollector: invariants *)

Lemma failuresOf_cons (t : ErrorType) (s : Sample) (samples : list Sample) :
  failuresOf t (s :: samples)
  = (match s with
     | Failure _ _ e => if String.eqb (typeName (getErrorType e)) (typeName t) then 1 else 0
     | Success _ _ => 0
     end) + failuresOf t samples.
Proof.
  unfold failuresOf. simpl. destruct s as [? ?|? ? e]; [reflexivity|].
  destruct (String.eqb (typeName (getErrorType e)) (typeName t)); reflexivity.
Qed.

Lemma failures_by_category (samples : list Sample) :
  foldr Nat.add 0 (map (fun t => failuresOf t samples) categories)
  = length (List.filter (fun s => negb (isSuccess s)) samples).
Proof.
  induction samples as [|s samples IH]; [reflexivity|].
  unfold categories in *. simpl map in *. rewrite !failuresOf_cons.
  simpl foldr in *. destruct s as [? ?|? ? e]; simpl.
  - exact IH.
  - rewrite <- IH. destruct (getErrorType e); simpl; lia.
Qed.

(** X15. The counters of the statistics manager stay consistent: after
    any sequence of recordings on a fresh manager, [totalDeletes] is
    the sum of [successfulDeletes] and [failedDeletes] and the length
    of the sample history, and [failedDeletes] is the sum of the six
    per-category counts. *)
Theorem stats_counters_consistent (samples : list Sample) :
  let st := recordAll samples newStats in
  totalDeletes st = successfulDeletes st + failedDeletes st /\
  length (responseTimes st) = totalDeletes st /\
  failedDeletes st
  = foldr Nat.add 0 (map (fun t => default 0 (errorTypes st !! typeName t)) categories).
Proof.
  intros st. unfold st.
  destruct (totals_recordAll samples newStats) as (Ht & Hs & Hf).
  split; [rewrite Ht, Hs, Hf; simpl; apply filter_split_length|].
  split; [rewrite Ht, responseTimes_recordAll; simpl; apply length_map|].
  rewrite Hf. change (failedDeletes newStats) with 0.
  rewrite Nat.add_0_l, <- failures_by_category. f_equal. apply map_ext. intros t.
  rewrite errorTypes_recordAll. simpl. rewrite lookup_empty. reflexivity.
Qed.

Lemma toFixed1_Qeq (x y : Q) :
  (0 <= x)%Q -> (x == y)%Q -> toFixed1 x = toFixed1 y.
Proof.
  intros Hx Hxy. unfold toFixed1.
  assert (Hy : (0 <= y)%Q) by (rewrite <- Hxy; exact Hx).
  replace (Qnum x <? 0)%Z with false
    by (symmetry; apply Z.ltb_ge; unfold Qle in Hx; simpl in Hx; lia).
  replace (Qnum y <? 0)%Z with false
    by (symmetry; apply Z.ltb_ge; unfold Qle in Hy; simpl in Hy; lia).
  assert (Hfloor : Qfloor (Qabs x * 10 + (1 # 2)) = Qfloor (Qabs y * 10 + (1 # 2))).
  { apply Qfloor_comp. rewrite Hxy. reflexivity. }
  rewrite Hfloor. reflexivity.
Qed.

(** X16. The extremes of the success rate: when every recorded delete
    succeeded [getStats] reports ["100.0"], and when none did (but
    some were recorded) it reports ["0.0"]. *)
Theorem successRate_extremes (st : Stats) :
  0 < totalDeletes st ->
  (successfulDeletes st = totalDeletes st -> successRate (getStats st) = RateString "100.0") /\
  (successfulDeletes st = 0 -> successRate (getStats st) = RateString "0.0").
Proof.
  intros Hpos. unfold getStats. simpl.
  replace (0 <? totalDeletes st)%nat with true by (symmetry; apply Nat.ltb_lt; exact Hpos).
  split; intros Hs; rewrite Hs; apply (f_equal RateString); unfold double_div.
  - rewrite (roundDouble_comp _ 1); [vm_compute; reflexivity|].
    field. intros H0. unfold Qeq in H0. simpl in H0. lia.
  - rewrite (roundDouble_comp _ 0); [vm_compute; reflexivity|].
    field. intros H0. unfold Qeq in H0. simpl in H0. lia.
Qed.

Lemma successRate_extremes_witness :
  successRate (getStats (recordAll [Success 5 0; Success 9 1] newStats)) = RateString "100.0" /\
  successRate (getStats (recordAll [Failure 5 0 (Error "offline")] newStats)) = RateString "0.0".
Proof.
  split.
  - apply (successRate_extremes (recordAll [Success 5 0; Success 9 1] newStats));
      [simpl; lia | reflexivity].
  - apply (successRate_extremes (recordAll [Failure 5 0 (Error "offline")] newStats));
      [simpl; lia | reflexivity].
Defined.

(** ** LeakDetector: threshold, pairing, status *)

Lemma trackAll_fresh (now : Z) (objs : list nat) (type : string) :
  objs <> [] ->
  counters (trackAll now objs type newMemoryLeakDetector)
  = [(type, Z.of_nat (length objs))].
Proof.
  destruct objs as [|o objs]; [congruence|]. intros _.
  change (trackAll now (o :: objs) type newMemoryLeakDetector)
    with (trackAll now objs type (trackObject now o type newMemoryLeakDetector)).
  rewrite (trackAll_counters now objs type _ 1%Z) by reflexivity.
  f_equal. f_equal. simpl length. lia.
Qed.

(** X17. The leak threshold is strict: on a fresh detector, tracking
    any number of objects under one tag makes [checkForLeaks] warn,
    once and with the exact count, when more than 100 were tracked,
    and not at all for 100 or fewer.  In general a warning is emitted
    for exactly the counters above 100. *)
Theorem checkForLeaks_threshold (this : MemoryLeakDetector) (now : Z)
    (objs : list nat) (type : string) (count : Z) :
  checkForLeaks (trackAll now objs type newMemoryLeakDetector)
  = (if (100 <? length objs)%nat
     then [ConsoleWarn (WarnLeak type (Z.of_nat (length objs)))] else []) /\
  (In (ConsoleWarn (WarnLeak type count)) (checkForLeaks this)
   <-> In (type, count) (counters this) /\ (100 < count)%Z).
Proof.
  split.
  - destruct objs as [|o objs]; [reflexivity|].
    unfold checkForLeaks. rewrite trackAll_fresh by discriminate.
    cbn [flat_map app].
    destruct (Nat.ltb_spec 100 (length (o :: objs))) as [Hlt|Hge].
    + replace (100 <? Z.of_nat (length (o :: objs)))%Z with true
        by (symmetry; apply Z.ltb_lt; lia).
      reflexivity.
    + replace (100 <? Z.of_nat (length (o :: objs)))%Z with false
        by (symmetry; apply Z.ltb_ge; lia).
      reflexivity.
  - unfold checkForLeaks. rewrite in_flat_map. split.
    + intros ([t c] & Hin & Hw). destruct (Z.ltb_spec 100 c) as [Hlt|Hge]; [|destruct Hw].
      destruct Hw as [Hw|[]]. injection Hw as -> ->. auto.
    + intros (Hin & Hlt). exists (type, count). split; [exact Hin|].
      replace (100 <? count)%Z with true by (symmetry; apply Z.ltb_lt; exact Hlt).
      left. reflexivity.
Qed.

Lemma untrackObject_untracked (obj : nat) (this : MemoryLeakDetector) :
  references this !! obj = None -> untrackObject obj this = this.
Proof. intros H. unfold untrackObject. rewrite H. reflexivity. Qed.

(** X18. Tracking and untracking pair up by object, not by call: the
    detector remembers one reference per object, so untracking an
    object that is not tracked changes nothing, a second untrack of
    the same object changes nothing, and an object tracked twice and
    untracked once leaves its tag's counter one higher than before,
    with no reference left to bring it down again. *)
Theorem untrackObject_pairs_by_object (this : MemoryLeakDetector) (now1 now2 : Z)
    (obj : nat) (type : string) :
  (references this !! obj = None -> untrackObject obj this = this) /\
  untrackObject obj (untrackObject obj this) = untrackObject obj this /\
  (countersNonNegative this ->
   let twice := trackObject now2 obj type (trackObject now1 obj type this) in
   counterOf type (untrackObject obj twice) = (counterOf type this + 1)%Z /\
   references (untrackObject obj twice) !! obj = None /\
   untrackObject obj (untrackObject obj twice) = untrackObject obj twice).
Proof.
  assert (Hgone : forall d, references (untrackObject obj d) !! obj = None).
  { intros d. unfold untrackObject. destruct (references d !! obj) eqn:E; simpl.
    - apply lookup_delete_eq.
    - exact E. }
  split; [apply untrackObject_untracked|].
  split; [apply untrackObject_untracked, Hgone|].
  intros Hinv twice.
  split.
  - unfold twice.
    rewrite (track_untrack_counters now2 obj type type (trackObject now1 obj type this))
      by (apply trackObject_nonneg; exact Hinv).
    apply counterOf_trackObject.
  - split; [apply Hgone | apply untrackObject_untracked, Hgone].
Qed.

Lemma untrackObject_pairs_by_object_witness :
  let twice := trackObject 2 7 "Row" (trackObject 1 7 "Row" newMemoryLeakDetector) in
  counterOf "Row" (untrackObject 7 twice) = 1%Z /\
  untrackObject 7 (untrackObject 7 twice) = untrackObject 7 twice.
Proof.
  intros twice.
  destruct (untrackObject_pairs_by_object newMemoryLeakDetector 1 2 7 "Row")
    as (_ & _ & Htwice).
  destruct Htwice as (Hcount & _ & Hagain); [constructor|].
  split; [exact Hcount | exact Hagain].
Defined.

Lemma mapSet_keys {V : Type} (k : string) (v : V) (m : list (string * V)) :
  map fst (mapSet k v m)
  = match mapGet k m with Some _ => map fst m | None => map fst m ++ [k] end.
Proof.
  induction m as [|[k' v'] m IH]; simpl; [reflexivity|].
  destruct (String.eqb_spec k' k) as [->|Hne]; simpl; [reflexivity|].
  rewrite IH. destruct (mapGet k m); reflexivity.
Qed.

Lemma mapGet_None_keys {V : Type} (k : string) (m : list (string * V)) :
  mapGet k m = None -> ~ In k (map fst m).
Proof.
  induction m as [|[k' v'] m IH]; simpl; [tauto|].
  destruct (String.eqb_spec k' k) as [->|Hne]; [discriminate|].
  intros H [Heq|Hin]; [congruence | exact (IH H Hin)].
Qed.

Lemma mapSet_NoDup {V : Type} (k : string) (v : V) (m : list (string * V)) :
  NoDup (map fst m) -> NoDup (map fst (mapSet k v m)).
Proof.
  intros Hnd. rewrite mapSet_keys. destruct (mapGet k m) eqn:Hk; [exact Hnd|].
  apply NoDup_app. split; [exact Hnd|]. split.
  - intros x Hx Hin. apply list_elem_of_In in Hx, Hin. destruct Hin as [<-|[]].
    exact (mapGet_None_keys _ _ Hk Hx).
  - apply NoDup_singleton.
Qed.

Lemma fromEntries_lookup (tag : string) (m : list (string * Z)) :
  forall status : gmap string Z,
    NoDup (map fst m) ->
    fold_left (fun s '(type, count) => <[type := count]> s) m status !! tag
    = match mapGet tag m with Some c => Some c | None => status !! tag end.
Proof.
  induction m as [|[k v] m IH]; intros status Hnd; simpl; [reflexivity|].
  apply NoDup_cons in Hnd as [Hk Hnd]. rewrite IH by exact Hnd.
  destruct (String.eqb_spec k tag) as [->|Hne].
  - destruct (mapGet tag m) eqn:Hg.
    + exfalso. apply Hk. apply list_elem_of_In.
      destruct (in_dec string_dec tag (map fst m)) as [Hin|Hnin]; [exact Hin|].
      exfalso. clear -Hg Hnin. induction m as [|[k' v'] m IH]; simpl in *; [discriminate|].
      destruct (String.eqb_spec k' tag) as [->|Hne]; [tauto|]. apply IH; tauto.
    + apply lookup_insert_eq.
  - destruct (mapGet tag m); [reflexivity|]. apply lookup_insert_ne. exact Hne.
Qed.

(** X19. [getTrackingStatus] reports the counters: on every detector
    reached from a fresh one by tracking and untracking, the tags are
    pairwise distinct and the status object maps each tag to the
    counter the detector holds for it (and has no other keys); a tag
    just tracked is reported with its count raised by one. *)
Theorem getTrackingStatus_reports_counters (this : MemoryLeakDetector) (now : Z)
    (obj : nat) (type : string) :
  distinctTags newMemoryLeakDetector /\
  (distinctTags this ->
   distinctTags (trackObject now obj type this) /\
   distinctTags (untrackObject obj this) /\
   (forall tag, getTrackingStatus this !! tag = mapGet tag (counters this)) /\
   getTrackingStatus (trackObject now obj type this) !! type
   = Some (counterOf type this + 1)%Z).
Proof.
  split; [constructor|]. intros Hnd.
  assert (Htrack : distinctTags (trackObject now obj type this)).
  { unfold distinctTags. simpl. apply mapSet_NoDup. exact Hnd. }
  assert (Hstatus : forall d, distinctTags d ->
                              forall tag, getTrackingStatus d !! tag = mapGet tag (counters d)).
  { intros d Hd tag. unfold getTrackingStatus. rewrite fromEntries_lookup by exact Hd.
    destruct (mapGet tag (counters d)); [reflexivity | apply lookup_empty]. }
  split; [exact Htrack|].
  split.
  { unfold distinctTags, untrackObject. destruct (references this !! obj); [|exact Hnd].
    simpl. apply mapSet_NoDup. exact Hnd. }
  split; [apply Hstatus; exact Hnd|].
  rewrite (Hstatus _ Htrack). simpl. apply mapGet_mapSet_eq.
Qed.

Lemma getTrackingStatus_reports_counters_witness :
  getTrackingStatus (trackObject 0 1 "TestObject" (trackObject 0 2 "TestObject" newMemoryLeakDetector))
  !! "TestObject" = Some 2%Z.
Proof.
  destruct (getTrackingStatus_reports_counters
              (trackObject 0 2 "TestObject" newMemoryLeakDetector) 0 1 "TestObject")
    as (_ & Hthis).
  destruct Hthis as (_ & _ & _ & Hstatus).
  - repeat constructor. simpl. intros H. apply elem_of_nil in H. exact H.
  - rewrite Hstatus. reflexivity.
Defined.

(** ** ListenerRegistry: removal *)

(** X20. Removal goes by the same name-based key as registration.  For
    a registry with no entry under the key, registering a listener
    raises the count by one, and a following [removeEventListener]
    for any listener of the same name on a target of the same
    constructor (the same listener in particular) restores the
    registry exactly and asks the target to remove the listener that
    was passed to the removal, which need not be the one registered.
    Removing under a key that is not registered calls nothing. *)
Theorem removeEventListener_by_name (this : EventListenerManager)
    (t1 t2 : EventTarget) (type : string) (l1 l2 : Listener) (o : ListenerOptions) :
  constructorName t1 = constructorName t2 ->
  listenerName l1 = listenerName l2 ->
  listeners this !! getListenerKey t1 type l1 = None ->
  let registered := fst (addEventListener t1 type l1 o this) in
  getListenerCount registered = S (getListenerCount this) /\
  removeEventListener t2 type l2 registered = (this, [TargetRemove t2 type l2]) /\
  removeEventListener t2 type l2 this = (this, []).
Proof.
  intros Hctor Hname Hfree registered.
  assert (Hkey : getListenerKey t2 type l2 = getListenerKey t1 type l1).
  { unfold getListenerKey, nameOrAnonymous. rewrite Hctor, Hname. reflexivity. }
  unfold registered, addEventListener. rewrite Hfree. simpl.
  split; [unfold getListenerCount; simpl; apply map_size_insert_None; exact Hfree|].
  split.
  - unfold removeEventListener. rewrite Hkey. simpl. rewrite lookup_insert_eq.
    rewrite delete_insert_id by exact Hfree. destruct this. reflexivity.
  - unfold removeEventListener. rewrite Hkey, Hfree. reflexivity.
Qed.

Lemma removeEventListener_by_name_witness :
  let button := {| target_ref := 1; constructorName := "HTMLButtonElement" |} in
  let onClick := {| listener_ref := 10; listenerName := "onClick" |} in
  let impostor := {| listener_ref := 11; listenerName := "onClick" |} in
  let registered := fst (addEventListener button "click" onClick [] newEventListenerManager) in
  removeEventListener button "click" impostor registered
  = (newEventListenerManager, [TargetRemove button "click" impostor]).
Proof.
  intros button onClick impostor registered.
  destruct (removeEventListener_by_name newEventListenerManager button button "click"
              onClick impostor [])
    as (_ & Hremove & _); [reflexivity | reflexivity | reflexivity |].
  exact Hremove.
Defined.

(** X21. [removeAllListeners] empties the registry and asks each
    registered target to remove its registered listener: one call per
    entry, each for the target, event type and listener stored in the
    entry, and no others. *)
Theorem removeAllListeners_detaches_all (this : EventListenerManager) :
  let after := fst (removeAllListeners this) in
  let log := snd (removeAllListeners this) in
  getListenerCount after = 0 /\
  length log = getListenerCount this /\
  (forall e,
      In e log <->
      exists key info,
        listeners this !! key = Some info /\
        e = TargetRemove (li_target info) (li_type info) (li_listener info)).
Proof.
  intros after log. unfold after, log, removeAllListeners, getListenerCount. simpl.
  split; [apply map_size_empty|].
  split; [rewrite length_map; apply length_map_to_list|].
  intros e. rewrite in_map_iff. split.
  - intros ([key info] & <- & Hin). exists key, info. split; [|reflexivity].
    apply elem_of_map_to_list. apply list_elem_of_In. exact Hin.
  - intros (key & info & Hl & ->). exists (key, info). split; [reflexivity|].
    apply list_elem_of_In. apply elem_of_map_to_list. exact Hl.
Qed.

(** ** The confirming hook *)

(** X22. [confirmDelete] of the confirming hook: with no project
    selected (no id, an empty id, or no snapshot) it returns [false],
    calls nothing and changes nothing; with a project selected it runs
    [executeDelete] for that project, and the dialog closes exactly
    when the delete succeeded, staying open on the same project after
    a failure. *)
Theorem confirmDelete_dialog {W : Type} (options : HookOptions W)
    (updateStateCallback : option Callback) (clock : Clock)
    (c : ConfirmationState) (h : HookState) (w : W) :
  ((confirmProjectId c = None \/ confirmProjectId c = Some EmptyString
    \/ confirmProjectData c = None) ->
   exists log,
     Confirmation.confirmDelete options updateStateCallback clock c h w
     = Some (false, c, h, w, log) /\
     Forall (fun e => match e with ConsoleErrorText _ => True | Inner _ => False end) log) /\
  (forall projectId projectData,
      projectId <> EmptyString ->
      exists ok h' w' log,
        executeDelete options projectId (Some projectData) updateStateCallback clock h w
        = Some (ok, h', w', log) /\
        Confirmation.confirmDelete options updateStateCallback clock
          (Confirmation.openDeleteConfirmation (Some projectId) (Some projectData)) h w
        = Some (ok,
                (if ok then Confirmation.closeDeleteConfirmation
                 else Confirmation.openDeleteConfirmation (Some projectId) (Some projectData)),
                h', w', map Inner log)).
Proof.
  split.
  - intros Hmissing. unfold Confirmation.confirmDelete.
    destruct (confirmProjectId c) as [pid|] eqn:Hp, (confirmProjectData c) as [d|] eqn:Hd;
      try (eexists; split; [reflexivity | repeat constructor]).
    destruct Hmissing as [H|[H|H]]; try discriminate.
    injection H as ->. simpl. eexists; split; [reflexivity | repeat constructor].
  - intros projectId projectData Hne.
    destruct (executeDelete_total options projectId (Some projectData) updateStateCallback
                clock h w) as (ok & h' & w' & log & Hrun).
    exists ok, h', w', log. split; [exact Hrun|].
    unfold Confirmation.confirmDelete. simpl.
    apply String.eqb_neq in Hne. rewrite Hne, Hrun. reflexivity.
Qed.

Lemma confirmDelete_dialog_witness :
  (exists log,
      Confirmation.confirmDelete scenarioOptions None scenarioClock
        Confirmation.closeDeleteConfirmation
        (useEnhancedDelete scenarioOptions newMemoryLeakDetector) 0
      = Some (false, Confirmation.closeDeleteConfirmation,
              useEnhancedDelete scenarioOptions newMemoryLeakDetector, 0, log)) /\
  (exists h' w' log,
      Confirmation.confirmDelete scenarioOptions None scenarioClock
        (Confirmation.openDeleteConfirmation (Some "p1") (Some roofRepair))
        (useEnhancedDelete scenarioOptions newMemoryLeakDetector) 0
      = Some (true, Confirmation.closeDeleteConfirmation, h', w', log)).
Proof.
  destruct (confirmDelete_dialog scenarioOptions None scenarioClock
              Confirmation.closeDeleteConfirmation
              (useEnhancedDelete scenarioOptions newMemoryLeakDetector) 0)
    as (Hnone & Hsome).
  split.
  - destruct Hnone as (log & Hrun & _); [left; reflexivity|]. exists log. exact Hrun.
  - destruct (Hsome "p1" roofRepair) as (ok & h' & w' & log & Hrun & Hconfirm);
      [discriminate|].
    assert (Hok : ok = true).
    { vm_compute in Hrun. injection Hrun as <- _ _ _. reflexivity. }
    subst ok. exists h', w', (map Inner log). exact Hconfirm.
Defined.

(** ** debounce and throttle *)

Lemma clearInterval_only (h : TimerHandle) (ms : Z) (next : TimerHandle) :
  clearInterval h {| nextHandle := next; activeTimers := [(h, ms)] |}
  = {| nextHandle := next; activeTimers := [] |}.
Proof. unfold clearInterval. simpl. rewrite Pos.eqb_refl. reflexivity. Qed.

Lemma isActive_only (h : TimerHandle) (ms : Z) (env : Timers) :
  activeTimers env = [(h, ms)] -> isActive h env = true.
Proof. intros H. unfold isActive. rewrite H. simpl. rewrite Pos.eqb_refl. reflexivity. Qed.

Section Debounce.
Context {A : Type}.

Lemma debouncedCall_spec (args : A) (d : Debounced A) (env : Timers) :
  debouncedOwnsTimers (d, env) ->
  exists h d1 env1,
    debouncedCall args (d, env)
    = (d1, env1,
       if db_immediate d && negb (bool_decide (is_Some (db_timeout d))) then [args] else []) /\
    debouncedOwnsTimers (d1, env1) /\
    db_timeout d1 = Some h /\
    db_later d1 = (h, args) :: db_later d /\
    db_wait d1 = db_wait d /\ db_immediate d1 = db_immediate d.
Proof.
  unfold debouncedOwnsTimers. simpl. intros Hown.
  assert (Hcleared : activeTimers (clearTimeout (db_timeout d) env) = []).
  { destruct (db_timeout d) as [h|]; simpl; [|exact Hown].
    destruct Hown as (Hact & _). rewrite Hact. simpl. rewrite Pos.eqb_refl. reflexivity. }
  eexists _, _, _. unfold debouncedCall, setTimeout.
  split; [reflexivity|]. simpl. rewrite Hcleared. simpl.
  repeat split. eauto.
Qed.

Lemma debouncedBurst_cons (args : A) (rest : list A) (st : Debounced A * Timers) :
  debouncedBurst (args :: rest) st
  = let '(d1, env1, made1) := debouncedCall args st in
    let '(d2, env2, made2) := debouncedBurst rest (d1, env1) in
    (d2, env2, made1 ++ made2).
Proof. reflexivity. Qed.

Lemma throttledBurst_cons (args : A) (rest : list A) (st : Throttled * Timers) :
  throttledBurst (args :: rest) st
  = let '(t1, env1, made1) := throttledCall args st in
    let '(t2, env2, made2) := throttledBurst rest (t1, env1) in
    (t2, env2, made1 ++ made2).
Proof. reflexivity. Qed.

Lemma debouncedBurst_app (xs ys : list A) (st : Debounced A * Timers) :
  debouncedBurst (xs ++ ys) st
  = let '(d1, env1, made1) := debouncedBurst xs st in
    let '(d2, env2, made2) := debouncedBurst ys (d1, env1) in
    (d2, env2, made1 ++ made2).
Proof.
  revert st. induction xs as [|x xs IH]; intros st; simpl.
  - destruct st as [d env]. simpl. destruct (debouncedBurst ys (d, env)) as [[d2 env2] made2].
    reflexivity.
  - destruct (debouncedCall x st) as [[d1 env1] made1].
    rewrite IH. destruct (debouncedBurst xs (d1, env1)) as [[d2 env2] made2].
    destruct (debouncedBurst ys (d2, env2)) as [[d3 env3] made3].
    rewrite app_assoc. reflexivity.
Qed.

(** A burst on a function that does not call at once (it is trailing,
    or a timer is already pending) calls [func] not at all. *)
Lemma debouncedBurst_quiet (calls : list A) :
  forall d env,
    debouncedOwnsTimers (d, env) ->
    db_immediate d = false \/ is_Some (db_timeout d) ->
    exists d1 env1,
      debouncedBurst calls (d, env) = (d1, env1, []) /\
      debouncedOwnsTimers (d1, env1) /\
      db_wait d1 = db_wait d /\ db_immediate d1 = db_immediate d /\
      (calls = [] -> d1 = d /\ env1 = env) /\
      (calls <> [] -> is_Some (db_timeout d1)).
Proof.
  induction calls as [|args calls IH]; intros d env Hown Hquiet.
  - exists d, env. simpl. repeat split; auto. congruence.
  - destruct (debouncedCall_spec args d env Hown)
      as (h & d1 & env1 & Hcall & Hown1 & Ht1 & _ & Hw1 & Hi1).
    assert (Hnone : (if db_immediate d && negb (bool_decide (is_Some (db_timeout d)))
                     then [args] else []) = []).
    { destruct Hquiet as [Hi|Hs]; [rewrite Hi; reflexivity|].
      rewrite (bool_decide_eq_true_2 _ Hs), andb_false_r. reflexivity. }
    rewrite Hnone in Hcall.
    destruct (IH d1 env1 Hown1) as (d2 & env2 & Hburst & Hown2 & Hw2 & Hi2 & Hnil & Hcons).
    { right. rewrite Ht1. eauto. }
    exists d2, env2. rewrite debouncedBurst_cons, Hcall, Hburst.
    split; [reflexivity|]. split; [exact Hown2|].
    split; [congruence|]. split; [congruence|]. split; [discriminate|].
    intros _. destruct calls as [|c calls].
    + destruct (Hnil eq_refl) as [-> _]. rewrite Ht1. eauto.
    + apply Hcons. discriminate.
Qed.

(** X23. Trailing debounce.  While calls keep coming and no timer
    expires, a debounced function ([immediate] false) never calls
    [func] and keeps exactly one timer pending; when that timer
    expires, [func] is called once, with the arguments of the last
    call, and no timer is left. *)
Theorem debounce_trailing (calls : list A) (last : A) (d : Debounced A) (env : Timers) :
  debouncedOwnsTimers (d, env) ->
  db_immediate d = false ->
  exists h d1 env1 d2 env2,
    debouncedBurst (calls ++ [last]) (d, env) = (d1, env1, []) /\
    db_timeout d1 = Some h /\
    activeTimers env1 = [(h, db_wait d)] /\
    debouncedExpire h (d1, env1) = (d2, env2, [last]) /\
    db_timeout d2 = None /\
    activeTimers env2 = [].
Proof.
  intros Hown Himm.
  destruct (debouncedBurst_quiet calls d env Hown (or_introl Himm))
    as (d0 & env0 & Hburst & Hown0 & Hw0 & Hi0 & _).
  destruct (debouncedCall_spec last d0 env0 Hown0)
    as (h & d1 & env1 & Hcall & Hown1 & Ht1 & Hl1 & Hw1 & Hi1).
  rewrite Hi0, Himm in Hcall. cbn [andb] in Hcall.
  unfold debouncedOwnsTimers in Hown1. simpl in Hown1. rewrite Ht1 in Hown1.
  destruct Hown1 as (Hact & _).
  exists h, d1, env1. eexists _, _.
  split.
  { rewrite debouncedBurst_app, Hburst, debouncedBurst_cons, Hcall. reflexivity. }
  split; [exact Ht1|].
  split; [rewrite Hact; congruence|].
  unfold debouncedExpire. rewrite (isActive_only h _ env1 Hact), Hl1. simpl.
  rewrite Pos.eqb_refl, Hi1, Hi0, Himm.
  split; [reflexivity|]. split; [reflexivity|].
  unfold clearInterval. rewrite Hact. simpl. rewrite Pos.eqb_refl. reflexivity.
Qed.

(** X24. Leading debounce.  With [immediate] set and no timer pending,
    the first call of a burst calls [func] at once and the further
    calls of the burst do not; the expiry of the timer calls nothing
    and leaves the function ready to call at once again. *)
Theorem debounce_leading (first : A) (calls : list A) (d : Debounced A) (env : Timers) :
  debouncedOwnsTimers (d, env) ->
  db_immediate d = true ->
  db_timeout d = None ->
  exists h d1 env1 d2 env2,
    debouncedBurst (first :: calls) (d, env) = (d1, env1, [first]) /\
    db_timeout d1 = Some h /\
    activeTimers env1 = [(h, db_wait d)] /\
    debouncedExpire h (d1, env1) = (d2, env2, []) /\
    db_timeout d2 = None /\ db_immediate d2 = true /\
    activeTimers env2 = [].
Proof.
  intros Hown Himm Hidle.
  destruct (debouncedCall_spec first d env Hown)
    as (h0 & d0 & env0 & Hcall & Hown0 & Ht0 & Hl0 & Hw0 & Hi0).
  rewrite Himm, Hidle in Hcall.
  rewrite bool_decide_eq_false_2 in Hcall by (intros [? ?]; discriminate).
  cbn [andb negb] in Hcall.
  destruct (debouncedBurst_quiet calls d0 env0 Hown0)
    as (d1 & env1 & Hburst & Hown1 & Hw1 & Hi1 & _ & _).
  { right. rewrite Ht0. eauto. }
  assert (Hpending : is_Some (db_timeout d1)).
  { destruct calls as [|c calls].
    - simpl in Hburst. injection Hburst as <- <-. rewrite Ht0. eauto.
    - destruct (debouncedBurst_quiet (c :: calls) d0 env0 Hown0)
        as (d1' & env1' & Hburst' & _ & _ & _ & _ & Hsome).
      { right. rewrite Ht0. eauto. }
      rewrite Hburst in Hburst'. injection Hburst' as <- <-. apply Hsome. discriminate. }
  destruct Hpending as [h Ht1].
  unfold debouncedOwnsTimers in Hown1. simpl in Hown1. rewrite Ht1 in Hown1.
  destruct Hown1 as (Hact & args & rest & Hl1).
  exists h, d1, env1. eexists _, _.
  split.
  { rewrite debouncedBurst_cons, Hcall, Hburst. reflexivity. }
  split; [exact Ht1|].
  split; [rewrite Hact; congruence|].
  unfold debouncedExpire. rewrite (isActive_only h _ env1 Hact), Hl1. simpl.
  rewrite Pos.eqb_refl, Hi1, Hi0, Himm.
  split; [reflexivity|]. split; [reflexivity|]. split; [simpl; congruence|].
  unfold clearInterval. rewrite Hact. simpl. rewrite Pos.eqb_refl. reflexivity.
Qed.

(** X25. Throttle.  A throttled function that is not in throttle calls
    [func] for the first call of a burst and drops the rest, holding
    one timer; when the timer expires it is out of throttle again, so
    the next call goes through. *)
Theorem throttle_first_call_only (first : A) (calls : list A) (t : Throttled)
    (env : Timers) :
  throttledOwnsTimers (t, env) ->
  th_inThrottle t = false ->
  exists h t1 env1,
    throttledBurst (first :: calls) (t, env) = (t1, env1, [first]) /\
    th_inThrottle t1 = true /\
    activeTimers env1 = [(h, th_limit t)] /\
    th_inThrottle (fst (throttledExpire h (t1, env1))) = false /\
    activeTimers (snd (throttledExpire h (t1, env1))) = [] /\
    throttledBurst (first :: calls) (t1, env1) = (t1, env1, []).
Proof.
  intros Hown Hidle. unfold throttledOwnsTimers in Hown. simpl in Hown.
  rewrite Hidle in Hown.
  assert (Hdrop : forall (cs : list A) t1 env1,
             th_inThrottle t1 = true -> throttledBurst cs (t1, env1) = (t1, env1, [])).
  { induction cs as [|c cs IH]; intros t1 env1 Ht1; [reflexivity|].
    rewrite throttledBurst_cons. unfold throttledCall. rewrite Ht1. simpl.
    rewrite (IH t1 env1 Ht1). reflexivity. }
  exists (nextHandle env). eexists _, _.
  split.
  { rewrite throttledBurst_cons. unfold throttledCall. rewrite Hidle. simpl.
    rewrite Hdrop by reflexivity. reflexivity. }
  split; [reflexivity|].
  split; [simpl; rewrite Hown; reflexivity|].
  split; [|split; [|apply Hdrop; reflexivity]].
  - unfold throttledExpire, isActive. simpl. rewrite Hown. simpl.
    rewrite Pos.eqb_refl. reflexivity.
  - unfold throttledExpire, isActive. simpl. rewrite Hown. simpl.
    rewrite Pos.eqb_refl. simpl. rewrite Pos.eqb_refl. reflexivity.
Qed.
End Debounce.

Lemma debounce_trailing_witness :
  exists h d1 env1 d2 env2,
    debouncedBurst ["call1"; "call2"; "call3"] (debounce 100 false, noTimers) = (d1, env1, []) /\
    debouncedExpire h (d1, env1) = (d2, env2, ["call3"]).
Proof.
  destruct (debounce_trailing ["call1"; "call2"] "call3" (debounce 100 false) noTimers)
    as (h & d1 & env1 & d2 & env2 & Hburst & _ & _ & Hexpire & _);
    [reflexivity | reflexivity |].
  exists h, d1, env1, d2, env2. split; [exact Hburst | exact Hexpire].
Defined.

Lemma debounce_leading_witness :
  exists h d1 env1 d2 env2,
    debouncedBurst ["call1"; "call2"] (debounce 100 true, noTimers) = (d1, env1, ["call1"]) /\
    debouncedExpire h (d1, env1) = (d2, env2, []).
Proof.
  destruct (debounce_leading "call1" ["call2"] (debounce 100 true) noTimers)
    as (h & d1 & env1 & d2 & env2 & Hburst & _ & _ & Hexpire & _);
    [reflexivity | reflexivity | reflexivity |].
  exists h, d1, env1, d2, env2. split; [exact Hburst | exact Hexpire].
Defined.

Lemma throttle_first_call_only_witness :
  exists t1 env1,
    throttledBurst ["call1"; "call2"; "call3"] (throttle 100, noTimers) = (t1, env1, ["call1"]).
Proof.
  destruct (throttle_first_call_only "call1" ["call2"; "call3"] (throttle 100) noTimers)
    as (h & t1 & env1 & Hburst & _); [reflexivity | reflexivity |].
  exists t1, env1. exact Hburst.
Defined.

(** ** processBatch *)

Section ProcessBatch.
Context {A B : Type}.
Variable items : list A.
Variable processor : A -> nat -> list A -> option B.
Variable g : A -> B.
Hypothesis processor_resolves : forall item index batch, processor item index batch = Some (g item).

Lemma promiseAll_resolves (batch0 batch : list A) (k : nat) :
  promiseAll (imap (fun index item => processor item (k + index) batch0) batch)
  = Some (map g batch).
Proof.
  revert k. induction batch as [|x batch IH]; intros k; simpl; [reflexivity|].
  rewrite processor_resolves.
  rewrite (imap_ext _ (fun index item => processor item (S k + index) batch0)).
  - rewrite IH. reflexivity.
  - intros index item _. simpl. f_equal. lia.
Qed.

Lemma processedItems_calls (batch : list A) (k : nat) (rest : list (BatchEvent A)) :
  processedItems (imap (fun index item => ProcessorCall item (k + index)) batch ++ rest)
  = batch ++ processedItems rest.
Proof.
  revert k. induction batch as [|x batch IH]; intros k; simpl; [reflexivity|].
  f_equal.
  rewrite (imap_ext _ (fun index item => ProcessorCall item (S k + index))).
  - apply IH.
  - intros index item _. simpl. f_equal. lia.
Qed.

Lemma pauses_calls (batch : list A) (k : nat) (rest : list (BatchEvent A)) :
  pauses (imap (fun index item => ProcessorCall item (k + index)) batch ++ rest)
  = pauses rest.
Proof.
  revert k. induction batch as [|x batch IH]; intros k; simpl; [reflexivity|].
  rewrite (imap_ext _ (fun index item => ProcessorCall item (S k + index))).
  - apply IH.
  - intros index item _. simpl. f_equal. lia.
Qed.

Lemma slice2_batch (k b : nat) :
  k < length items ->
  slice2 (Z.of_nat k) (Z.of_nat k + Z.of_nat b) items = take b (drop k items).
Proof.
  intros Hk. unfold slice2.
  replace (Z.of_nat k <? 0)%Z with false by (symmetry; apply Z.ltb_ge; lia).
  replace (Z.of_nat k + Z.of_nat b <? 0)%Z with false by (symmetry; apply Z.ltb_ge; lia).
  replace (Z.to_nat (Z.min (Z.of_nat k) (Z.of_nat (length items)))) with k by lia.
  destruct (Nat.le_gt_cases (k + b) (length items)) as [Hle|Hgt].
  - f_equal. lia.
  - replace (Z.to_nat (Z.min (Z.of_nat k + Z.of_nat b) (Z.of_nat (length items))
                       - Z.min (Z.of_nat k) (Z.of_nat (length items))))
      with (length items - k) by lia.
    rewrite !take_ge; [reflexivity | |]; rewrite length_drop; lia.
Qed.

Lemma drop_split (k b : nat) :
  take b (drop k items) ++ drop (k + b) items = drop k items.
Proof. rewrite <- drop_drop. apply take_drop. Qed.

Lemma processBatchFrom_resolves (b : nat) (delayMs : Z) :
  0 < b ->
  forall fuel k results,
    length items - k < fuel ->
    exists log,
      processBatchFrom fuel items processor (Z.of_nat b) delayMs (Z.of_nat k) results
      = Some (BatchResolved (results ++ map g (drop k items)), log) /\
      processedItems log = drop k items /\
      pauses log = if (0 <? delayMs)%Z then (length items - k - 1) / b else 0.
Proof.
  intros Hb. induction fuel as [|fuel IH]; intros k results Hfuel; [lia|].
  simpl. destruct (Z.ltb_spec (Z.of_nat k) (Z.of_nat (length items))) as [Hlt|Hge].
  - assert (Hk : k < length items) by lia.
    rewrite (slice2_batch k b Hk).
    pose proof (promiseAll_resolves (take b (drop k items)) (take b (drop k items)) 0) as Hall.
    simpl in Hall. rewrite Hall.
    replace (Z.of_nat k + Z.of_nat b)%Z with (Z.of_nat (k + b)) by lia.
    destruct (IH (k + b) (results ++ map g (take b (drop k items)))) as (log & Hrun & Hitems & Hpauses);
      [lia|].
    rewrite Hrun. eexists. split; [|split].
    + rewrite <- app_assoc, <- map_app, drop_split. reflexivity.
    + pose proof (processedItems_calls (take b (drop k items)) 0) as Hcalls.
      simpl in Hcalls. rewrite Hcalls.
      assert (Hnone : forall l : list (BatchEvent A), processedItems
                 ((if (0 <? delayMs)%Z && (Z.of_nat (k + b) <? Z.of_nat (length items))%Z
                   then [BatchDelay delayMs] else []) ++ l) = processedItems l).
      { intros l. destruct ((0 <? delayMs)%Z && (Z.of_nat (k + b) <? Z.of_nat (length items))%Z);
          reflexivity. }
      rewrite Hnone, Hitems. apply drop_split.
    + pose proof (pauses_calls (take b (drop k items)) 0) as Hcalls.
      simpl in Hcalls. rewrite Hcalls.
      destruct (0 <? delayMs)%Z; simpl.
      * destruct (Z.ltb_spec (Z.of_nat (k + b)) (Z.of_nat (length items))) as [Hmore|Hlast].
        -- unfold pauses in *. simpl. rewrite Hpauses.
           replace (length items - k - 1) with (length items - (k + b) - 1 + 1 * b) by lia.
           rewrite Nat.div_add by lia. lia.
        -- unfold pauses in *. simpl. rewrite Hpauses.
           rewrite (Nat.div_small (length items - k - 1)) by lia.
           apply Nat.div_small_iff; lia.
      * exact Hpauses.
  - eexists. split; [|split].
    + rewrite drop_ge by lia. simpl. rewrite app_nil_r. reflexivity.
    + rewrite drop_ge by lia. reflexivity.
    + replace (length items - k - 1) with 0 by lia.
      rewrite Nat.Div0.div_0_l. destruct (0 <? delayMs)%Z; reflexivity.
Qed.
End ProcessBatch.

(** X26. With a batch size of at least one and a processor whose
    promises all resolve, [processBatch] terminates and returns the
    processor's results for all items in the order of the items; every
    item is handed to the processor exactly once, in order; and when a
    positive delay is given it pauses between consecutive batches
    only, [(n - 1) / batchSize] times for [n] items, never after the
    last batch. *)
Theorem processBatch_maps_in_order {A B : Type} (items : list A)
    (processor : A -> nat -> list A -> option B) (g : A -> B)
    (batchSize : nat) (delayMs : option Z) (fuel : nat) :
  (forall item index batch, processor item index batch = Some (g item)) ->
  0 < batchSize ->
  length items < fuel ->
  exists log,
    processBatch fuel items processor (Some (Z.of_nat batchSize)) delayMs
    = Some (BatchResolved (map g items), log) /\
    processedItems log = items /\
    pauses log = if (0 <? default 0 delayMs)%Z then (length items - 1) / batchSize else 0.
Proof.
  intros Hres Hb Hfuel.
  destruct (processBatchFrom_resolves items processor g Hres batchSize (default 0%Z delayMs) Hb
              fuel 0 []) as (log & Hrun & Hitems & Hpauses); [lia|].
  exists log. unfold processBatch. simpl in *.
  rewrite Nat.sub_0_r in Hpauses. auto.
Qed.

Lemma processBatch_maps_in_order_witness :
  exists log,
    processBatch 6 [1; 2; 3; 4; 5]%Z (fun x _ _ => Some (x * 2)%Z) (Some 2%Z) (Some 100%Z)
    = Some (BatchResolved [2; 4; 6; 8; 10]%Z, log) /\
    processedItems log = [1; 2; 3; 4; 5]%Z /\
    pauses log = 2.
Proof.
  apply (processBatch_maps_in_order [1; 2; 3; 4; 5]%Z (fun x _ _ => Some (x * 2)%Z)
           (fun x => (x * 2)%Z) 2 (Some 100%Z) 6); [reflexivity | lia | simpl; lia].
Defined.

(** X27. A batch size of zero never finishes: on a non-empty list
    [processBatch] keeps taking the empty batch at index 0 and makes
    no progress, so no number of rounds produces a result, and the
    processor is never called. *)
Theorem processBatch_zero_batch_size {A B : Type} (items : list A)
    (processor : A -> nat -> list A -> option B) (delayMs : option Z) (fuel : nat) :
  items <> [] ->
  processBatch fuel items processor (Some 0%Z) delayMs = None.
Proof.
  intros Hne. unfold processBatch. simpl.
  assert (Hlen : (0 <? Z.of_nat (length items))%Z = true).
  { apply Z.ltb_lt. destruct items; [congruence | simpl; lia]. }
  assert (Hslice : slice2 0 0 items = []).
  { unfold slice2. simpl.
    replace (Z.to_nat (Z.min 0 (Z.of_nat (length items)) - Z.min 0 (Z.of_nat (length items))))
      with 0 by lia.
    reflexivity. }
  generalize (@nil B) as results.
  induction fuel as [|fuel IH]; intros results; [reflexivity|].
  cbn [processBatchFrom]. rewrite Hlen. change (0 + 0)%Z with 0%Z. rewrite Hslice.
  cbn [imap promiseAll]. rewrite IH. reflexivity.
Qed.

Lemma processBatch_zero_batch_size_witness :
  processBatch 1000 ["a"; "b"] (fun x _ _ => Some x) (Some 0%Z) None = None.
Proof.
  apply (processBatch_zero_batch_size ["a"; "b"] (fun x _ _ => Some x) None 1000).
  discriminate.
Defined.

(** ** PerformanceMonitor *)

Lemma completedCount_length (name : string) (this : PerformanceMonitor) :
  completedCount name this = length (completedOperations name this).
Proof.
  unfold completedCount, getOperationStats.
  destruct (length (completedOperations name this)) eqn:Hlen; reflexivity.
Qed.

Lemma completed_mapSet_fresh (name id : string) (m : Metric) (ms : list (string * Metric)) :
  mapGet id ms = None ->
  List.filter (fun metric => String.eqb (metric_name metric) name
                             && bool_decide (is_Some (metric_duration metric)))
    (map snd (mapSet id m ms))
  = List.filter (fun metric => String.eqb (metric_name metric) name
                               && bool_decide (is_Some (metric_duration metric)))
      (map snd ms ++ [m]).
Proof.
  induction ms as [|[k v] ms IH]; simpl; [reflexivity|].
  destruct (String.eqb k id); [discriminate|]. intros Hnone. simpl.
  rewrite (IH Hnone). reflexivity.
Qed.

Lemma completed_mapSet_pending (name id : string) (m m' : Metric)
    (ms : list (string * Metric)) :
  mapGet id ms = Some m ->
  metric_duration m = None ->
  is_Some (metric_duration m') ->
  length (List.filter (fun metric => String.eqb (metric_name metric) name
                                     && bool_decide (is_Some (metric_duration metric)))
            (map snd (mapSet id m' ms)))
  = (if String.eqb (metric_name m') name then 1 else 0)
    + length (List.filter (fun metric => String.eqb (metric_name metric) name
                                         && bool_decide (is_Some (metric_duration metric)))
                (map snd ms)).
Proof.
  intros Hget Hpending Hdone. revert Hget.
  induction ms as [|[k v] ms IH]; simpl; [discriminate|].
  destruct (String.eqb k id).
  - intros Hv. injection Hv as ->. simpl.
    rewrite Hpending, (bool_decide_eq_true_2 _ Hdone), andb_true_r.
    rewrite (bool_decide_eq_false_2 (is_Some None)) by (intros [? ?]; discriminate).
    rewrite andb_false_r.
    destruct (String.eqb (metric_name m') name); reflexivity.
  - intros Hget. simpl.
    destruct (String.eqb (metric_name v) name && bool_decide (is_Some (metric_duration v)));
      simpl; rewrite (IH Hget); lia.
Qed.

(** X28. [getOperationStats] counts completed operations only.
    Starting an operation under an id not in use changes the count of
    no name; ending an operation that was started and not yet ended
    raises the count of its name by one and leaves every other name's
    count alone; ending an id the monitor does not know changes
    nothing and warns of nothing; and after [clearMetrics] every name
    reports [null]. *)
Theorem getOperationStats_counts_completed (this : PerformanceMonitor)
    (name other : string) (dateNow : Z) (random : string) (perfNow : Q)
    (memory : option MemoryUsage) (id : string) (m : Metric) :
  (mapGet (name +:+ "-" +:+ pretty dateNow +:+ "-" +:+ random) (metrics this) = None ->
   completedCount other (snd (startOperation name dateNow random perfNow memory this))
   = completedCount other this) /\
  (mapGet id (metrics this) = Some m -> metric_duration m = None ->
   completedCount other (fst (endOperation id perfNow memory this))
   = (if String.eqb (metric_name m) other then 1 else 0) + completedCount other this) /\
  (mapGet id (metrics this) = None -> endOperation id perfNow memory this = (this, [])) /\
  getOperationStats other (clearMetrics this) = None /\
  (getOperationStats other this = None <-> completedCount other this = 0).
Proof.
  split; [|split; [|split; [|split]]].
  - intros Hfresh. rewrite !completedCount_length. unfold completedOperations. simpl.
    rewrite completed_mapSet_fresh by exact Hfresh.
    rewrite List.filter_app. simpl.
    rewrite andb_false_r, app_nil_r. reflexivity.
  - intros Hget Hpending. rewrite !completedCount_length.
    unfold completedOperations, endOperation. rewrite Hget. simpl.
    rewrite (completed_mapSet_pending other id m) by (simpl; eauto). reflexivity.
  - intros Hnone. unfold endOperation. rewrite Hnone. reflexivity.
  - reflexivity.
  - rewrite completedCount_length. unfold getOperationStats.
    destruct (length (completedOperations other this)); simpl; split; congruence.
Qed.

Lemma getOperationStats_counts_completed_witness :
  let started := startOperation "test-delete" 1700000000000 "0.5" 1000 None newPerformanceMonitor in
  completedCount "test-delete" (snd started) = 0 /\
  completedCount "test-delete" (fst (endOperation (fst started) 1100 None (snd started))) = 1.
Proof.
  intros started.
  destruct (getOperationStats_counts_completed newPerformanceMonitor "test-delete" "test-delete"
              1700000000000 "0.5" 1000 None (fst started)
              {| metric_name := "test-delete"; metric_startTime := 1000;
                 metric_endTime := None; metric_duration := None;
                 metric_memoryBefore := None; metric_memoryAfter := None |})
    as (Hstart & _).
  destruct (getOperationStats_counts_completed (snd started) "test-delete" "test-delete"
              1700000000000 "0.5" 1100 None (fst started)
              {| metric_name := "test-delete"; metric_startTime := 1000;
                 metric_endTime := None; metric_duration := None;
                 metric_memoryBefore := None; metric_memoryAfter := None |})
    as (_ & Hend & _).
  split.
  - unfold started. rewrite Hstart; reflexivity.
  - rewrite Hend; reflexivity.
Defined.

Lemma mapSet_fresh {V : Type} (k : string) (v : V) (m : list (string * V)) :
  mapGet k m = None -> mapSet k v m = m ++ [(k, v)].
Proof.
  induction m as [|[k' v'] m IH]; simpl; [reflexivity|].
  destruct (String.eqb k' k); [discriminate|]. intros H. rewrite (IH H). reflexivity.
Qed.

Lemma mapSet_last {V : Type} (k : string) (v0 v : V) (m : list (string * V)) :
  mapGet k m = None -> mapSet k v (m ++ [(k, v0)]) = m ++ [(k, v)].
Proof.
  induction m as [|[k' v'] m IH]; simpl.
  - rewrite String.eqb_refl. reflexivity.
  - destruct (String.eqb k' k); [discriminate|]. intros H. rewrite (IH H). reflexivity.
Qed.

Lemma mapGet_last {V : Type} (k : string) (v : V) (m : list (string * V)) :
  mapGet k m = None -> mapGet k (m ++ [(k, v)]) = Some v.
Proof.
  induction m as [|[k' v'] m IH]; simpl.
  - rewrite String.eqb_refl. reflexivity.
  - destruct (String.eqb k' k); [discriminate|]. exact IH.
Qed.

Lemma toFixed2_Qeq (x y : Q) : (x == y)%Q -> toFixed2 x = toFixed2 y.
Proof.
  intros Hxy. unfold toFixed2.
  assert (Hsign : (Qnum x <? 0)%Z = (Qnum y <? 0)%Z).
  { unfold Qeq in Hxy.
    destruct (Z.ltb_spec (Qnum x) 0), (Z.ltb_spec (Qnum y) 0); auto; nia. }
  assert (Hfloor : Qfloor (Qabs x * 100 + (1 # 2)) = Qfloor (Qabs y * 100 + (1 # 2))).
  { apply Qfloor_comp. rewrite Hxy. reflexivity. }
  rewrite Hsign, Hfloor. reflexivity.
Qed.

Lemma toFixed2_nearestHundredth (x : Q) :
  (0 <= x)%Q -> nearestHundredth (toFixed2 x) x.
Proof.
  intros Hx. unfold toFixed2, nearestHundredth.
  assert (Hnum : (Qnum x <? 0)%Z = false).
  { apply Z.ltb_ge. unfold Qle in Hx. simpl in Hx. lia. }
  rewrite Hnum.
  assert (Hfloor : Qfloor (Qabs x * 100 + (1 # 2)) = Qfloor (x * 100 + (1 # 2))).
  { apply Qfloor_comp. rewrite (Qabs_pos x) by exact Hx. reflexivity. }
  rewrite Hfloor.
  pose proof (Qfloor_le (x * 100 + (1 # 2))) as Hlo.
  pose proof (Qlt_floor (x * 100 + (1 # 2))) as Hhi.
  rewrite inject_Z_plus in Hhi. change (inject_Z 1) with 1%Q in Hhi.
  set (n := Qfloor (x * 100 + (1 # 2))) in *.
  exists n. split.
  - change 0%Z with (Qfloor 0). apply Qfloor_resp_le. lra.
  - split; [reflexivity|]. unfold Qdiv. change (/ 100)%Q with (1 # 100)%Q. split; lra.
Qed.

(** X29. The statistics of a single measurement: when the monitor
    holds no completed operation of a name and an operation of that
    name is started under an unused id and then ended,
    [getOperationStats] reports a count of 1 and the stored duration,
    formatted with two decimals, as average, minimum and maximum
    alike.  The stored duration is the double nearest to the
    difference of the two readings, within one part in 2^53 of it, and
    when it is not negative the strings are the numeral with two
    decimals nearest to it. *)
Theorem getOperationStats_single (this : PerformanceMonitor) (name : string)
    (dateNow : Z) (random : string) (startNow endNow : Q)
    (memory memory' : option MemoryUsage) :
  let id := name +:+ "-" +:+ pretty dateNow +:+ "-" +:+ random in
  mapGet id (metrics this) = None ->
  completedCount name this = 0 ->
  let started := startOperation name dateNow random startNow memory this in
  let duration := double_sub endNow startNow in
  fst started = id /\
  getOperationStats name (fst (endOperation (fst started) endNow memory' (snd started)))
  = Some {| stats_operationName := name;
            stats_count := 1;
            avgDuration := toFixed2 duration;
            minDuration := toFixed2 duration;
            maxDuration := toFixed2 duration |} /\
  isDouble duration /\
  (Qabs (duration - (endNow - startNow))
   <= Qabs (endNow - startNow) * (1 # 9007199254740992))%Q /\
  ((startNow <= endNow)%Q -> nearestHundredth (toFixed2 duration) duration).
Proof.
  intros id Hfresh Hnone started duration. split; [reflexivity|].
  split; [|split; [apply roundDouble_isDouble|split; [apply roundDouble_error|]]].
  - rewrite completedCount_length in Hnone. apply length_zero_iff_nil in Hnone.
    unfold started, startOperation, endOperation. fold id. cbn [fst snd metrics].
    rewrite (mapSet_fresh id _ _ Hfresh), (mapGet_last id _ _ Hfresh).
    cbn [fst metrics]. rewrite (mapSet_last id _ _ _ Hfresh).
    unfold getOperationStats, completedOperations. cbn [metrics].
    unfold completedOperations in Hnone.
    rewrite map_app, List.filter_app, Hnone. cbn [map snd List.filter app].
    cbn [metric_name metric_duration metric_startTime].
    rewrite String.eqb_refl.
    rewrite bool_decide_eq_true_2 by eauto.
    cbn [andb length Nat.eqb map metric_duration default fold_left minOf maxOf].
    fold duration. f_equal. f_equal. apply toFixed2_Qeq.
    unfold double_div, double_add, Datatypes.id.
    change (inject_Z (Z.of_nat 1)) with 1%Q.
    assert (Hidem : (roundDouble duration == duration)%Q)
      by apply roundDouble_idempotent.
    rewrite (roundDouble_comp (0 + duration) duration) by ring.
    rewrite (roundDouble_comp (roundDouble duration / 1) duration); [exact Hidem|].
    rewrite Hidem. field.
  - intros Horder. apply toFixed2_nearestHundredth, roundDouble_nonneg. lra.
Qed.

Lemma getOperationStats_single_witness :
  let started :=
    startOperation "test-delete" 1700000000000 "0.5" (roundDouble (1 # 10)) None
      newPerformanceMonitor in
  getOperationStats "test-delete"
    (fst (endOperation (fst started) (roundDouble (475 # 1000)) None (snd started)))
  = Some {| stats_operationName := "test-delete"; stats_count := 1;
            avgDuration := "0.38"; minDuration := "0.38"; maxDuration := "0.38" |}.
Proof.
  intros started.
  destruct (getOperationStats_single newPerformanceMonitor "test-delete" 1700000000000 "0.5"
              (roundDouble (1 # 10)) (roundDouble (475 # 1000)) None None)
    as (_ & Hstats & _); [reflexivity | reflexivity |].
  unfold started. rewrite Hstats. vm_compute. reflexivity.
Defined.

Lemma hook_operation_name (projectId : string) :
  includes ("delete-project-" +:+ projectId) "delete" = true.
Proof.
  apply includes_occursIn. exists EmptyString, ("-project-" +:+ projectId). reflexivity.
Qed.

(** X30. Slow deletes are reported.  The hook names its operations
    ["delete-project-<id>"], which contains ["delete"]; so when such
    an operation is ended, the monitor emits the slow-operation
    warning exactly when the stored duration, the double nearest to
    the difference of the two readings, exceeds 1000 ms, and it then
    names the operation and that duration. *)
Theorem slow_delete_is_warned (this : PerformanceMonitor) (projectId id : string)
    (m : Metric) (perfNow : Q) (memory : option MemoryUsage) :
  mapGet id (metrics this) = Some m ->
  metric_name m = "delete-project-" +:+ projectId ->
  let duration := double_sub perfNow (metric_startTime m) in
  (In (SlowOperation ("delete-project-" +:+ projectId) duration)
      (snd (endOperation id perfNow memory this))
   <-> (1000 < duration)%Q) /\
  (forall name d, In (SlowOperation name d) (snd (endOperation id perfNow memory this)) ->
                  name = "delete-project-" +:+ projectId /\ d = duration) /\
  isDouble duration /\
  (Qabs (duration - (perfNow - metric_startTime m))
   <= Qabs (perfNow - metric_startTime m) * (1 # 9007199254740992))%Q.
Proof.
  intros Hget Hname duration.
  split; [|split; [|split; [apply roundDouble_isDouble | apply roundDouble_error]]];
    unfold endOperation; rewrite Hget;
    unfold checkPerformanceWarnings; cbn [snd metric_name metric_duration
      metric_memoryBefore metric_memoryAfter];
    rewrite Hname, hook_operation_name; cbn [andb]; fold duration.
  all: assert (Hmem : forall name d,
             ~ In (SlowOperation name d)
                 match metric_memoryBefore m with
                 | Some before =>
                     match memory with
                     | Some after =>
                         if (1024 * 1024 <? mem_used after - mem_used before)%Z
                         then [MemoryGrowth ("delete-project-" +:+ projectId)
                                 (mem_used after - mem_used before)]
                         else []
                     | None => []
                     end
                 | None => []
                 end)
    by (intros name d; destruct (metric_memoryBefore m), memory; simpl; try tauto;
        destruct (1024 * 1024 <? _)%Z; simpl; [|tauto]; intros [H|[]]; discriminate).
  - rewrite in_app_iff. destruct (Qle_bool duration 1000) eqn:Hle; simpl.
    + apply Qle_bool_iff in Hle. split.
      * intros [[]|H]. exfalso. exact (Hmem _ _ H).
      * intros Hlt. exfalso. exact (Qlt_not_le _ _ Hlt Hle).
    + split; [|auto]. intros _. apply Qnot_le_lt. intros Hle'.
      apply Qle_bool_iff in Hle'. congruence.
  - intros name d. rewrite in_app_iff. intros [H|H]; [|exfalso; exact (Hmem _ _ H)].
    destruct (negb (Qle_bool duration 1000)); simpl in H; [|destruct H].
    destruct H as [H|[]]. injection H as <- <-. auto.
Qed.

Lemma slow_delete_is_warned_witness :
  let slow := startOperation "delete-project-p1" 1700000000000 "0.5" 1000 None
                newPerformanceMonitor in
  let borderline :=
    startOperation "delete-project-p1" 1700000000000 "0.5" (roundDouble (1 # 10)) None
      newPerformanceMonitor in
  let measured := double_sub (roundDouble (10001 # 10)) (roundDouble (1 # 10)) in
  In (SlowOperation "delete-project-p1" (double_sub 2100 1000))
     (snd (endOperation (fst slow) 2100 None (snd slow))) /\
  measured = 1000%Q /\
  ~ In (SlowOperation "delete-project-p1" measured)
       (snd (endOperation (fst borderline) (roundDouble (10001 # 10)) None (snd borderline))).
Proof.
  intros slow borderline measured.
  destruct (slow_delete_is_warned (snd slow) "p1" (fst slow)
              {| metric_name := "delete-project-p1"; metric_startTime := 1000;
                 metric_endTime := None; metric_duration := None;
                 metric_memoryBefore := None; metric_memoryAfter := None |}
              2100 None)
    as (Hslow & _); [reflexivity | reflexivity |].
  destruct (slow_delete_is_warned (snd borderline) "p1" (fst borderline)
              {| metric_name := "delete-project-p1";
                 metric_startTime := roundDouble (1 # 10);
                 metric_endTime := None; metric_duration := None;
                 metric_memoryBefore := None; metric_memoryAfter := None |}
              (roundDouble (10001 # 10)) None)
    as (Hborder & _); [reflexivity | reflexivity |].
  cbn [metric_startTime] in Hslow, Hborder. fold measured in Hborder.
  split; [|split].
  - apply (proj2 Hslow). vm_compute. reflexivity.
  - vm_compute. reflexivity.
  - intros Hin. pose proof (proj1 Hborder Hin) as Hlt.
    vm_compute in Hlt. discriminate Hlt.
Defined.
